(** * mcserver-manager: the wake-on-connect proxy and its idle shutdown

    A shallow embedding of the five Python modules of the repository
    ([digitalocean_manager.py], [minecraft_monitor.py], [main.py],
    [port_listener.py], [web_server.py]) and the properties of the gateway
    that are checked against it.

    Python methods become programs of type [prog R]: trees whose nodes are
    the calls the method makes to the outside world (the DigitalOcean
    droplet, the mcstatus query, the clocks, the sockets), the reads of the
    fields of the shared objects and the assignments to them.  One node is
    one atomic step of a thread, so the same tree is run to completion
    against an environment ([run]) or interleaved with other threads
    ([sched]).  Loops that poll until a deadline take a bound [fuel] on
    their number of rounds and end in [Spin] when it is used up.

    Left out: the calls to the logger, the constructors,
    [MCServerManager.run] and [shutdown], [TCPProxy.start], and the pages
    of the dashboard that only render ([index], [get_logs]). *)

From Stdlib Require Import ZArith List String Bool Lia Arith.
Import ListNotations.

Local Open Scope Z_scope.

(** ** Exceptions

    The handlers of the source tell three families apart:
    [socket.timeout], [socket.error] (which contains [socket.timeout]) and
    [Exception]. *)

Inductive exn : Type :=
| SocketTimeout
| SocketError (msg : string)
| Error (msg : string).

Definition is_socket_timeout (e : exn) : bool :=
  match e with SocketTimeout => true | _ => false end.

Definition is_socket_error (e : exn) : bool :=
  match e with SocketTimeout | SocketError _ => true | Error _ => false end.

(** [str(e)] *)
Definition str (e : exn) : string :=
  match e with
  | SocketTimeout => "timed out"
  | SocketError m => m
  | Error m => m
  end.

(** ** The outside world *)

Definition sock := nat.
Definition address := (string * Z)%type.
Definition bytes := list nat.

(** Calls that leave the process.  Times are integers: [Now] is
    [datetime.now()] in microseconds, [Time] is [time.time()] in seconds. *)
Inductive ext : Type :=
| DropletLoad                      (* droplet.load(); droplet.status *)
| DropletPowerOn                   (* droplet.power_on() *)
| DropletShutdown                  (* droplet.shutdown() *)
| ServerLookup                     (* JavaServer.lookup(ip:port) *)
| ServerStatus                     (* server.status().players.online *)
| Now
| Time
| Sleep (secs : Z)
| SocketNew                        (* socket.socket(AF_INET, SOCK_STREAM) *)
| SocketBind (s : sock)            (* setsockopt; bind; listen; settimeout *)
| SocketAccept (s : sock)
| SocketSetTimeout (s : sock)
| SocketConnect (s : sock)
| SocketSetBlocking (s : sock)
| SocketClose (s : sock)
| Select (c s : sock)              (* select([c, s], [], [c, s], 1.0) *)
| Recv (s : sock)                  (* s.recv(4096) *)
| SendAll (s : sock) (data : bytes)
| ThreadStart (client : sock) (a : address).

(** What each call answers; [inl e] and [Some e] are a raised exception. *)
Definition Ans (c : ext) : Type :=
  match c with
  | DropletLoad => (exn + string)%type
  | ServerStatus => (exn + Z)%type
  | Now | Time => Z
  | Sleep _ => unit
  | SocketNew => (exn + sock)%type
  | SocketAccept _ => (exn + (sock * address))%type
  | Select _ _ => (exn + (list sock * list sock))%type
  | Recv _ => (exn + bytes)%type
  | _ => option exn
  end.

(** ** The fields of the shared objects

    [MCServerManager], [TCPProxy] and [MinecraftMonitor] are each created
    once and shared by every thread. *)

Record State : Type := mkState {
  last_activity_time : option Z;     (* MCServerManager *)
  startup_in_progress : bool;
  server_ready : bool;
  inactivity_timeout : Z;
  proxy_running : bool;              (* TCPProxy.running *)
  server_socket : option sock;       (* TCPProxy.server_socket *)
  active_connections : Z;            (* TCPProxy.active_connections *)
  monitor_server : bool              (* MinecraftMonitor.server is not None *)
}.

(** Assignments.  [IncrActive] and [DecrActive] are the two
    [with self.connection_lock:] blocks of [_handle_connection]: the lock is
    held over the whole read-modify-write and every access to the counter
    takes it, so each block is one step. *)
Inductive upd : Type :=
| SetLastActivity (t : option Z)
| SetStartup (b : bool)
| SetReady (b : bool)
| SetProxyRunning (b : bool)
| SetServerSocket (s : option sock)
| SetMonitorServer
| IncrActive
| DecrActive.

Definition apply_upd (u : upd) (s : State) : State :=
  match s with
  | mkState la sp sr it pr ss ac ms =>
    match u with
    | SetLastActivity t => mkState t sp sr it pr ss ac ms
    | SetStartup b => mkState la b sr it pr ss ac ms
    | SetReady b => mkState la sp b it pr ss ac ms
    | SetProxyRunning b => mkState la sp sr it b ss ac ms
    | SetServerSocket x => mkState la sp sr it pr x ac ms
    | SetMonitorServer => mkState la sp sr it pr ss ac true
    | IncrActive => mkState la sp sr it pr ss (ac + 1) ms
    | DecrActive => mkState la sp sr it pr ss (ac - 1) ms
    end
  end.

(** ** Programs *)

Inductive prog (R : Type) : Type :=
| Ret (r : R)                              (* the method returns *)
| Raise (e : exn)                          (* an exception leaves it *)
| Spin                                     (* a loop ran out of fuel *)
| Call (c : ext) (k : Ans c -> prog R)
| Read (k : State -> prog R)
| Write (u : upd) (k : prog R).

Arguments Ret {R} r.
Arguments Raise {R} e.
Arguments Spin {R}.
Arguments Call {R} c k.
Arguments Read {R} k.
Arguments Write {R} u k.

Fixpoint bind {A B : Type} (p : prog A) (f : A -> prog B) : prog B :=
  match p with
  | Ret a => f a
  | Raise e => Raise e
  | Spin => Spin
  | Call c k => Call c (fun a => bind (k a) f)
  | Read k => Read (fun s => bind (k s) f)
  | Write u k => Write u (bind k f)
  end.

Declare Scope prog_scope.
Delimit Scope prog_scope with prog.
Bind Scope prog_scope with prog.

Notation "x <- p ;; q" := (bind p (fun x => q))
  (at level 61, p at next level, right associativity) : prog_scope.
Notation "p ;; q" := (bind p (fun _ => q))
  (at level 61, right associativity) : prog_scope.

Local Open Scope prog_scope.

(** [try: p / except Exception as e: h e] *)
Fixpoint try_except {R : Type} (p : prog R) (h : exn -> prog R) : prog R :=
  match p with
  | Ret r => Ret r
  | Raise e => h e
  | Spin => Spin
  | Call c k => Call c (fun a => try_except (k a) h)
  | Read k => Read (fun s => try_except (k s) h)
  | Write u k => Write u (try_except k h)
  end.

(** [try: p / finally: q].  An exception of [q] replaces the pending
    return or exception of [p]. *)
Fixpoint try_finally {R : Type} (p : prog R) (q : prog unit) : prog R :=
  match p with
  | Ret r => q ;; Ret r
  | Raise e => q ;; Raise e
  | Spin => Spin
  | Call c k => Call c (fun a => try_finally (k a) q)
  | Read k => Read (fun s => try_finally (k s) q)
  | Write u k => Write u (try_finally k q)
  end.

(** Elementary programs. *)
Definition get : prog State := Read (fun s => Ret s).
Definition set (u : upd) : prog unit := Write u (Ret tt).
Definition of_sum {A : Type} (a : exn + A) : prog A :=
  match a with inl e => Raise e | inr x => Ret x end.
Definition of_opt (a : option exn) : prog unit :=
  match a with Some e => Raise e | None => Ret tt end.

Definition now : prog Z := Call Now (fun t => Ret t).
Definition time : prog Z := Call Time (fun t => Ret t).
Definition sleep (secs : Z) : prog unit := Call (Sleep secs) (fun _ => Ret tt).

(** ** digitalocean_manager.py *)

Module DigitalOceanManager.

(** [self.droplet.load()] followed by the read of [self.droplet.status]. *)
Definition load : prog string := Call DropletLoad of_sum.

Definition is_running : prog bool :=
  status <- load ;;
  Ret (status =? "active")%string.

(** The [while time.time() - start_time < timeout] loop of
    [start_droplet], [timeout = 300]. *)
Fixpoint start_droplet_wait (fuel : nat) (start_time : Z) : prog bool :=
  match fuel with
  | O => Spin
  | S fuel' =>
    t <- time ;;
    if t - start_time <? 300 then
      status <- load ;;
      if (status =? "active")%string then
        sleep 30 ;; Ret true
      else
        sleep 5 ;; start_droplet_wait fuel' start_time
    else Ret false
  end.

Definition start_droplet (fuel : nat) : prog bool :=
  status <- load ;;
  if (status =? "active")%string then Ret true
  else
    try_except
      (Call DropletPowerOn of_opt ;;
       start_time <- time ;;
       start_droplet_wait fuel start_time)
      (fun _ => Ret false).

Definition stop_droplet : prog bool :=
  status <- load ;;
  if (status =? "off")%string then Ret true
  else
    try_except
      (Call DropletShutdown of_opt ;; Ret true)
      (fun _ => Ret false).

End DigitalOceanManager.

(** ** minecraft_monitor.py *)

Module MinecraftMonitor.

Definition _get_server : prog unit :=
  s <- get ;;
  if monitor_server s then Ret tt
  else Call ServerLookup of_opt ;; set SetMonitorServer.

(** [server.status()] and its [players.online]. *)
Definition status : prog Z := Call ServerStatus of_sum.

Definition is_server_online : prog bool :=
  try_except
    (_get_server ;; _ <- status ;; Ret true)
    (fun _ => Ret false).

Definition get_player_count : prog (option Z) :=
  try_except
    (_get_server ;; player_count <- status ;; Ret (Some player_count))
    (fun _ => Ret None).

Fixpoint wait_for_server_ready_loop (fuel : nat) (timeout start_time : Z)
  : prog bool :=
  match fuel with
  | O => Spin
  | S fuel' =>
    t <- time ;;
    if t - start_time <? timeout then
      online <- is_server_online ;;
      if online then Ret true
      else sleep 5 ;; wait_for_server_ready_loop fuel' timeout start_time
    else Ret false
  end.

Definition wait_for_server_ready (fuel : nat) (timeout : Z) : prog bool :=
  start_time <- time ;;
  wait_for_server_ready_loop fuel timeout start_time.

End MinecraftMonitor.

(** ** port_listener.py *)

(** [try: p / except socket.error: h] and the like: a handler for one
    family of exceptions. *)
Fixpoint try_except_when {R : Type} (p : prog R) (caught : exn -> bool)
  (h : exn -> prog R) : prog R :=
  match p with
  | Ret r => Ret r
  | Raise e => if caught e then h e else Raise e
  | Spin => Spin
  | Call c k => Call c (fun a => try_except_when (k a) caught h)
  | Read k => Read (fun s => try_except_when (k s) caught h)
  | Write u k => Write u (try_except_when k caught h)
  end.

(** [try: s.close() / except: pass] *)
Definition close_quietly (s : sock) : prog unit :=
  try_except (Call (SocketClose s) of_opt) (fun _ => Ret tt).

Module TCPProxy.

Definition stop : prog unit :=
  set (SetProxyRunning false) ;;
  st <- get ;;
  match server_socket st with
  | Some s => close_quietly s
  | None => Ret tt
  end ;;
  Ret tt.

Definition get_active_connections : prog Z :=
  s <- get ;; Ret (active_connections s).

(** The [for sock in readable:] loop of [_proxy_data]; [true] when the
    method returned from inside the loop. *)
Fixpoint forward (client server : sock) (readable : list sock) : prog bool :=
  match readable with
  | [] => Ret false
  | s :: rest =>
    returned <-
      try_except_when
        (data <- Call (Recv s) of_sum ;;
         match data with
         | [] => Ret true
         | _ :: _ =>
           (if Nat.eqb s client then Call (SendAll server data) of_opt
            else Call (SendAll client data) of_opt) ;;
           Ret false
         end)
        is_socket_error
        (fun _ => Ret true) ;;
    if returned : bool then Ret true else forward client server rest
  end.

Fixpoint _proxy_data_loop (fuel : nat) (client server : sock) : prog unit :=
  match fuel with
  | O => Spin
  | S fuel' =>
    st <- get ;;
    if proxy_running st then
      r <- Call (Select client server) of_sum ;;
      match snd r with
      | _ :: _ => Ret tt
      | [] =>
        returned <- forward client server (fst r) ;;
        if returned : bool then Ret tt
        else _proxy_data_loop fuel' client server
      end
    else Ret tt
  end.

Definition _proxy_data (fuel : nat) (client server : sock) : prog unit :=
  try_except (_proxy_data_loop fuel client server) (fun _ => Ret tt).

(** The [try] statement of [_handle_connection] with its
    [except Exception] clause.  The result is the value of the local
    [server_socket] when the statement is left, which the [finally] suite
    reads: [None] until [socket.socket()] has returned.  [relay_try] is the
    rest of the statement from there on, where the local is bound. *)
Definition relay_try (fuel : nat) (client server : sock)
  : prog (option sock) :=
  try_except
    (Call (SocketSetTimeout server) of_opt ;;
     connected <- try_except
                    (Call (SocketConnect server) of_opt ;; Ret true)
                    (fun _ => Ret false) ;;
     if negb connected then
       Call (SocketClose client) of_opt ;; Ret (Some server)
     else
       Call (SocketSetBlocking client) of_opt ;;
       Call (SocketSetBlocking server) of_opt ;;
       _proxy_data fuel client server ;;
       Ret (Some server))
    (fun _ => Ret (Some server)).

Definition handle_try (get_server_ready_callback : option (prog bool))
  (fuel : nat) (client : sock) : prog (option sock) :=
  try_except
    (ready <- match get_server_ready_callback with
              | Some callback => callback
              | None => Ret true
              end ;;
     if negb ready then
       Call (SocketClose client) of_opt ;; Ret None
     else
       server <- Call SocketNew of_sum ;;
       relay_try fuel client server)
    (fun _ => Ret None).

(** The increment under the lock, the [try] statement, then the [finally]
    suite: no exception leaves [handle_try], so the suite is what runs
    next on every path that ends. *)
Definition _handle_connection (get_server_ready_callback : option (prog bool))
  (fuel : nat) (client : sock) (a : address) : prog unit :=
  set IncrActive ;;
  server_socket <- handle_try get_server_ready_callback fuel client ;;
  close_quietly client ;;
  match server_socket with
  | Some server => close_quietly server
  | None => Ret tt
  end ;;
  set DecrActive.

(** The [while self.running:] loop of [_listen]. *)
Fixpoint accept_loop (on_connection_callback : option (address -> prog unit))
  (fuel : nat) : prog unit :=
  match fuel with
  | O => Spin
  | S fuel' =>
    st <- get ;;
    if proxy_running st then
      try_except
        (st1 <- get ;;
         conn <- match server_socket st1 with
                 | Some s => Call (SocketAccept s) of_sum
                 | None => Raise (Error "NoneType has no attribute accept")
                 end ;;
         match on_connection_callback with
         | Some callback => callback (snd conn)
         | None => Ret tt
         end ;;
         Call (ThreadStart (fst conn) (snd conn)) of_opt)
        (fun e =>
           if is_socket_timeout e then Ret tt
           else st2 <- get ;; if proxy_running st2 then Ret tt else Ret tt) ;;
      accept_loop on_connection_callback fuel'
    else Ret tt
  end.

Definition _listen (on_connection_callback : option (address -> prog unit))
  (fuel : nat) : prog unit :=
  try_finally
    (try_except
       (s <- Call SocketNew of_sum ;;
        set (SetServerSocket (Some s)) ;;
        Call (SocketBind s) of_opt ;;
        accept_loop on_connection_callback fuel)
       (fun _ => Ret tt))
    (st <- get ;;
     match server_socket st with
     | Some s => Call (SocketClose s) of_opt
     | None => Ret tt
     end).

End TCPProxy.

(** ** main.py *)

(** The outcome of one [check_inactivity] tick.  The Python method returns
    [None] on every path; the value names the branch that was taken. *)
Inductive Action : Type :=
| NoAction
| StartIdleTimer
| StillIdle (remaining : Z)
| TimeoutExceeded.

(** Durations are [timedelta] values, counted here in microseconds.  A
    [timedelta] holds the durations from -999999999 days up to, and not
    including, 1000000000 days; building one outside of that range raises
    [OverflowError].  The text of that exception depends on the interpreter
    and is left out. *)
Definition minutes (m : Z) : Z := m * 60000000.

Definition days (d : Z) : Z := d * 86400000000.

Definition in_timedelta (us : Z) : bool :=
  (days (-999999999) <=? us) && (us <? days 1000000000).

Definition OverflowError : exn := Error "OverflowError".

(** [timedelta(microseconds=us)], and every operation whose result is the
    [timedelta] of [us] microseconds. *)
Definition timedelta (us : Z) : prog Z :=
  if in_timedelta us then Ret us else Raise OverflowError.

Module MCServerManager.

Definition start_server (fuel : nat) : prog unit :=
  s <- get ;;
  if startup_in_progress s then Ret tt
  else
    set (SetStartup true) ;;
    set (SetReady false) ;;
    try_finally
      (success <- DigitalOceanManager.start_droplet fuel ;;
       if success : bool then Ret tt else Ret tt)
      (set (SetStartup false)).

Definition on_connection_attempt (fuel : nat) (a : address) : prog unit :=
  t <- now ;;
  set (SetLastActivity (Some t)) ;;
  running <- DigitalOceanManager.is_running ;;
  if negb running then
    set (SetReady false) ;;
    start_server fuel
  else
    s <- get ;;
    if negb (server_ready s) then Ret tt else Ret tt.

(** The first loop of [ensure_server_ready], [max_wait = 300]. *)
Fixpoint wait_for_droplet (fuel : nat) (start_time : Z) : prog unit :=
  match fuel with
  | O => Spin
  | S fuel' =>
    t <- time ;;
    if t - start_time <? 300 then
      running <- DigitalOceanManager.is_running ;;
      if running then Ret tt
      else sleep 5 ;; wait_for_droplet fuel' start_time
    else Ret tt
  end.

Definition ensure_server_ready (fuel : nat) : prog bool :=
  s <- get ;;
  if server_ready s then Ret true
  else
    start_time <- time ;;
    wait_for_droplet fuel start_time ;;
    running <- DigitalOceanManager.is_running ;;
    if negb running then Ret false
    else
      ok <- MinecraftMonitor.wait_for_server_ready fuel 180 ;;
      if ok then
        set (SetReady true) ;;
        t <- now ;;
        set (SetLastActivity (Some t)) ;;
        Ret true
      else Ret false.

Definition check_inactivity : prog Action :=
  running <- DigitalOceanManager.is_running ;;
  if negb running then
    set (SetReady false) ;; Ret NoAction
  else
    active <- TCPProxy.get_active_connections ;;
    if 0 <? active then
      t <- now ;;
      set (SetLastActivity (Some t)) ;;
      Ret NoAction
    else
      online <- MinecraftMonitor.is_server_online ;;
      if negb online then Ret NoAction
      else
        player_count <- MinecraftMonitor.get_player_count ;;
        match player_count with
        | None => Ret NoAction
        | Some n =>
          if 0 <? n then
            t <- now ;;
            set (SetLastActivity (Some t)) ;;
            Ret NoAction
          else
            s <- get ;;
            match last_activity_time s with
            | None =>
              t <- now ;;
              set (SetLastActivity (Some t)) ;;
              Ret StartIdleTimer
            | Some _ =>
              t <- now ;;
              s1 <- get ;;
              match last_activity_time s1 with
              | None => Raise (Error "unsupported operand type(s) for -")
              | Some last =>
                let inactive_duration := t - last in
                s2 <- get ;;
                timeout_duration <-
                  timedelta (minutes (inactivity_timeout s2)) ;;
                if timeout_duration <=? inactive_duration then
                  _ <- DigitalOceanManager.stop_droplet ;;
                  set (SetLastActivity None) ;;
                  set (SetReady false) ;;
                  Ret TimeoutExceeded
                else
                  remaining <-
                    timedelta (timeout_duration - inactive_duration) ;;
                  Ret (StillIdle remaining)
              end
            end
        end.

End MCServerManager.

(** ** web_server.py *)

Module WebServer.

(** [jsonify({success, message})] and the HTTP status. *)
Record Response : Type := mkResponse {
  success : bool;
  message : string;
  code : Z
}.

(** [manager_instance] is a module global, [None] until
    [init_web_server]: the flag says whether it is set. *)
Definition start_server (manager_instance : bool) (fuel : nat)
  : prog Response :=
  try_except
    (if negb manager_instance then
       Ret (mkResponse false "Manager not initialized" 500)
     else
       running <- DigitalOceanManager.is_running ;;
       if running then
         Ret (mkResponse false "Server is already running" 200)
       else
         MCServerManager.start_server fuel ;;
         Ret (mkResponse true
                "Server start initiated. Please wait 1-2 minutes for Minecraft to boot."
                200))
    (fun e => Ret (mkResponse false ("Error: " ++ str e) 500)).

Definition stop_server (manager_instance : bool) : prog Response :=
  try_except
    (if negb manager_instance then
       Ret (mkResponse false "Manager not initialized" 500)
     else
       running <- DigitalOceanManager.is_running ;;
       if negb running then
         Ret (mkResponse false "Server is already stopped" 200)
       else
         _ <- DigitalOceanManager.stop_droplet ;;
         set (SetReady false) ;;
         set (SetLastActivity None) ;;
         Ret (mkResponse true "Server shutdown initiated." 200))
    (fun e => Ret (mkResponse false ("Error: " ++ str e) 500)).

End WebServer.

(** ** Running a program *)

Inductive outcome (R : Type) : Type :=
| Returned (r : R)
| Raised (e : exn)
| OutOfFuel.

Arguments Returned {R} r.
Arguments Raised {R} e.
Arguments OutOfFuel {R}.

(** What a thread did: a call with its answer, or an assignment. *)
Inductive event : Type :=
| ECall (c : ext) (a : Ans c)
| EWrite (u : upd).

Definition is_power_on (e : event) : bool :=
  match e with ECall DropletPowerOn _ => true | _ => false end.

Definition is_shutdown (e : event) : bool :=
  match e with ECall DropletShutdown _ => true | _ => false end.

Definition is_load (e : event) : bool :=
  match e with ECall DropletLoad _ => true | _ => false end.

(** A call to the instance controller: the status poll behind
    [is_running], [power_on] or [shutdown]. *)
Definition is_controller_call (e : event) : bool :=
  is_load e || is_power_on e || is_shutdown e.

(** A query of the Minecraft server. *)
Definition is_probe (e : event) : bool :=
  match e with
  | ECall ServerLookup _ | ECall ServerStatus _ => true
  | _ => false
  end.

Definition is_call (e : event) : bool :=
  match e with ECall _ _ => true | EWrite _ => false end.

Definition is_incr (e : event) : bool :=
  match e with EWrite IncrActive => true | _ => false end.

Definition is_decr (e : event) : bool :=
  match e with EWrite DecrActive => true | _ => false end.

Definition count (f : event -> bool) (tr : list event) : nat :=
  List.length (filter f tr).

Section Semantics.

Variable World : Type.

(** The environment: the answer to a call and the world after it. *)
Variable respond : World -> forall c : ext, Ans c * World.

Record result (R : Type) : Type := mkResult {
  outcome_of : outcome R;
  world_of : World;
  state_of : State;
  trace_of : list event
}.

Arguments mkResult {R}.
Arguments outcome_of {R}.
Arguments world_of {R}.
Arguments state_of {R}.
Arguments trace_of {R}.

Definition emit {R : Type} (e : event) (r : result R) : result R :=
  mkResult (outcome_of r) (world_of r) (state_of r) (e :: trace_of r).

(** One thread alone, to the end of the program. *)
Fixpoint run {R : Type} (p : prog R) (w : World) (s : State) : result R :=
  match p with
  | Ret r => mkResult (Returned r) w s []
  | Raise e => mkResult (Raised e) w s []
  | Spin => mkResult OutOfFuel w s []
  | Call c k =>
    let a := respond w c in
    emit (ECall c (fst a)) (run (k (fst a)) (snd a) s)
  | Read k => run (k s) w s
  | Write u k => emit (EWrite u) (run k w (apply_upd u s))
  end.

(** *** Threads

    A pool of threads over the shared fields.  [sched i] lets thread [i]
    take one step; a thread that is over, or spinning, stays as it is.
    [ThreadStart] adds the thread it starts to the pool. *)

Variable R : Type.
Variable target : sock -> address -> prog R.

Record config : Type := mkConfig {
  pool : list (prog R);
  shared : State;
  world : World;
  history : list (nat * event)
}.

Fixpoint update_nth {A : Type} (i : nat) (x : A) (l : list A) : list A :=
  match l, i with
  | [], _ => []
  | _ :: tl, O => x :: tl
  | hd :: tl, S j => hd :: update_nth j x tl
  end.

Definition started (c : ext) : Ans c -> list (prog R) :=
  match c with
  | ThreadStart client a =>
    fun ans => match ans with None => [target client a] | Some _ => [] end
  | _ => fun _ => []
  end.

Definition sched (i : nat) (c : config) : config :=
  match nth_error (pool c) i with
  | None => c
  | Some p =>
    match p with
    | Ret _ | Raise _ | Spin => c
    | Call e k =>
      let a := respond (world c) e in
      mkConfig (update_nth i (k (fst a)) (pool c) ++ started e (fst a))
               (shared c) (snd a)
               (history c ++ [(i, ECall e (fst a))])
    | Read k =>
      mkConfig (update_nth i (k (shared c)) (pool c))
               (shared c) (world c) (history c)
    | Write u k =>
      mkConfig (update_nth i k (pool c))
               (apply_upd u (shared c)) (world c)
               (history c ++ [(i, EWrite u)])
    end
  end.

Definition run_sched (schedule : list nat) (c : config) : config :=
  fold_left (fun c i => sched i c) schedule c.

End Semantics.

Arguments mkResult {World R}.
Arguments outcome_of {World R}.
Arguments world_of {World R}.
Arguments state_of {World R}.
Arguments trace_of {World R}.
Arguments emit {World R}.
Arguments run {World} respond {R}.
Arguments mkConfig {World R}.
Arguments pool {World R}.
Arguments shared {World R}.
Arguments world {World R}.
Arguments history {World R}.
Arguments sched {World} respond {R}.
Arguments run_sched {World} respond {R}.

(** ** Sequencing results, and programs confined to some calls and writes *)

Section Sequencing.

Variable World : Type.

(** The result of [p ;; f] from the result of [p]. *)
Definition and_then {A B : Type} (r : result World A)
  (f : A -> World -> State -> result World B) : result World B :=
  match outcome_of r with
  | Returned a =>
    let r' := f a (world_of r) (state_of r) in
    mkResult (outcome_of r') (world_of r') (state_of r')
             (trace_of r ++ trace_of r')
  | Raised e => mkResult (Raised e) (world_of r) (state_of r) (trace_of r)
  | OutOfFuel => mkResult OutOfFuel (world_of r) (state_of r) (trace_of r)
  end.

End Sequencing.

Arguments and_then {World A B} r f.

(** [confined okc oku p]: on every path [p] makes only calls accepted by
    [okc] and only assignments accepted by [oku]. *)
Inductive confined (okc : ext -> bool) (oku : upd -> bool) {R : Type}
  : prog R -> Prop :=
| confined_ret : forall r, confined okc oku (Ret r)
| confined_raise : forall e, confined okc oku (Raise e)
| confined_spin : confined okc oku Spin
| confined_call : forall c k,
    okc c = true -> (forall a, confined okc oku (k a)) ->
    confined okc oku (Call c k)
| confined_read : forall k,
    (forall s, confined okc oku (k s)) -> confined okc oku (Read k)
| confined_write : forall u k,
    oku u = true -> confined okc oku k -> confined okc oku (Write u k).

Definition event_ok (okc : ext -> bool) (oku : upd -> bool) (e : event)
  : bool :=
  match e with
  | ECall c _ => okc c
  | EWrite u => oku u
  end.

(** ** Classes of calls and writes *)

(** The calls and the one write of the Minecraft query. *)
Definition queries (c : ext) : bool :=
  match c with
  | ServerLookup | ServerStatus => true
  | _ => false
  end.

Definition monitor_writes (u : upd) : bool :=
  match u with
  | SetMonitorServer => true
  | _ => false
  end.

(** Calls made while waiting for the backend: the status poll, the
    Minecraft query and the clocks. *)
Definition waits (c : ext) : bool :=
  match c with
  | DropletLoad | ServerLookup | ServerStatus | Now | Time | Sleep _ => true
  | _ => false
  end.

Definition ready_writes (u : upd) : bool :=
  match u with
  | SetReady _ | SetLastActivity _ | SetMonitorServer => true
  | _ => false
  end.

(** The calls of [start_droplet]. *)
Definition starts_droplet (c : ext) : bool :=
  match c with
  | DropletLoad | DropletPowerOn | Time | Sleep _ => true
  | _ => false
  end.

(** The calls of [stop_droplet]. *)
Definition stops_droplet (c : ext) : bool :=
  match c with
  | DropletLoad | DropletShutdown => true
  | _ => false
  end.

(** The writes of [start_server]. *)
Definition guard_writes (u : upd) : bool :=
  match u with
  | SetStartup _ | SetReady _ => true
  | _ => false
  end.

(** The calls and writes of the on-connect hook. *)
Definition hook_calls (c : ext) : bool :=
  match c with
  | Now => true
  | _ => starts_droplet c
  end.

Definition hook_writes (u : upd) : bool :=
  match u with
  | SetLastActivity _ => true
  | _ => guard_writes u
  end.

(** [guarded g tr]: along [tr], starting with [startup_in_progress = g],
    every [power_on] request is issued while the flag is set. *)
Fixpoint guarded (g : bool) (tr : list event) : bool :=
  match tr with
  | [] => true
  | EWrite (SetStartup b) :: tl => guarded b tl
  | ECall DropletPowerOn _ :: tl => g && guarded g tl
  | _ :: tl => guarded g tl
  end.

(** An environment with a clock: [time.time()] reads it, no call sets it
    back and [time.sleep(d)] advances it by [d] at least. *)
Definition advancing {World : Type}
  (respond : World -> forall c : ext, Ans c * World) (clock : World -> Z)
  : Prop :=
  (forall w, fst (respond w Time) = clock w)
  /\ (forall w c, clock w <= clock (snd (respond w c)))
  /\ (forall w d, clock w + d <= clock (snd (respond w (Sleep d)))).

(** [returns P p]: whatever [p] returns satisfies [P]. *)
Inductive returns {R : Type} (P : R -> Prop) : prog R -> Prop :=
| returns_ret : forall r, P r -> returns P (Ret r)
| returns_raise : forall e, returns P (Raise e)
| returns_spin : returns P Spin
| returns_call : forall c k, (forall a, returns P (k a)) -> returns P (Call c k)
| returns_read : forall k, (forall s, returns P (k s)) -> returns P (Read k)
| returns_write : forall u k, returns P k -> returns P (Write u k).

(** [never_raises p]: no exception leaves [p]. *)
Inductive never_raises {R : Type} : prog R -> Prop :=
| nr_ret : forall r, never_raises (Ret r)
| nr_spin : never_raises Spin
| nr_call : forall c k, (forall a, never_raises (k a)) -> never_raises (Call c k)
| nr_read : forall k, (forall s, never_raises (k s)) -> never_raises (Read k)
| nr_write : forall u k, never_raises k -> never_raises (Write u k).

(** Writes other than the two updates of the connection counter. *)
Definition not_counter (u : upd) : bool :=
  match u with
  | IncrActive | DecrActive => false
  | _ => true
  end.

(** Every call but the creation of a socket. *)
Definition no_new (c : ext) : bool :=
  match c with
  | SocketNew => false
  | _ => true
  end.

(** The sockets created, and the sockets closed, along a trace. *)
Definition created (tr : list event) : list sock :=
  flat_map
    (fun e => match e with ECall SocketNew (inr x) => [x] | _ => [] end) tr.

Definition closing (tr : list event) : list sock :=
  flat_map
    (fun e => match e with ECall (SocketClose x) _ => [x] | _ => [] end) tr.

Definition is_close (e : event) : bool :=
  match e with ECall (SocketClose _) _ => true | _ => false end.

(** [quiet p]: [p] never updates the connection counter. *)
Definition quiet {R : Type} (p : prog R) : Prop :=
  confined (fun _ => true) not_counter p.

(** [counted p]: the thread has incremented the counter and [p] is what
    is left of it: on every path that ends, [p] decrements the counter
    once, never increments it, and does not end before the decrement. *)
Inductive counted {R : Type} : prog R -> Prop :=
| counted_spin : counted Spin
| counted_call : forall c k, (forall a, counted (k a)) -> counted (Call c k)
| counted_read : forall k, (forall s, counted (k s)) -> counted (Read k)
| counted_write : forall u k,
    not_counter u = true -> counted k -> counted (Write u k)
| counted_decr : forall k, quiet k -> counted (Write DecrActive k).

(** [fresh p]: a session thread that has not run yet: its first step is
    the increment. *)
Definition fresh {R : Type} (p : prog R) : Prop :=
  exists k, p = Write IncrActive k /\ counted k.

(** The increments and decrements of thread [i] in a history. *)
Definition incr_by (i : nat) (h : list (nat * event)) : nat :=
  List.length (filter (fun je => Nat.eqb (fst je) i && is_incr (snd je)) h).

Definition decr_by (i : nat) (h : list (nat * event)) : nat :=
  List.length (filter (fun je => Nat.eqb (fst je) i && is_decr (snd je)) h).

(** Thread [i] has incremented the counter and not yet decremented it. *)
Definition in_flight (h : list (nat * event)) (i : nat) : bool :=
  Nat.ltb (decr_by i h) (incr_by i h).

(** The number of threads in flight. *)
Definition sessions_in_flight {World R : Type} (c : config World R) : nat :=
  List.length (filter (in_flight (history c)) (seq 0 (List.length (pool c)))).

(** Where thread [i] stands.  Thread 0 is the listener, which never
    touches the counter.  A session thread has not run yet, or has
    incremented once and not decremented, or has done both once and will
    not touch the counter again. *)
Definition thread_phase {R : Type} (h : list (nat * event)) (i : nat)
  (t : prog R) : Prop :=
  match i with
  | O => incr_by i h = 0%nat /\ decr_by i h = 0%nat /\ quiet t
  | S _ =>
    (incr_by i h = 0%nat /\ decr_by i h = 0%nat /\ fresh t)
    \/ (incr_by i h = 1%nat /\ decr_by i h = 0%nat /\ counted t)
    \/ (incr_by i h = 1%nat /\ decr_by i h = 1%nat /\ quiet t)
  end.

(** The invariant of the gateway: every thread is in one of its phases,
    the history names only threads of the pool, and the counter is the
    number of threads in flight. *)
Definition counter_inv {World R : Type} (c : config World R) : Prop :=
  (0 < List.length (pool c))%nat
  /\ (forall i t, nth_error (pool c) i = Some t ->
                 thread_phase (history c) i t)
  /\ (forall je, In je (history c) -> (fst je < List.length (pool c))%nat)
  /\ active_connections (shared c) = Z.of_nat (sessions_in_flight c).

(** The sockets that [accept] has returned and that nobody has closed
    yet. *)
Definition accepted (h : list (nat * event)) : list sock :=
  flat_map
    (fun je =>
       match snd je with
       | ECall (SocketAccept _) (inr (client, _)) => [client]
       | _ => []
       end) h.

Definition closed (h : list (nat * event)) (s : sock) : bool :=
  existsb
    (fun je =>
       match snd je with
       | ECall (SocketClose s') _ => Nat.eqb s' s
       | _ => false
       end) h.

Definition accepted_open (h : list (nat * event)) : list sock :=
  filter (fun s => negb (closed h s)) (accepted h).

(** The gateway as [MCServerManager.__init__] wires it: the listener
    thread with [on_connection_attempt] as its hook, and
    [ensure_server_ready] as the readiness wait of every session. *)
Definition listener (fuel : nat) : prog unit :=
  TCPProxy._listen (Some (MCServerManager.on_connection_attempt fuel)) fuel.

Definition session (fuel : nat) (client : sock) (a : address) : prog unit :=
  TCPProxy._handle_connection
    (Some (MCServerManager.ensure_server_ready fuel)) fuel client a.

Definition gateway {World : Type} (fuel : nat) (w : World) (s : State)
  : config World unit :=
  mkConfig [listener fuel] s w [].

(** [justified p]: [p] returns [True] only after it has read
    [server_ready] set or has set it itself. *)
Inductive justified : prog bool -> Prop :=
| justified_false : justified (Ret false)
| justified_raise : forall e, justified (Raise e)
| justified_spin : justified Spin
| justified_call : forall c k,
    (forall a, justified (k a)) -> justified (Call c k)
| justified_read : forall k,
    (forall s, server_ready s = false -> justified (k s)) ->
    justified (Read k)
| justified_set : forall k, justified (Write (SetReady true) k)
| justified_write : forall u k, justified k -> justified (Write u k).

(** The flag was set in [s], where the threads started, or a thread has
    set it since. *)
Definition ever_ready {World R : Type} (s : State) (c : config World R)
  : Prop :=
  server_ready s = true
  \/ exists j, In (j, EWrite (SetReady true)) (history c).

(** The events of a history, without the thread that made them. *)
Definition events (h : list (nat * event)) : list event := map snd h.

(** The events of thread [i] in a history, in the order it made them. *)
Definition events_by (i : nat) (h : list (nat * event)) : list event :=
  map snd (filter (fun je => Nat.eqb (fst je) i) h).

(** Where a program stands: returned, raised, or not over. *)
Definition status_of {R : Type} (p : prog R) : outcome R :=
  match p with
  | Ret r => Returned r
  | Raise e => Raised e
  | _ => OutOfFuel
  end.

(** [paths p P]: [P] holds all along every path of [p]: of the events
    made from the root of [p] to a node and of where the program stands
    at that node, [OutOfFuel] as long as it is not over. *)
Fixpoint paths {A : Type} (p : prog A)
  (P : list event -> outcome A -> Prop) {struct p} : Prop :=
  match p with
  | Ret r => P [] (Returned r)
  | Raise e => P [] (Raised e)
  | Spin => P [] OutOfFuel
  | Call c k =>
    P [] OutOfFuel
    /\ forall a, paths (k a) (fun evs o => P (ECall c a :: evs) o)
  | Read k => P [] OutOfFuel /\ forall s, paths (k s) P
  | Write u k =>
    P [] OutOfFuel /\ paths k (fun evs o => P (EWrite u :: evs) o)
  end.

(** [reached p0 evs q]: a thread that started as [p0] and has made the
    events [evs] stands at [q]: what holds along the paths of [p0] holds,
    after [evs], along the paths of [q]. *)
Definition reached {A : Type} (p0 : prog A) (evs : list event) (q : prog A)
  : Prop :=
  forall P, paths p0 P -> paths q (fun e o => P (evs ++ e) o).

(** *** What a caller of [ensure_server_ready] has done

    [polling evs]: clock reads, status polls, Minecraft queries and the
    assignment of the monitor's server, nothing else. *)
Definition polling (evs : list event) : Prop :=
  forallb (event_ok waits monitor_writes) evs = true.

(** The caller has read the clock, has polled, and its last poll found
    the droplet active: it is past the first loop and past the test that
    follows it. *)
Definition past_droplet (evs : list event) : Prop :=
  exists t0 mid,
    evs = ECall Time t0 :: mid ++ [ECall DropletLoad (inr "active"%string)]
    /\ polling mid.

(** Past the droplet, the caller has read its second start time [t1],
    has polled the Minecraft server, and its last query was answered. *)
Definition past_query (evs : list event) : Prop :=
  exists head t1 mid n,
    evs = head ++ ECall Time t1 :: mid ++ [ECall ServerStatus (inr n)]
    /\ past_droplet head /\ polling mid.

Definition answered_true (evs : list event) : Prop :=
  evs = []
  \/ exists pre t,
      evs = pre ++ [EWrite (SetReady true); ECall Now t;
                    EWrite (SetLastActivity (Some t))]
      /\ past_query pre.

Definition answered_false (evs : list event) : Prop :=
  (exists t0 mid status,
      evs = ECall Time t0 :: mid ++ [ECall DropletLoad (inr status)]
      /\ (status =? "active")%string = false /\ polling mid)
  \/ (exists head t1 mid t,
         evs = head ++ ECall Time t1 :: mid ++ [ECall Time t]
         /\ past_droplet head /\ polling mid /\ 180 <= t - t1).

Definition is_ready_set (e : event) : bool :=
  match e with EWrite (SetReady true) => true | _ => false end.

(** No assignment [server_ready = True] among [evs]. *)
Definition calm (evs : list event) : Prop :=
  forallb (fun e => negb (is_ready_set e)) evs = true.

(** Every assignment [server_ready = True] among [evs] comes right after
    an answered query of the Minecraft server, past the droplet. *)
Definition sets_after_query (evs : list event) : Prop :=
  forall pre post,
    evs = pre ++ EWrite (SetReady true) :: post -> past_query pre.

Definition caller_trace (evs : list event) (o : outcome bool) : Prop :=
  sets_after_query evs
  /\ match o with
     | Returned true => answered_true evs
     | Returned false => answered_false evs
     | Raised e => exists pre, evs = pre ++ [ECall DropletLoad (inl e)]
     | OutOfFuel => True
     end.

(** ** A simulated environment for the closed examples

    A droplet that answers its status, a clock that [Sleep] advances, a
    Minecraft server that answers when [sim_reachable], sockets numbered as
    they are created. *)

Record Sim : Type := mkSim {
  sim_clock : Z;
  sim_status : string;
  sim_power_fails : bool;
  sim_boots : bool;
  sim_reachable : bool;
  sim_players : Z;
  sim_fresh : nat
}.

Definition sim_respond (w : Sim) (c : ext) : Ans c * Sim :=
  match w with
  | mkSim clock status fails boots reach players fresh =>
    match c return Ans c * Sim with
    | DropletLoad => (inr status, w)
    | DropletPowerOn =>
      if fails then (Some (Error "power_on failed"), w)
      else (None, mkSim clock (if boots then "active" else status)%string
                        fails boots reach players fresh)
    | DropletShutdown =>
      (None, mkSim clock "off"%string fails boots reach players fresh)
    | ServerLookup => (None, w)
    | ServerStatus =>
      (if reach then inr players else inl (Error "timed out"), w)
    | Now => (clock * 1000000, w)
    | Time => (clock, w)
    | Sleep secs =>
      (tt, mkSim (clock + Z.max 0 secs) status fails boots reach players fresh)
    | SocketNew =>
      (inr fresh, mkSim clock status fails boots reach players (S fresh))
    | SocketAccept _ =>
      (inr (fresh, ("203.0.113.7"%string, 50000)),
       mkSim clock status fails boots reach players (S fresh))
    | Select client _ => (inr ([client], []), w)
    | Recv _ => (inr [], w)
    | SocketBind _ | SocketSetTimeout _ | SocketConnect _
    | SocketSetBlocking _ | SocketClose _ | SendAll _ _
    | ThreadStart _ _ => (None, w)
    end
  end.

(** The droplet is off and a power-on boots it; nobody is playing. *)
Definition sim_off : Sim :=
  mkSim 1000 "off" false true true 0 10.

(** The droplet is off and its [power_on] raises. *)
Definition sim_broken : Sim :=
  mkSim 1000 "off" true true true 0 10.

(** The droplet is up and the Minecraft server answers. *)
Definition sim_up : Sim :=
  mkSim 1000 "active" false true true 0 10.

(** A droplet on its way up: the simulated world and the time from which
    the droplet reports [active]. *)
Definition booting_respond (w : Sim * Z) (c : ext) : Ans c * (Sim * Z) :=
  let r := sim_respond (fst w) c in
  (match c return Ans c -> Ans c with
   | DropletLoad =>
     fun a => if snd w <=? sim_clock (fst w) then inr "active"%string else a
   | _ => fun a => a
   end (fst r),
   (snd r, snd w)).

(** A DigitalOcean API that goes down: it answers the next [snd w] status
    polls and raises on every poll after them. *)
Definition flaky_respond (w : Sim * nat) (c : ext) : Ans c * (Sim * nat) :=
  let r := sim_respond (fst w) c in
  (match c return Ans c -> Ans c with
   | DropletLoad =>
     fun a => match snd w with O => inl (Error "API error") | S _ => a end
   | _ => fun a => a
   end (fst r),
   (snd r,
    match c with
    | DropletLoad => Nat.pred (snd w)
    | _ => snd w
    end)).

(** A droplet that goes off: it answers the next [snd w] status polls as
    the simulated droplet does, and [off] to every poll after them. *)
Definition fading_respond (w : Sim * nat) (c : ext) : Ans c * (Sim * nat) :=
  let r := sim_respond (fst w) c in
  (match c return Ans c -> Ans c with
   | DropletLoad =>
     fun a => match snd w with O => inr "off"%string | S _ => a end
   | _ => fun a => a
   end (fst r),
   (snd r,
    match c with
    | DropletLoad => Nat.pred (snd w)
    | _ => snd w
    end)).

(** One tick of the monitoring loop as a thread beside the readiness
    waits of the sessions; the action it returns is dropped. *)
Definition tick_thread : prog bool :=
  _ <- MCServerManager.check_inactivity ;; Ret false.

(** The fields right after [MCServerManager.__init__] and
    [TCPProxy.start], with the default timeout of 15 minutes. *)
Definition initial_state : State :=
  mkState None false false 15 true None 0 false.


(** ** web_server.py, the dashboard *)

Module LogHandler.

Definition MAX_LOGS : nat := 100.

(** What [emit] reads of a [logging.LogRecord]: the logger name, the level
    name, the creation time already put as [%H:%M:%S] in local time, and
    what [record.getMessage()] gives: the message merged with its
    arguments, or the exception of the merge. *)
Record LogRecord : Type := mkLogRecord {
  name : string;
  levelname : string;
  getMessage : exn + string;
  created_hms : string
}.

Record LogEntry : Type := mkLogEntry {
  timestamp : string;
  message : string;
  type : string
}.

(** [mapping.get(levelname, 'info')] *)
Definition get_log_type (levelname : string) : string :=
  if (levelname =? "DEBUG")%string then "info"
  else if (levelname =? "INFO")%string then "info"
  else if (levelname =? "WARNING")%string then "warning"
  else if (levelname =? "ERROR")%string then "error"
  else if (levelname =? "CRITICAL")%string then "error"
  else "info".

(** [self.format(record)] with the formatter of [init_web_server],
    ['%(name)s - %(levelname)s - %(message)s'], on a record without
    exception information. *)
Definition format (r : LogRecord) : exn + string :=
  match getMessage r with
  | inl e => inl e
  | inr m => inr (name r ++ " - " ++ levelname r ++ " - " ++ m)%string
  end.

(** [emit] on the module list [log_buffer]: append, then drop the oldest
    entry when the list has grown past [MAX_LOGS].  An exception of the
    [try] suite is passed over: nothing is appended. *)
Definition emit (log_buffer : list LogEntry) (record : LogRecord)
  : list LogEntry :=
  match format record with
  | inl _ => log_buffer
  | inr text =>
    let log_entry :=
      mkLogEntry (created_hms record) text
                 (get_log_type (levelname record)) in
    let log_buffer := log_buffer ++ [log_entry] in
    if Nat.ltb MAX_LOGS (List.length log_buffer) then tl log_buffer
    else log_buffer
  end.

(** The entry that [emit] builds for a record, if it builds one. *)
Definition entry_of (record : LogRecord) : list LogEntry :=
  match format record with
  | inl _ => []
  | inr text =>
    [mkLogEntry (created_hms record) text (get_log_type (levelname record))]
  end.

End LogHandler.

(** The last [n] elements of a list. *)
Definition lastn {A : Type} (n : nat) (l : list A) : list A :=
  skipn (List.length l - n) l.

Module Dashboard.

(** The values of the JSON bodies of the status page. *)
Inductive json : Type :=
| JNull
| JStr (s : string)
| JNum (z : Z).

Record StatusResponse : Type := mkStatusResponse {
  body : list (string * json);
  status_code : Z
}.

Definition json_of_string (o : option string) : json :=
  match o with Some s => JStr s | None => JNull end.

Definition json_of_int (o : option Z) : json :=
  match o with Some z => JNum z | None => JNull end.

(** Python truth of an optional string: [None] and [''] are false. *)
Definition truthy (o : option string) : bool :=
  match o with
  | Some s => negb (s =? "")%string
  | None => false
  end.

(** [get_status].  [mc_server_ip] and [listen_port] are the two fields of
    the manager that never change after its constructor; [crafty_env] is
    [os.getenv('CRAFTY_URL')]. *)
Definition get_status (manager_instance : bool) (mc_server_ip : string)
  (listen_port : Z) (crafty_env : option string) : prog StatusResponse :=
  try_except
    (if negb manager_instance then
       Ret (mkStatusResponse
              [("status"%string, JStr "unknown");
               ("player_count"%string, JNull);
               ("server_ip"%string, JNull);
               ("crafty_url"%string, JNull)] 200)
     else
       is_running <- DigitalOceanManager.is_running ;;
       let status := if is_running : bool then "active"%string
                     else "off"%string in
       player_count <-
         (if is_running then
            s <- get ;;
            if server_ready s then MinecraftMonitor.get_player_count
            else Ret None
          else Ret None) ;;
       let crafty_url :=
         if negb (truthy crafty_env) && is_running
         then Some ("http://" ++ mc_server_ip ++ ":8443")%string
         else crafty_env in
       active <- TCPProxy.get_active_connections ;;
       Ret (mkStatusResponse
              [("status"%string, JStr status);
               ("player_count"%string, json_of_int player_count);
               ("server_ip"%string, JStr mc_server_ip);
               ("tcp_proxy_port"%string, JNum listen_port);
               ("active_connections"%string, JNum active);
               ("crafty_url"%string,
                if is_running then json_of_string crafty_url else JNull)]
              200))
    (fun _ =>
       Ret (mkStatusResponse
              [("status"%string, JStr "error");
               ("player_count"%string, JNull);
               ("server_ip"%string, JNull);
               ("crafty_url"%string, JNull)] 500)).

End Dashboard.

(** ** Reading traces of the relay *)

(** The chunks that [recv] has returned on socket [from]; an empty chunk
    is the close of the peer and carries nothing. *)
Definition received (from : sock) (tr : list event) : list bytes :=
  flat_map
    (fun e =>
       match e with
       | ECall (Recv s) (inr (b :: d)) =>
         if Nat.eqb s from then [b :: d] else []
       | _ => []
       end) tr.

(** The chunks that [recv] has returned on the sockets other than
    [client]. *)
Definition received_elsewhere (client : sock) (tr : list event)
  : list bytes :=
  flat_map
    (fun e =>
       match e with
       | ECall (Recv s) (inr (b :: d)) =>
         if Nat.eqb s client then [] else [b :: d]
       | _ => []
       end) tr.

(** The chunks handed to [sendall] on socket [to]. *)
Definition sent (to : sock) (tr : list event) : list bytes :=
  flat_map
    (fun e =>
       match e with
       | ECall (SendAll s data) _ => if Nat.eqb s to then [data] else []
       | _ => []
       end) tr.

Definition is_accept (e : event) : bool :=
  match e with ECall (SocketAccept _) _ => true | _ => false end.

Definition is_lookup (e : event) : bool :=
  match e with ECall ServerLookup _ => true | _ => false end.

(** A peer that talks: the simulated world and the number of chunks the
    next [recv] calls still return before the peer closes. *)
Definition chatty_respond (w : Sim * nat) (c : ext) : Ans c * (Sim * nat) :=
  let r := sim_respond (fst w) c in
  (match c return Ans c -> Ans c with
   | Recv _ =>
     fun a => match snd w with
              | O => a
              | S n => inr [n; 7%nat]
              end
   | _ => fun a => a
   end (fst r),
   (snd r,
    match c with
    | Recv _ => Nat.pred (snd w)
    | _ => snd w
    end)).

(** The calls of the polling loops on the droplet: the status poll and
    the clocks. *)
Definition polls_droplet (c : ext) : bool :=
  match c with
  | DropletLoad | Time | Sleep _ => true
  | _ => false
  end.

(** The calls of [wait_for_server_ready]: the Minecraft query and the
    clocks. *)
Definition polls_server (c : ext) : bool :=
  match c with
  | ServerLookup | ServerStatus | Time | Sleep _ => true
  | _ => false
  end.

(** The calls of the status page: the status poll of the droplet and the
    Minecraft query. *)
Definition status_calls (c : ext) : bool :=
  match c with
  | DropletLoad | ServerLookup | ServerStatus => true
  | _ => false
  end.

(** The value of a key of a JSON body. *)
Fixpoint field (key : string) (body : list (string * Dashboard.json))
  : option Dashboard.json :=
  match body with
  | [] => None
  | (k, v) :: rest => if (k =? key)%string then Some v else field key rest
  end.

(** [relayed client server tr]: along [tr] the chunks handed to
    [server.sendall] are the chunks received from the client, in the order
    they came, and the chunks handed to [client.sendall] are those
    received on the other side. *)
Definition relayed (client server : sock) (tr : list event) : Prop :=
  sent server tr = received client tr
  /\ sent client tr = received_elsewhere client tr.

(** The calls of [_proxy_data]. *)
Definition relay_calls (c : ext) : bool :=
  match c with
  | Select _ _ | Recv _ | SendAll _ _ => true
  | _ => false
  end.

(** A port that is taken: the simulated world, where every [bind]
    raises. *)
Definition port_taken_respond (w : Sim) (c : ext) : Ans c * Sim :=
  (match c return Ans c -> Ans c with
   | SocketBind _ => fun _ => Some (SocketError "Address already in use")
   | _ => fun a => a
   end (fst (sim_respond w c)),
   snd (sim_respond w c)).

(** [announced f P p]: a run of [p] that has made a call accepted by [f]
    returns only values that satisfy [P]. *)
Inductive announced {R : Type} (f : ext -> bool) (P : R -> Prop)
  : prog R -> Prop :=
| announced_ret : forall r, announced f P (Ret r)
| announced_raise : forall e, announced f P (Raise e)
| announced_spin : announced f P Spin
| announced_call_yes : forall c k,
    f c = true -> (forall a, returns P (k a)) -> announced f P (Call c k)
| announced_call_no : forall c k,
    f c = false -> (forall a, announced f P (k a)) -> announced f P (Call c k)
| announced_read : forall k,
    (forall s, announced f P (k s)) -> announced f P (Read k)
| announced_write : forall u k,
    announced f P k -> announced f P (Write u k).

Definition is_shutdown_call (c : ext) : bool :=
  match c with DropletShutdown => true | _ => false end.

(** The calls and the writes of one tick of [check_inactivity]. *)
Definition tick_calls (c : ext) : bool :=
  match c with
  | DropletLoad | DropletShutdown | ServerLookup | ServerStatus | Now => true
  | _ => false
  end.

Definition tick_writes (u : upd) : bool :=
  match u with
  | SetReady b => negb b
  | SetLastActivity _ | SetMonitorServer => true
  | _ => false
  end.

(** * Properties *)

(** ** Running a sequence *)

Section RunFacts.

Variable World : Type.
Variable respond : World -> forall c : ext, Ans c * World.

Lemma run_bind {A B : Type} (p : prog A) (f : A -> prog B) :
  forall w s,
    run respond (bind p f) w s
    = and_then (run respond p w s) (fun a w' s' => run respond (f a) w' s').
Proof.
  induction p as [a | e | | c k IH | k IH | u k IH]; intros w s; simpl.
  - unfold and_then; simpl. now destruct (run respond (f a) w s).
  - reflexivity.
  - reflexivity.
  - rewrite IH. unfold and_then, emit.
    destruct (run respond (k (fst (respond w c))) (snd (respond w c)) s)
      as [[a | e |] w' s' tr]; reflexivity.
  - apply IH.
  - rewrite IH. unfold and_then, emit.
    destruct (run respond k w (apply_upd u s)) as [[a | e |] w' s' tr];
      reflexivity.
Qed.

(** What [try_except] changes: only the runs that raise. *)
Lemma run_try_except {A : Type} (p : prog A) (h : exn -> prog A) :
  forall w s,
    run respond (try_except p h) w s
    = let r := run respond p w s in
      match outcome_of r with
      | Raised e =>
        let r' := run respond (h e) (world_of r) (state_of r) in
        mkResult (outcome_of r') (world_of r') (state_of r')
                 (trace_of r ++ trace_of r')
      | _ => r
      end.
Proof.
  induction p as [a | e | | c k IH | k IH | u k IH]; intros w s; simpl.
  - reflexivity.
  - now destruct (run respond (h e) w s).
  - reflexivity.
  - rewrite IH. unfold emit.
    destruct (run respond (k (fst (respond w c))) (snd (respond w c)) s)
      as [[a | e |] w' s' tr]; reflexivity.
  - apply IH.
  - rewrite IH. unfold emit.
    destruct (run respond k w (apply_upd u s)) as [[a | e |] w' s' tr];
      reflexivity.
Qed.

Lemma run_try_finally {A : Type} (p : prog A) (q : prog unit) :
  forall w s,
    run respond (try_finally p q) w s
    = let r := run respond p w s in
      match outcome_of r with
      | OutOfFuel => r
      | o =>
        let r' := run respond q (world_of r) (state_of r) in
        mkResult (match outcome_of r' with
                  | Returned _ => o
                  | Raised e => Raised e
                  | OutOfFuel => OutOfFuel
                  end)
                 (world_of r') (state_of r') (trace_of r ++ trace_of r')
      end.
Proof.
  induction p as [a | e | | c k IH | k IH | u k IH]; intros w s; simpl.
  - rewrite run_bind. unfold and_then; simpl.
    destruct (run respond q w s) as [[a' | e' |] w' s' tr]; simpl;
      now rewrite ?app_nil_r.
  - rewrite run_bind. unfold and_then; simpl.
    destruct (run respond q w s) as [[a' | e' |] w' s' tr]; simpl;
      now rewrite ?app_nil_r.
  - reflexivity.
  - rewrite IH. unfold emit.
    destruct (run respond (k (fst (respond w c))) (snd (respond w c)) s)
      as [[a | e |] w' s' tr]; simpl; try reflexivity;
      now destruct (run respond q w' s') as [[a' | e' |] w'' s'' tr'].
  - apply IH.
  - rewrite IH. unfold emit.
    destruct (run respond k w (apply_upd u s)) as [[a | e |] w' s' tr];
      simpl; try reflexivity;
      now destruct (run respond q w' s') as [[a' | e' |] w'' s'' tr'].
Qed.

End RunFacts.

(** ** Confinement *)

Section Confinement.

Variables (okc : ext -> bool) (oku : upd -> bool).

Lemma confined_bind {A B : Type} (p : prog A) (f : A -> prog B) :
  confined okc oku p -> (forall a, confined okc oku (f a)) ->
  confined okc oku (bind p f).
Proof.
  intros Hp Hf. induction Hp; simpl; try constructor; auto.
Qed.

Lemma confined_try_except {A : Type} (p : prog A) (h : exn -> prog A) :
  confined okc oku p -> (forall e, confined okc oku (h e)) ->
  confined okc oku (try_except p h).
Proof.
  intros Hp Hh. induction Hp; simpl; try constructor; auto.
Qed.

Lemma confined_try_except_when {A : Type} (p : prog A) caught
  (h : exn -> prog A) :
  confined okc oku p -> (forall e, confined okc oku (h e)) ->
  confined okc oku (try_except_when p caught h).
Proof.
  intros Hp Hh. induction Hp; simpl; try constructor; auto.
  destruct (caught e); [apply Hh | constructor].
Qed.

Lemma confined_try_finally {A : Type} (p : prog A) (q : prog unit) :
  confined okc oku q -> confined okc oku p ->
  confined okc oku (try_finally p q).
Proof.
  intros Hq Hp. induction Hp; simpl; try constructor; auto;
    apply confined_bind; auto; intros; constructor.
Qed.

Lemma confined_of_sum {A : Type} (a : exn + A) :
  confined okc oku (of_sum a).
Proof. destruct a; constructor. Qed.

Lemma confined_of_opt (a : option exn) : confined okc oku (of_opt a).
Proof. destruct a; constructor. Qed.

Lemma confined_trace {World : Type}
  (respond : World -> forall c : ext, Ans c * World) {A : Type} (p : prog A) :
  confined okc oku p ->
  forall w s, forallb (event_ok okc oku) (trace_of (run respond p w s)) = true.
Proof.
  induction 1; intros w s; simpl; auto.
  - rewrite H. simpl. apply H1.
  - rewrite H. simpl. apply IHconfined.
Qed.

End Confinement.

Lemma confined_weaken (okc okc' : ext -> bool) (oku oku' : upd -> bool)
  {A : Type} (p : prog A) :
  (forall c, okc c = true -> okc' c = true) ->
  (forall u, oku u = true -> oku' u = true) ->
  confined okc oku p -> confined okc' oku' p.
Proof.
  intros Hc Hu. induction 1; constructor; auto.
Qed.

Create HintDb confined.

#[local] Hint Constructors confined : confined.
#[local] Hint Resolve confined_of_sum confined_of_opt : confined.

(** Walks down a loop-free program. *)
Ltac confine :=
  repeat
    match goal with
    | |- forall _, _ => intro
    | |- confined _ _ (bind _ _) => apply confined_bind
    | |- confined _ _ (try_except _ _) => apply confined_try_except
    | |- confined _ _ (try_except_when _ _ _) => apply confined_try_except_when
    | |- confined _ _ (try_finally _ _) => apply confined_try_finally
    | |- confined _ _ (Call _ _) => apply confined_call; [reflexivity |]
    | |- confined _ _ (Read _) => apply confined_read
    | |- confined _ _ (Write _ _) => apply confined_write; [reflexivity |]
    | |- confined _ _ (of_sum _) => apply confined_of_sum
    | |- confined _ _ (of_opt _) => apply confined_of_opt
    | |- confined _ _ (Ret _) => apply confined_ret
    | |- confined _ _ (Raise _) => apply confined_raise
    | |- confined _ _ Spin => apply confined_spin
    | |- confined _ _ (if ?b then _ else _) => destruct b
    | |- confined _ _ (match ?x with _ => _ end) => destruct x
    end.

(** ** The manager's methods: which calls and writes they make *)

Lemma is_running_confined okc oku :
  okc DropletLoad = true ->
  confined okc oku DigitalOceanManager.is_running.
Proof.
  intros H. unfold DigitalOceanManager.is_running, DigitalOceanManager.load.
  apply confined_bind; [apply confined_call; auto with confined | confine].
Qed.

Lemma is_server_online_queries :
  confined queries monitor_writes MinecraftMonitor.is_server_online.
Proof.
  unfold MinecraftMonitor.is_server_online, MinecraftMonitor._get_server,
    MinecraftMonitor.status, get, set.
  confine.
Qed.

Lemma get_player_count_queries :
  confined queries monitor_writes MinecraftMonitor.get_player_count.
Proof.
  unfold MinecraftMonitor.get_player_count, MinecraftMonitor._get_server,
    MinecraftMonitor.status, get, set.
  confine.
Qed.

Lemma is_server_online_confined :
  confined waits ready_writes MinecraftMonitor.is_server_online.
Proof.
  eapply confined_weaken; [| | apply is_server_online_queries];
    now intros [].
Qed.

Lemma wait_for_server_ready_confined fuel timeout :
  confined waits ready_writes (MinecraftMonitor.wait_for_server_ready fuel timeout).
Proof.
  unfold MinecraftMonitor.wait_for_server_ready, time.
  apply confined_call; [reflexivity |]. intros start.
  cbn [bind].
  induction fuel as [| fuel IH];
    cbn [MinecraftMonitor.wait_for_server_ready_loop]; [constructor |].
  unfold time, sleep. confine; try apply is_server_online_confined.
  exact IH.
Qed.

Lemma wait_for_droplet_confined fuel start :
  confined waits ready_writes (MCServerManager.wait_for_droplet fuel start).
Proof.
  induction fuel as [| fuel IH];
    cbn [MCServerManager.wait_for_droplet]; [constructor |].
  unfold time, sleep. confine; try (apply is_running_confined; reflexivity).
  exact IH.
Qed.

Lemma ensure_server_ready_confined fuel :
  confined waits ready_writes (MCServerManager.ensure_server_ready fuel).
Proof.
  unfold MCServerManager.ensure_server_ready, get, set, now, time.
  confine;
    first [ apply wait_for_droplet_confined
          | apply wait_for_server_ready_confined
          | apply is_running_confined; reflexivity ].
Qed.

Lemma confined_preserves {World : Type}
  (respond : World -> forall c : ext, Ans c * World)
  {A B : Type} (proj : State -> B) okc oku (p : prog A) :
  (forall u s, oku u = true -> proj (apply_upd u s) = proj s) ->
  confined okc oku p ->
  forall w s, proj (state_of (run respond p w s)) = proj s.
Proof.
  intros Hproj. induction 1; intros w s; simpl; auto.
  rewrite IHconfined. now apply Hproj.
Qed.

Lemma start_droplet_wait_confined fuel start :
  confined starts_droplet (fun _ => false)
    (DigitalOceanManager.start_droplet_wait fuel start).
Proof.
  induction fuel as [| fuel IH];
    cbn [DigitalOceanManager.start_droplet_wait]; [constructor |].
  unfold time, sleep, DigitalOceanManager.load. confine. exact IH.
Qed.

Lemma start_droplet_confined fuel :
  confined starts_droplet (fun _ => false)
    (DigitalOceanManager.start_droplet fuel).
Proof.
  unfold DigitalOceanManager.start_droplet, DigitalOceanManager.load, time.
  confine. apply start_droplet_wait_confined.
Qed.

Lemma start_server_confined fuel :
  confined starts_droplet guard_writes (MCServerManager.start_server fuel).
Proof.
  unfold MCServerManager.start_server, get, set.
  confine.
  eapply confined_weaken; [| | apply start_droplet_confined]; auto;
    discriminate.
Qed.

Lemma on_connection_attempt_confined fuel a :
  confined hook_calls hook_writes (MCServerManager.on_connection_attempt fuel a).
Proof.
  unfold MCServerManager.on_connection_attempt, get, set, now.
  confine.
  - apply is_running_confined; reflexivity.
  - eapply confined_weaken; [| | apply start_server_confined].
    + now intros [].
    + now intros [].
Qed.

(** ** [ensure_server_ready] and the on-connect hook *)

Section ReadyAndHook.

Variable World : Type.
Variable respond : World -> forall c : ext, Ans c * World.

(** C7.  A call to [ensure_server_ready] made while [server_ready] is set
    returns [True] at once: it calls neither the instance controller nor
    the Minecraft query, consumes nothing of the environment and leaves
    every field as it was. *)
Theorem ensure_server_ready_when_ready :
  forall (fuel : nat) (w : World) (s : State),
    server_ready s = true ->
    run respond (MCServerManager.ensure_server_ready fuel) w s
    = mkResult (Returned true) w s [].
Proof.
  intros fuel w s H.
  unfold MCServerManager.ensure_server_ready, get. simpl.
  now rewrite H.
Qed.

(** C10.  The on-connect hook first stores the current time in
    [last_activity_time], before it asks whether the droplet runs, and
    nothing it does afterwards touches the field: whatever the outcome of
    the hook (a return, an exception of the status poll, a start that never
    ends), the field holds the time of the connection.  The accept loop
    calls the hook on every accepted connection, before it starts the
    thread of the session. *)
Theorem on_connection_attempt_records_activity :
  forall (fuel : nat) (a : address) (w : World) (s : State),
    let t := fst (respond w Now) in
    let r := run respond (MCServerManager.on_connection_attempt fuel a) w s in
    (exists rest,
        trace_of r = ECall Now t :: EWrite (SetLastActivity (Some t)) :: rest)
    /\ last_activity_time (state_of r) = Some t
    /\ forall (fuel' : nat) (ls client : sock),
        proxy_running s = true ->
        server_socket s = Some ls ->
        fst (respond w (SocketAccept ls)) = inr (client, a) ->
        let w1 := snd (respond w (SocketAccept ls)) in
        let t1 := fst (respond w1 Now) in
        exists rest,
          trace_of
            (run respond
               (TCPProxy.accept_loop
                  (Some (MCServerManager.on_connection_attempt fuel))
                  (S fuel')) w s)
          = ECall (SocketAccept ls) (inr (client, a))
            :: ECall Now t1 :: EWrite (SetLastActivity (Some t1)) :: rest.
Proof.
  intros fuel a w s t r.
  assert (Hshape : forall w0 s0,
    let t0 := fst (respond w0 Now) in
    let r0 := run respond (MCServerManager.on_connection_attempt fuel a) w0 s0 in
    (exists rest,
        trace_of r0 = ECall Now t0 :: EWrite (SetLastActivity (Some t0)) :: rest)
    /\ last_activity_time (state_of r0) = Some t0).
  { intros w0 s0 t0 r0. subst r0.
    unfold MCServerManager.on_connection_attempt, now, set.
    cbn [bind run emit trace_of state_of]. split.
    - eexists. reflexivity.
    - erewrite (confined_preserves respond last_activity_time
                  hook_calls guard_writes).
      + now destruct s0.
      + intros [] []; simpl; intros; try discriminate; reflexivity.
      + unfold get, set. confine.
        * apply is_running_confined; reflexivity.
        * eapply confined_weaken; [| | apply start_server_confined]; auto.
          now intros []. }
  destruct (Hshape w s) as [Htrace Hlast].
  split; [exact Htrace |]. split; [exact Hlast |].
  intros fuel' ls client Hrun Hsock Hacc w1 t1.
  cbn [TCPProxy.accept_loop].
  unfold get. cbn [bind run]. rewrite Hrun.
  rewrite run_bind, run_try_except. cbn [run]. rewrite Hsock.
  unfold of_sum. cbn [bind run]. rewrite Hacc. cbn [bind fst snd].
  rewrite run_bind.
  destruct (Hshape w1 s) as [[rest Hrest] _]. fold w1.
  unfold and_then; cbn [emit trace_of outcome_of world_of state_of].
  rewrite Hrest.
  destruct (outcome_of (run respond (MCServerManager.on_connection_attempt fuel a) w1 s));
    cbn [emit trace_of outcome_of world_of state_of app];
    repeat match goal with
    | |- context [match ?x with _ => _ end] => destruct x
    end; cbn [emit trace_of outcome_of world_of state_of app];
    eexists; reflexivity.
Qed.

End ReadyAndHook.

(** ** The tick: [check_inactivity] *)

Section StaleReady.

Variable World : Type.
Variable respond : World -> forall c : ext, Ans c * World.

Lemma run_is_running (w : World) (s : State) :
  run respond DigitalOceanManager.is_running w s
  = let a := respond w DropletLoad in
    mkResult (match fst a with
              | inl e => Raised e
              | inr status => Returned (status =? "active")%string
              end)
             (snd a) s [ECall DropletLoad (fst a)].
Proof.
  unfold DigitalOceanManager.is_running, DigitalOceanManager.load.
  cbn [bind run]. destruct (fst (respond w DropletLoad)); reflexivity.
Qed.

(** Without the flag, [ensure_server_ready] answers [True] only after a
    status poll that found the droplet active. *)
Lemma ensure_server_ready_true_polled (fuel : nat) (w : World) (s : State) :
  server_ready s = false ->
  outcome_of (run respond (MCServerManager.ensure_server_ready fuel) w s)
  = Returned true ->
  In (ECall DropletLoad (inr "active"%string))
     (trace_of (run respond (MCServerManager.ensure_server_ready fuel) w s)).
Proof.
  intros Hready.
  unfold MCServerManager.ensure_server_ready, get, time.
  cbn [bind run]. rewrite Hready. cbn [bind run emit outcome_of trace_of].
  rewrite run_bind. unfold and_then.
  destruct (run respond (MCServerManager.wait_for_droplet fuel _) _ s)
    as [[[] | e |] w2 s2 tr2];
    cbn [outcome_of trace_of world_of state_of]; try discriminate.
  rewrite run_bind, run_is_running. unfold and_then.
  cbn [outcome_of trace_of world_of state_of].
  destruct (fst (respond w2 DropletLoad)) as [e | status] eqn:Hload;
    try discriminate.
  destruct (status =? "active")%string eqn:Hst; cbn [negb].
  - apply String.eqb_eq in Hst. subst status. intros _.
    right. apply in_or_app. right. apply in_or_app. left. now left.
  - cbn [run outcome_of]. discriminate.
Qed.

End StaleReady.

Arguments DigitalOceanManager.is_running : simpl never.
Arguments DigitalOceanManager.start_droplet : simpl never.
Arguments DigitalOceanManager.stop_droplet : simpl never.
Arguments MinecraftMonitor.is_server_online : simpl never.
Arguments MinecraftMonitor.get_player_count : simpl never.
Arguments MinecraftMonitor.wait_for_server_ready : simpl never.
Arguments MCServerManager.wait_for_droplet : simpl never.
Arguments MCServerManager.start_server : simpl never.
Arguments MCServerManager.ensure_server_ready : simpl never.
Arguments minutes : simpl never.

Lemma stop_droplet_confined :
  confined stops_droplet (fun _ => false) DigitalOceanManager.stop_droplet.
Proof.
  unfold DigitalOceanManager.stop_droplet, DigitalOceanManager.load.
  confine.
Qed.

Section Tick.

Variable World : Type.
Variable respond : World -> forall c : ext, Ans c * World.

Lemma query_keeps_activity {A : Type} (p : prog A) (w : World) (s : State) :
  confined queries monitor_writes p ->
  last_activity_time (state_of (run respond p w s)) = last_activity_time s
  /\ inactivity_timeout (state_of (run respond p w s)) = inactivity_timeout s
  /\ active_connections (state_of (run respond p w s)) = active_connections s.
Proof.
  intros H. repeat split;
    apply (confined_preserves respond _ queries monitor_writes); auto;
    intros [] []; simpl; intros; try discriminate; reflexivity.
Qed.

Ltac seq :=
  rewrite run_bind; unfold and_then;
  cbn [outcome_of trace_of world_of state_of].

(** C3 (as amended).  The priority order of one tick.  (1) When the status
    poll of the instance controller reports the droplet not running the
    tick clears [server_ready] and returns [NoAction]; [server_ready]
    itself is never consulted, so every later rule also applies while the
    flag is unset.  (2) Otherwise, with [active_connections > 0], it stores
    the current time in [last_activity_time] and returns [NoAction].
    (3) Otherwise, when the Minecraft server does not answer, [NoAction].
    (4) Otherwise, with an unknown player count, [NoAction] with nothing
    recorded; with a positive count, the current time is recorded.
    (5) Otherwise (no player), with [last_activity_time] unset, the timer
    starts: [StartIdleTimer].  (6) Otherwise the threshold is built from
    [inactivity_timeout]: when that many minutes are more than a
    [timedelta] holds, the tick raises [OverflowError] and changes
    nothing.  With a threshold that a [timedelta] holds: when the time
    since [last_activity_time] has reached it and [stop_droplet] returns,
    the stop sequence has been issued, [last_activity_time] and
    [server_ready] are cleared and the tick is [TimeoutExceeded]; below the
    threshold it is [StillIdle] with the remaining time, or
    [OverflowError] when the remaining time is more than a [timedelta]
    holds. *)
Theorem check_inactivity_rules :
  forall (w : World) (s : State),
    let r := run respond MCServerManager.check_inactivity w s in
    let p0 := run respond DigitalOceanManager.is_running w s in
    let w1 := world_of p0 in
    let p1 := run respond MinecraftMonitor.is_server_online w1 s in
    let p2 := run respond MinecraftMonitor.get_player_count
                (world_of p1) (state_of p1) in
    let s3 := state_of p2 in
    let t1 := fst (respond w1 Now) in
    let t3 := fst (respond (world_of p2) Now) in
    let p4 := run respond DigitalOceanManager.stop_droplet
                (snd (respond (world_of p2) Now)) s3 in
    let threshold := minutes (inactivity_timeout s) in
    (outcome_of p0 = Returned false ->
       outcome_of r = Returned NoAction
       /\ state_of r = apply_upd (SetReady false) s)
    /\ (outcome_of p0 = Returned true ->
        (0 < active_connections s ->
           outcome_of r = Returned NoAction
           /\ state_of r = apply_upd (SetLastActivity (Some t1)) s)
        /\ (active_connections s <= 0 ->
            (outcome_of p1 = Returned false ->
               outcome_of r = Returned NoAction /\ state_of r = state_of p1)
            /\ (outcome_of p1 = Returned true ->
                (outcome_of p2 = Returned None ->
                   outcome_of r = Returned NoAction /\ state_of r = s3)
                /\ forall n : Z,
                    outcome_of p2 = Returned (Some n) ->
                    (0 < n ->
                       outcome_of r = Returned NoAction
                       /\ state_of r = apply_upd (SetLastActivity (Some t3)) s3)
                    /\ (n <= 0 ->
                        (last_activity_time s = None ->
                           outcome_of r = Returned StartIdleTimer
                           /\ state_of r
                              = apply_upd (SetLastActivity (Some t3)) s3)
                        /\ forall last : Z,
                            last_activity_time s = Some last ->
                            let remaining := threshold - (t3 - last) in
                            (in_timedelta threshold = false ->
                               outcome_of r = Raised OverflowError
                               /\ state_of r = s3)
                            /\ (in_timedelta threshold = true ->
                                (threshold <= t3 - last ->
                                 forall stopped : bool,
                                   outcome_of p4 = Returned stopped ->
                                   outcome_of r = Returned TimeoutExceeded
                                   /\ state_of r
                                      = apply_upd (SetReady false)
                                          (apply_upd (SetLastActivity None) s3)
                                   /\ exists before,
                                       trace_of r
                                       = before
                                         ++ trace_of p4
                                         ++ [EWrite (SetLastActivity None);
                                             EWrite (SetReady false)])
                                /\ (t3 - last < threshold ->
                                    (in_timedelta remaining = true ->
                                       outcome_of r
                                       = Returned (StillIdle remaining)
                                       /\ state_of r = s3)
                                    /\ (in_timedelta remaining = false ->
                                        outcome_of r = Raised OverflowError
                                        /\ state_of r = s3))))))).
Proof.
  intros w s r p0 w1 p1 p2 s3 t1 t3 p4 threshold.
  destruct (query_keeps_activity _ w1 s is_server_online_queries)
    as (Hl1 & Ht1 & _).
  destruct (query_keeps_activity _ (world_of p1) (state_of p1)
              get_player_count_queries) as (Hl2 & Ht2 & _).
  fold p1 in Hl1, Ht1. fold p1 p2 s3 in Hl2, Ht2.
  assert (Hs0 : state_of p0 = s)
    by (subst p0; now rewrite run_is_running).
  subst r. unfold MCServerManager.check_inactivity.
  seq. fold p0. rewrite Hs0.
  split; intros H0; rewrite H0; cbn.
  - now split.
  - fold w1.
    split; intros Hact.
    + apply Z.ltb_lt in Hact. rewrite Hact. now split.
    + apply Z.ltb_ge in Hact. rewrite Hact.
      seq. fold p1.
      split; intros H1; rewrite H1; cbn.
      * now split.
      * seq. fold p2.
        split; [intros H2 | intros n H2]; rewrite H2; cbn.
        { now split. }
        split; intros Hn.
        { apply Z.ltb_lt in Hn. rewrite Hn. now split. }
        apply Z.ltb_ge in Hn. rewrite Hn. cbn.
        fold s3. rewrite Hl2, Hl1.
        split; [intros Hnone | intros last Hsome].
        { rewrite Hnone. now split. }
        rewrite Hsome. cbn. rewrite Hl2, Hl1, Hsome. cbn.
        rewrite Ht2, Ht1. fold threshold.
        repeat match goal with
        | |- context [fst (respond ?x Now)] =>
          change (fst (respond x Now)) with t3
        end.
        unfold timedelta.
        split; intros Hin; rewrite Hin; cbn; [now split |].
        split; intros Hcmp.
        { intros stopped H4.
          apply Z.leb_le in Hcmp. rewrite Hcmp.
          seq.
          repeat match goal with
          | |- context [run respond DigitalOceanManager.stop_droplet ?a ?b] =>
            change (run respond DigitalOceanManager.stop_droplet a b) with p4
          end.
          rewrite H4. cbn.
          assert (Hs4 : state_of p4 = s3)
            by (apply (confined_preserves respond (fun x => x)
                         stops_droplet (fun _ => false));
                [intros; discriminate | apply stop_droplet_confined]).
          rewrite Hs4. repeat split.
          exists (trace_of p0 ++ trace_of p1 ++ trace_of p2 ++ [ECall Now t3]).
          rewrite <- !app_assoc. reflexivity. }
        apply Z.leb_gt in Hcmp. rewrite Hcmp.
        split; intros Hrem; rewrite Hrem; cbn; now split.
Qed.

End Tick.

Section TickWithConnections.

Variable World : Type.
Variable respond : World -> forall c : ext, Ans c * World.

(** C4 (as amended).  A tick that finds [active_connections > 0] never
    ends in [TimeoutExceeded] and never calls [shutdown].  When the status
    poll reports the droplet running it stores the current time in
    [last_activity_time] and returns; when the poll reports it not running
    the tick returns before it looks at the counter and leaves
    [last_activity_time] as it was. *)
Theorem check_inactivity_with_connections :
  forall (w : World) (s : State),
    0 < active_connections s ->
    let r := run respond MCServerManager.check_inactivity w s in
    let p0 := run respond DigitalOceanManager.is_running w s in
    outcome_of r <> Returned TimeoutExceeded
    /\ count is_shutdown (trace_of r) = 0%nat
    /\ (outcome_of p0 = Returned true ->
        outcome_of r = Returned NoAction
        /\ state_of r
           = apply_upd
               (SetLastActivity (Some (fst (respond (world_of p0) Now)))) s)
    /\ (outcome_of p0 = Returned false ->
        outcome_of r = Returned NoAction
        /\ last_activity_time (state_of r) = last_activity_time s).
Proof.
  intros w s Hact r p0. subst r p0.
  apply Z.ltb_lt in Hact.
  unfold MCServerManager.check_inactivity.
  rewrite run_bind, run_is_running. unfold and_then.
  cbn [outcome_of trace_of world_of state_of].
  destruct (fst (respond w DropletLoad)) as [e | status].
  - cbn. repeat split; discriminate.
  - destruct (status =? "active")%string; cbn; rewrite ?Hact; cbn.
    + repeat split; discriminate.
    + repeat split; try discriminate. now destruct s.
Qed.

End TickWithConnections.

(** The tick does not consult [server_ready]: with the flag unset and the
    droplet running, the tick does not return [NoAction]: it starts the
    idle timer, and once the threshold has gone by it shuts the droplet
    down.  When the status poll inside [stop_droplet] raises, the tick
    raises too, with no shutdown issued and the timer left as it was.  And
    with a timeout of 1440000000000 minutes, which is 1000000000 days, the
    tick that comes to the threshold raises [OverflowError]. *)
Lemma check_inactivity_ignores_server_ready :
  server_ready initial_state = false
  /\ outcome_of (run sim_respond MCServerManager.check_inactivity
                   sim_up initial_state)
     = Returned StartIdleTimer
  /\ let idle := apply_upd (SetLastActivity (Some 0)) initial_state in
     let r := run sim_respond MCServerManager.check_inactivity sim_up idle in
     let r' := run flaky_respond MCServerManager.check_inactivity
                 (sim_up, 1%nat) idle in
     let huge := mkState (Some 0) false true 1440000000000 true None 0 false in
     let r'' := run sim_respond MCServerManager.check_inactivity sim_up huge in
     server_ready idle = false
     /\ outcome_of r = Returned TimeoutExceeded
     /\ count is_shutdown (trace_of r) = 1%nat
     /\ outcome_of r' = Raised (Error "API error")
     /\ count is_shutdown (trace_of r') = 0%nat
     /\ last_activity_time (state_of r') = Some 0
     /\ outcome_of r'' = Raised OverflowError
     /\ count is_shutdown (trace_of r'') = 0%nat.
Proof. vm_compute. repeat split. Qed.

(** Connections without recorded activity: two sessions are waiting for a droplet that is
    still off; the tick returns without recording any activity. *)
Lemma check_inactivity_skips_activity_when_off :
  let s := mkState None false false 15 true None 2 false in
  let r := run sim_respond MCServerManager.check_inactivity sim_off s in
  0 < active_connections s
  /\ outcome_of r = Returned NoAction
  /\ last_activity_time (state_of r) = None
  /\ fst (sim_respond sim_off Now) = 1000000000.
Proof. vm_compute. repeat split. Qed.

(** The tick rules at work on the simulated droplet: twenty minutes after
    the last activity, the default threshold of fifteen is exceeded. *)
Lemma check_inactivity_rules_witness :
  let s := mkState (Some 0) false true 15 true None 0 false in
  let w := mkSim 1200 "active" false true true 0 10 in
  outcome_of (run sim_respond MCServerManager.check_inactivity w s)
  = Returned TimeoutExceeded.
Proof.
  intros s w.
  destruct (check_inactivity_rules Sim sim_respond w s) as [_ H].
  destruct (H eq_refl) as [_ H1].
  destruct (H1 ltac:(vm_compute; discriminate)) as [_ H2].
  destruct (H2 eq_refl) as [_ H3].
  destruct (H3 0 eq_refl) as [_ H4].
  destruct (H4 ltac:(lia)) as [_ H5].
  destruct (H5 0 eq_refl) as [_ H6].
  destruct (H6 eq_refl) as [H7 _].
  destruct (H7 ltac:(vm_compute; discriminate) true eq_refl) as [H8 _].
  exact H8.
Defined.

Lemma check_inactivity_with_connections_witness :
  let s := mkState None false true 15 true None 2 false in
  outcome_of (run sim_respond MCServerManager.check_inactivity sim_up s)
  <> Returned TimeoutExceeded.
Proof.
  intros s.
  exact (proj1 (check_inactivity_with_connections Sim sim_respond sim_up s
                  ltac:(vm_compute; reflexivity))).
Defined.

Lemma ensure_server_ready_when_ready_witness :
  let s := mkState (Some 5) false true 15 true None 0 false in
  run sim_respond (MCServerManager.ensure_server_ready 60) sim_up s
  = mkResult (Returned true) sim_up s [].
Proof.
  intros s.
  exact (ensure_server_ready_when_ready Sim sim_respond 60 sim_up s eq_refl).
Defined.

Lemma on_connection_attempt_records_activity_witness :
  let s := mkState None false false 15 true (Some 3%nat) 0 false in
  exists rest,
    trace_of
      (run sim_respond
         (TCPProxy.accept_loop (Some (MCServerManager.on_connection_attempt 70))
            1) sim_off s)
    = ECall (SocketAccept 3%nat) (inr (10%nat, ("203.0.113.7"%string, 50000)))
      :: ECall Now 1000000000
      :: EWrite (SetLastActivity (Some 1000000000)) :: rest.
Proof.
  intros s.
  exact (proj2 (proj2
    (on_connection_attempt_records_activity Sim sim_respond 70
       ("203.0.113.7"%string, 50000) sim_off s)) 0%nat 3%nat 10%nat
       eq_refl eq_refl eq_refl).
Defined.

(** ** The manual start and stop *)

Arguments WebServer.start_server : simpl never.
Arguments WebServer.stop_server : simpl never.

Section Manual.

Variable World : Type.
Variable respond : World -> forall c : ext, Ans c * World.

(** C8 (as amended).  [stop_server] on a droplet that the status poll
    reports not running answers "Server is already stopped", and
    [start_server] on a droplet reported running answers "Server is
    already running".  In both cases the status poll is the only call to
    the instance controller (no [power_on], no [shutdown]) and every
    field is left as it was. *)
Theorem manual_start_stop_in_state :
  forall (fuel : nat) (w : World) (s : State) (status : string),
    fst (respond w DropletLoad) = inr status ->
    ((status =? "active")%string = false ->
       run respond (WebServer.stop_server true) w s
       = mkResult
           (Returned (WebServer.mkResponse false "Server is already stopped" 200))
           (snd (respond w DropletLoad)) s [ECall DropletLoad (inr status)])
    /\ ((status =? "active")%string = true ->
        run respond (WebServer.start_server true fuel) w s
        = mkResult
            (Returned
               (WebServer.mkResponse false "Server is already running" 200))
            (snd (respond w DropletLoad)) s [ECall DropletLoad (inr status)]).
Proof.
  intros fuel w s status Hload.
  split; intros Hst.
  - unfold WebServer.stop_server. cbn [negb].
    rewrite run_try_except, run_bind, run_is_running. unfold and_then.
    cbn [outcome_of trace_of world_of state_of].
    rewrite Hload, Hst. reflexivity.
  - unfold WebServer.start_server. cbn [negb].
    rewrite run_try_except, run_bind, run_is_running. unfold and_then.
    cbn [outcome_of trace_of world_of state_of].
    rewrite Hload, Hst. reflexivity.
Qed.

End Manual.

(** An idle stop still asks the instance controller for the status. *)
Lemma manual_stop_polls_controller :
  let r := run sim_respond (WebServer.stop_server true) sim_off initial_state in
  outcome_of r
  = Returned (WebServer.mkResponse false "Server is already stopped" 200)
  /\ count is_controller_call (trace_of r) = 1%nat
  /\ let r' := run sim_respond (WebServer.start_server true 70)
                 sim_up initial_state in
     outcome_of r'
     = Returned (WebServer.mkResponse false "Server is already running" 200)
     /\ count is_controller_call (trace_of r') = 1%nat.
Proof. vm_compute. repeat split. Qed.

Lemma manual_start_stop_in_state_witness :
  run sim_respond (WebServer.stop_server true) sim_off initial_state
  = mkResult
      (Returned (WebServer.mkResponse false "Server is already stopped" 200))
      sim_off initial_state [ECall DropletLoad (inr "off"%string)].
Proof.
  exact (proj1 (manual_start_stop_in_state Sim sim_respond 70 sim_off
                  initial_state "off" eq_refl) eq_refl).
Defined.

(** ** The hook and the start sequence *)

Lemma confined_count {World : Type}
  (respond : World -> forall c : ext, Ans c * World)
  okc oku (f : event -> bool) {A : Type} (p : prog A) :
  (forall e, f e = true -> event_ok okc oku e = false) ->
  confined okc oku p ->
  forall w s, count f (trace_of (run respond p w s)) = 0%nat.
Proof.
  intros Hf Hp w s.
  pose proof (confined_trace okc oku respond p Hp w s) as Hall.
  unfold count. induction (trace_of (run respond p w s)) as [| e tr IH];
    [reflexivity |].
  simpl in Hall. apply andb_true_iff in Hall. destruct Hall as [He Htr].
  simpl. destruct (f e) eqn:Hfe.
  - apply Hf in Hfe. congruence.
  - now apply IH.
Qed.

Section Start.

Variable World : Type.
Variable respond : World -> forall c : ext, Ans c * World.

(** [start_droplet] on a droplet that is not active: the status poll, then
    the power-on request; a request that raises ends the method with
    [False]. *)
Lemma run_start_droplet_off (fuel : nat) (w : World) (s : State)
  (status : string) :
  fst (respond w DropletLoad) = inr status ->
  (status =? "active")%string = false ->
  let w1 := snd (respond w DropletLoad) in
  let b := fst (respond w1 DropletPowerOn) in
  let r := run respond (DigitalOceanManager.start_droplet fuel) w s in
  (exists rest,
      trace_of r
      = ECall DropletLoad (inr status) :: ECall DropletPowerOn b :: rest)
  /\ (forall e, b = Some e ->
       r = mkResult (Returned false) (snd (respond w1 DropletPowerOn)) s
             [ECall DropletLoad (inr status); ECall DropletPowerOn (Some e)]).
Proof.
  intros Hload Hst w1 b r. subst r.
  unfold DigitalOceanManager.start_droplet, DigitalOceanManager.load.
  cbn [bind run]. rewrite Hload. cbn [of_sum bind]. rewrite Hst.
  rewrite run_try_except.
  cbn [bind run]. fold w1. fold b.
  destruct b as [e |]; cbn.
  - split; [eexists; reflexivity |]. now intros e' [= <-].
  - split; [| discriminate].
    destruct (run respond (DigitalOceanManager.start_droplet_wait fuel _) _ s)
      as [[ok | e |] w' s' tr]; cbn; eexists; reflexivity.
Qed.

(** [start_server] past its guard, in terms of the run of
    [start_droplet] it wraps. *)
Lemma run_start_server (fuel : nat) (w : World) (s : State) :
  startup_in_progress s = false ->
  let s1 := apply_upd (SetReady false) (apply_upd (SetStartup true) s) in
  let d := run respond (DigitalOceanManager.start_droplet fuel) w s1 in
  run respond (MCServerManager.start_server fuel) w s
  = emit (EWrite (SetStartup true))
      (emit (EWrite (SetReady false))
         match outcome_of d with
         | Returned _ =>
           mkResult (Returned tt) (world_of d)
             (apply_upd (SetStartup false) (state_of d))
             (trace_of d ++ [EWrite (SetStartup false)])
         | Raised e =>
           mkResult (Raised e) (world_of d)
             (apply_upd (SetStartup false) (state_of d))
             (trace_of d ++ [EWrite (SetStartup false)])
         | OutOfFuel => mkResult OutOfFuel (world_of d) (state_of d) (trace_of d)
         end).
Proof.
  intros Hguard s1 d.
  unfold MCServerManager.start_server, get. cbn. rewrite Hguard. cbn.
  rewrite run_try_finally, run_bind. unfold and_then. cbn zeta.
  fold s1. fold d.
  destruct d as [[ok | e |] w' s' tr]; cbn; try reflexivity.
  destruct ok; cbn; now rewrite app_nil_r.
Qed.

End Start.

Section Listener.

Variable World : Type.
Variable respond : World -> forall c : ext, Ans c * World.


End Listener.

Section Hook.

Variable World : Type.
Variable respond : World -> forall c : ext, Ans c * World.


End Hook.



(** ** The startup guard *)

Lemma guarded_calls (tr tl : list event) :
  forallb is_call tr = true ->
  guarded true (tr ++ tl) = guarded true tl.
Proof.
  induction tr as [| e tr IH]; [reflexivity |].
  simpl. intros H. apply andb_true_iff in H. destruct H as [He Htr].
  destruct e as [c a | u]; [| discriminate].
  destruct c; simpl; auto.
Qed.

Lemma forallb_impl {A : Type} (f g : A -> bool) (l : list A) :
  (forall x, f x = true -> g x = true) ->
  forallb f l = true -> forallb g l = true.
Proof.
  intros Hfg. induction l as [| x l IH]; [reflexivity |].
  simpl. intros H. apply andb_true_iff in H. destruct H as [Hx Hl].
  now rewrite (Hfg _ Hx), IH.
Qed.

Section Completion.

Variable World : Type.
Variable respond : World -> forall c : ext, Ans c * World.
Variable clock : World -> Z.
Hypothesis Hclock : advancing respond clock.

Lemma start_droplet_wait_completes (n : nat) (start : Z) :
  forall (w : World) (s : State),
    300 - (clock w - start) <= 5 * Z.of_nat n ->
    outcome_of (run respond (DigitalOceanManager.start_droplet_wait (S n) start) w s)
    <> OutOfFuel.
Proof.
  destruct Hclock as (Htime & Hmono & Hsleep).
  induction n as [| n IH]; intros w s Hbound.
  - cbn. rewrite Htime.
    replace (clock w - start <? 300) with false
      by (symmetry; apply Z.ltb_ge; lia).
    cbn. discriminate.
  - cbn [DigitalOceanManager.start_droplet_wait].
    unfold time, sleep, DigitalOceanManager.load.
    cbn [bind run emit outcome_of]. rewrite Htime.
    destruct (clock w - start <? 300); [| cbn; discriminate].
    cbn [bind run emit outcome_of].
    destruct (fst (respond (snd (respond w Time)) DropletLoad)) as [e | st];
      [cbn; discriminate |].
    cbn [of_sum bind].
    destruct (st =? "active")%string; [cbn; discriminate |].
    cbn [bind run emit outcome_of].
    apply IH.
    pose proof (Hmono w Time).
    pose proof (Hmono (snd (respond w Time)) DropletLoad).
    pose proof (Hsleep (snd (respond (snd (respond w Time)) DropletLoad)) 5).
    lia.
Qed.

Lemma start_droplet_completes (fuel : nat) (w : World) (s : State) :
  (61 <= fuel)%nat ->
  outcome_of (run respond (DigitalOceanManager.start_droplet fuel) w s)
  <> OutOfFuel.
Proof.
  destruct Hclock as (Htime & Hmono & Hsleep).
  intros Hfuel. destruct fuel as [| n]; [lia |].
  unfold DigitalOceanManager.start_droplet, DigitalOceanManager.load, time.
  cbn [bind run emit outcome_of].
  destruct (fst (respond w DropletLoad)) as [e | st]; [cbn; discriminate |].
  cbn [of_sum bind].
  destruct (st =? "active")%string; [cbn; discriminate |].
  rewrite run_try_except. cbn [bind run emit outcome_of].
  destruct (fst (respond (snd (respond w DropletLoad)) DropletPowerOn))
    as [e |]; [cbn; discriminate |].
  cbn [of_opt bind run emit outcome_of world_of state_of].
  match goal with
  | |- context [run respond (DigitalOceanManager.start_droplet_wait (S n) ?st) ?w' s] =>
    pose proof (start_droplet_wait_completes n st w' s) as Hw;
    destruct (run respond (DigitalOceanManager.start_droplet_wait (S n) st) w' s)
      as [[ok | e |] w'' s'' tr]
  end; cbn; try discriminate.
  exfalso. apply Hw; [| reflexivity].
  rewrite Htime.
  pose proof (Hmono (snd (respond w DropletLoad)) DropletPowerOn).
  match goal with
  | |- context [clock (snd (respond ?x Time))] => pose proof (Hmono x Time)
  end.
  lia.
Qed.

End Completion.

Section Guard.

Variable World : Type.
Variable respond : World -> forall c : ext, Ans c * World.

(** [start_droplet] past a power-on request that was accepted: the status
    poll, the request, the read of the clock, then the whole of the
    polling loop. *)
Lemma run_start_droplet_on (fuel : nat) (w : World) (s : State)
  (status : string) :
  fst (respond w DropletLoad) = inr status ->
  (status =? "active")%string = false ->
  let b := respond (snd (respond w DropletLoad)) DropletPowerOn in
  fst b = None ->
  let t := respond (snd b) Time in
  let wt := run respond (DigitalOceanManager.start_droplet_wait fuel (fst t))
              (snd t) s in
  run respond (DigitalOceanManager.start_droplet fuel) w s
  = mkResult (match outcome_of wt with
              | Raised _ => Returned false
              | o => o
              end)
      (world_of wt) (state_of wt)
      (ECall DropletLoad (inr status) :: ECall DropletPowerOn None
       :: ECall Time (fst t) :: trace_of wt).
Proof.
  intros Hload Hst b Hpow t wt. subst wt t b.
  unfold DigitalOceanManager.start_droplet, DigitalOceanManager.load, time.
  cbn [bind run]. rewrite Hload. cbn [of_sum bind]. rewrite Hst.
  rewrite run_try_except. cbn [bind run]. rewrite Hpow.
  cbn [of_opt bind run emit outcome_of world_of state_of trace_of].
  destruct (run respond (DigitalOceanManager.start_droplet_wait fuel _) _ s)
    as [[ok | e |] w' s' tr]; cbn; rewrite ?app_nil_r; reflexivity.
Qed.

(** C6.  A start attempt is a call of [start_server] that finds the guard
    unset.  It sets [startup_in_progress], clears [server_ready], runs the
    whole of [start_droplet], which makes calls only, and then unsets the
    guard as its last step, on a return and on an exception alike: the
    guard is set from the first step to the last, over the status poll, the
    power-on request and every round of the 300 seconds of polling, and an
    attempt that is still polling still holds it.  With a clock that
    advances the attempt is over once the fuel covers the polling.  When
    the first poll does not find the droplet active, the second call of the
    attempt is the power-on request.  When that request raises, the
    attempt has returned after it with the guard unset, and the next call
    of [start_server] is not skipped: it sets the guard, polls the droplet
    again and, if the droplet is still not active, asks for the power-on
    again. *)
Theorem start_server_guard :
  forall (fuel : nat) (w : World) (s : State),
    startup_in_progress s = false ->
    let r := run respond (MCServerManager.start_server fuel) w s in
    let s1 := apply_upd (SetReady false) (apply_upd (SetStartup true) s) in
    let d := run respond (DigitalOceanManager.start_droplet fuel) w s1 in
    forallb is_call (trace_of d) = true
    /\ (outcome_of r <> OutOfFuel ->
        trace_of r
        = EWrite (SetStartup true) :: EWrite (SetReady false)
          :: trace_of d ++ [EWrite (SetStartup false)]
        /\ state_of r = apply_upd (SetReady false) s
        /\ startup_in_progress (state_of r) = false)
    /\ (outcome_of r = OutOfFuel ->
        trace_of r
        = EWrite (SetStartup true) :: EWrite (SetReady false) :: trace_of d
        /\ startup_in_progress (state_of r) = true)
    /\ guarded false (trace_of r) = true
    /\ (forall clock : World -> Z,
           advancing respond clock -> (61 <= fuel)%nat ->
           outcome_of r <> OutOfFuel)
    /\ (forall e : exn,
           fst (respond w DropletLoad) = inl e ->
           r = mkResult (Raised e) (snd (respond w DropletLoad))
                 (apply_upd (SetReady false) s)
                 [EWrite (SetStartup true); EWrite (SetReady false);
                  ECall DropletLoad (inl e); EWrite (SetStartup false)])
    /\ (forall status : string,
           fst (respond w DropletLoad) = inr status ->
           (status =? "active")%string = false ->
           let b := respond (snd (respond w DropletLoad)) DropletPowerOn in
           (exists rest,
               trace_of d
               = ECall DropletLoad (inr status)
                 :: ECall DropletPowerOn (fst b) :: rest)
           /\ (fst b = None ->
               let t := respond (snd b) Time in
               trace_of d
               = ECall DropletLoad (inr status) :: ECall DropletPowerOn None
                 :: ECall Time (fst t)
                 :: trace_of
                      (run respond
                         (DigitalOceanManager.start_droplet_wait fuel (fst t))
                         (snd t) s1))
           /\ (forall e : exn,
                  fst b = Some e ->
                  r = mkResult (Returned tt) (snd b)
                        (apply_upd (SetReady false) s)
                        [EWrite (SetStartup true); EWrite (SetReady false);
                         ECall DropletLoad (inr status);
                         ECall DropletPowerOn (Some e);
                         EWrite (SetStartup false)]
                  /\ forall fuel' : nat,
                      let r2 := run respond (MCServerManager.start_server fuel')
                                  (world_of r) (state_of r) in
                      let a2 := respond (world_of r) DropletLoad in
                      (exists rest,
                          trace_of r2
                          = EWrite (SetStartup true) :: EWrite (SetReady false)
                            :: ECall DropletLoad (fst a2) :: rest)
                      /\ forall status2 : string,
                          fst a2 = inr status2 ->
                          (status2 =? "active")%string = false ->
                          exists rest,
                            trace_of r2
                            = EWrite (SetStartup true)
                              :: EWrite (SetReady false)
                              :: ECall DropletLoad (inr status2)
                              :: ECall DropletPowerOn
                                   (fst (respond (snd a2) DropletPowerOn))
                              :: rest)).
Proof.
  intros fuel w s Hguard r s1 d.
  pose proof (run_start_server _ respond fuel w s Hguard) as Hr.
  cbn zeta in Hr. fold r s1 in Hr. fold d in Hr.
  assert (Hcalls : forallb is_call (trace_of d) = true).
  { apply (forallb_impl (event_ok starts_droplet (fun _ => false))).
    - now intros [c a | u].
    - apply confined_trace, start_droplet_confined. }
  assert (Hs : state_of d = s1).
  { apply (confined_preserves respond (fun x => x) starts_droplet
             (fun _ => false)); [intros; discriminate |].
    apply start_droplet_confined. }
  assert (Hend : apply_upd (SetStartup false) s1 = apply_upd (SetReady false) s).
  { subst s1. destruct s. cbn in *. now subst. }
  assert (Hcleared : forall x, startup_in_progress (apply_upd (SetStartup false) x)
                               = false) by now intros [].
  assert (Hheld : startup_in_progress s1 = true) by (subst s1; now destruct s).
  assert (Hnext : forall (fuel' : nat) (w' : World),
    let r2 := run respond (MCServerManager.start_server fuel') w'
                (apply_upd (SetReady false) s) in
    let a2 := respond w' DropletLoad in
    (exists rest,
        trace_of r2
        = EWrite (SetStartup true) :: EWrite (SetReady false)
          :: ECall DropletLoad (fst a2) :: rest)
    /\ forall status2 : string,
        fst a2 = inr status2 ->
        (status2 =? "active")%string = false ->
        exists rest,
          trace_of r2
          = EWrite (SetStartup true) :: EWrite (SetReady false)
            :: ECall DropletLoad (inr status2)
            :: ECall DropletPowerOn (fst (respond (snd a2) DropletPowerOn))
            :: rest).
  { intros fuel' w' r2 a2. subst r2 a2.
    rewrite run_start_server by (rewrite <- Hend; apply Hcleared).
    cbn zeta. split.
    - unfold DigitalOceanManager.start_droplet, DigitalOceanManager.load.
      cbn [bind run emit trace_of].
      match goal with
      | |- context [match outcome_of ?x with _ => _ end] =>
        destruct (outcome_of x)
      end; cbn [trace_of app]; eexists; reflexivity.
    - intros status2 Hl2 Hst2.
      match goal with
      | |- context [run respond (DigitalOceanManager.start_droplet fuel') w' ?st] =>
        destruct (run_start_droplet_off _ respond fuel' w' st status2 Hl2 Hst2)
          as [[rest Hrest] _];
        destruct (run respond (DigitalOceanManager.start_droplet fuel') w' st)
          as [[ok | e |] w2 s2 tr2]
      end; cbn [emit outcome_of trace_of world_of state_of] in *;
        rewrite Hrest; cbn [app]; eexists; reflexivity. }
  split; [exact Hcalls |].
  split; [| split; [| split; [| split; [| split]]]].
  - rewrite Hr. cbn [emit outcome_of trace_of state_of].
    destruct (outcome_of d); cbn [outcome_of trace_of state_of]; intros Hne;
      try (now destruct Hne);
      rewrite Hs, Hend; repeat split; now destruct s.
  - rewrite Hr. cbn [emit outcome_of trace_of state_of].
    destruct (outcome_of d); cbn [outcome_of trace_of state_of];
      try discriminate.
    intros _. now rewrite Hs.
  - rewrite Hr. cbn [emit trace_of guarded].
    destruct (outcome_of d); cbn [trace_of].
    + now rewrite guarded_calls.
    + now rewrite guarded_calls.
    + rewrite <- (app_nil_r (trace_of d)). now rewrite guarded_calls.
  - intros clock Hclock Hfuel. rewrite Hr. cbn [emit outcome_of].
    pose proof (start_droplet_completes _ respond clock Hclock fuel w s1 Hfuel)
      as Hd.
    fold d in Hd. destruct (outcome_of d); cbn [outcome_of]; congruence.
  - intros e Hload. rewrite Hr. subst d.
    unfold DigitalOceanManager.start_droplet, DigitalOceanManager.load.
    cbn [bind run emit outcome_of trace_of world_of state_of].
    rewrite Hload. cbn. now rewrite Hend.
  - intros status Hload Hst b.
    destruct (run_start_droplet_off _ respond fuel w s1 status Hload Hst)
      as [Hshape Hfail].
    cbn zeta in Hshape, Hfail. fold d in Hshape, Hfail. fold b in Hshape, Hfail.
    split; [exact Hshape | split].
    + intros Hpow t.
      pose proof (run_start_droplet_on fuel w s1 status Hload Hst Hpow) as Hon.
      cbn zeta in Hon. fold d in Hon. rewrite Hon. reflexivity.
    + intros e Hpow. specialize (Hfail e Hpow).
      rewrite Hfail in Hr. cbn in Hr. rewrite Hend in Hr.
      split; [exact Hr |].
      intros fuel'. rewrite Hr. cbn [world_of state_of]. apply Hnext.
Qed.

End Guard.

Lemma sim_advancing : advancing sim_respond sim_clock.
Proof.
  repeat split.
  - now intros [].
  - intros [clock status fails boots reach players fresh] c.
    destruct c; cbn; try lia; destruct fails; cbn; lia.
  - intros [clock status fails boots reach players fresh] d. cbn. lia.
Qed.

Lemma start_server_guard_witness :
  let r := run sim_respond (MCServerManager.start_server 61)
             sim_broken initial_state in
  r = mkResult (Returned tt) sim_broken initial_state
        [EWrite (SetStartup true); EWrite (SetReady false);
         ECall DropletLoad (inr "off"%string);
         ECall DropletPowerOn (Some (Error "power_on failed"));
         EWrite (SetStartup false)]
  /\ outcome_of r <> OutOfFuel
  /\ exists rest,
      trace_of (run sim_respond (MCServerManager.start_server 61)
                  (world_of r) (state_of r))
      = EWrite (SetStartup true) :: EWrite (SetReady false)
        :: ECall DropletLoad (inr "off"%string)
        :: ECall DropletPowerOn (Some (Error "power_on failed")) :: rest.
Proof.
  intros r.
  pose proof (start_server_guard Sim sim_respond 61 sim_broken initial_state
                eq_refl) as (_ & _ & _ & _ & Hdone & _ & Hoff).
  destruct (Hoff "off"%string eq_refl eq_refl) as (_ & _ & Hfail).
  destruct (Hfail (Error "power_on failed") eq_refl) as (Hr & Hretry).
  split; [exact Hr |].
  split; [apply (Hdone sim_clock sim_advancing); apply le_n |].
  exact (proj2 (Hretry 61%nat) "off"%string eq_refl eq_refl).
Defined.

(** ** Threads *)

Lemma length_update_nth {A : Type} (i : nat) (x : A) (l : list A) :
  List.length (update_nth i x l) = List.length l.
Proof.
  revert i. induction l as [| y l IH]; intros [| i]; simpl; auto.
Qed.

Lemma nth_error_update_nth_eq {A : Type} (i : nat) (x y : A) (l : list A) :
  nth_error l i = Some y -> nth_error (update_nth i x l) i = Some x.
Proof.
  revert i. induction l as [| z l IH]; intros [| i]; simpl; auto;
    discriminate.
Qed.

Lemma nth_error_update_nth_neq {A : Type} (i j : nat) (x : A) (l : list A) :
  i <> j -> nth_error (update_nth i x l) j = nth_error l j.
Proof.
  revert i j. induction l as [| z l IH]; intros [| i] [| j] H; simpl; auto.
  congruence.
Qed.

Lemma Forall_update_nth {A : Type} (P : A -> Prop) (i : nat) (x : A)
  (l : list A) :
  Forall P l -> P x -> Forall P (update_nth i x l).
Proof.
  intros Hl Hx. revert i.
  induction Hl as [| y l Hy Hl IH]; intros [| i]; simpl; auto.
Qed.

Lemma Forall_nth_error {A : Type} (P : A -> Prop) (l : list A) (i : nat)
  (x : A) :
  Forall P l -> nth_error l i = Some x -> P x.
Proof.
  intros Hl. revert i.
  induction Hl as [| y l Hy Hl IH]; intros [| i]; simpl; try discriminate.
  - now intros [= <-].
  - apply IH.
Qed.

(** Inversion of [confined], by cases on the program. *)
Lemma confined_inv okc oku {R : Type} (p : prog R) :
  confined okc oku p ->
  match p with
  | Call c k => okc c = true /\ forall a, confined okc oku (k a)
  | Read k => forall s, confined okc oku (k s)
  | Write u k => oku u = true /\ confined okc oku k
  | _ => True
  end.
Proof. intros H. destruct H; auto. Qed.

Lemma justified_inv (p : prog bool) :
  justified p ->
  match p with
  | Ret b => b = false
  | Call c k => forall a, justified (k a)
  | Read k => forall s, server_ready s = false -> justified (k s)
  | Write u k => u = SetReady true \/ justified k
  | _ => True
  end.
Proof. intros H. destruct H; auto. Qed.

Lemma forallb_app_one {A : Type} (f : A -> bool) (l : list A) (x : A) :
  forallb f l = true -> f x = true -> forallb f (l ++ [x]) = true.
Proof.
  intros Hl Hx. rewrite forallb_app, Hl. simpl. now rewrite Hx.
Qed.

Section Scheduling.

Variable World : Type.
Variable respond : World -> forall c : ext, Ans c * World.
Variable R : Type.
Variable target : sock -> address -> prog R.

(** A property kept by every step holds after every schedule. *)
Lemma run_sched_invariant (Inv : config World R -> Prop) :
  (forall i c, Inv c -> Inv (sched respond target i c)) ->
  forall schedule c, Inv c -> Inv (run_sched respond target schedule c).
Proof.
  intros Hstep schedule.
  induction schedule as [| i schedule IH]; intros c Hc; simpl; auto.
Qed.

(** Threads confined to some calls and writes leave a history of such
    calls and writes. *)
Lemma sched_confined okc oku (i : nat) (c : config World R) :
  (forall client a,
      okc (ThreadStart client a) = true -> confined okc oku (target client a)) ->
  Forall (confined okc oku) (pool c)
  /\ forallb (event_ok okc oku) (events (history c)) = true ->
  Forall (confined okc oku) (pool (sched respond target i c))
  /\ forallb (event_ok okc oku) (events (history (sched respond target i c)))
     = true.
Proof.
  intros Htarget [Hpool Hhist]. unfold sched.
  destruct (nth_error (pool c) i) as [p |] eqn:Hi; [| now split].
  pose proof (confined_inv _ _ _ (Forall_nth_error _ _ _ _ Hpool Hi)) as Hp.
  destruct p as [r | e | | e k | k | u k]; try now split.
  - destruct Hp as [He Hk]. cbn [pool history]. split.
    + apply Forall_app. split; [apply Forall_update_nth; auto |].
      destruct e; cbn; try (constructor; fail).
      match goal with
      | |- context [match ?x with _ => _ end] => destruct x
      end; repeat constructor; auto.
    + unfold events. rewrite map_app. now apply forallb_app_one.
  - cbn [pool history]. split; [apply Forall_update_nth |]; auto.
  - destruct Hp as [Hu Hk]. cbn [pool history]. split.
    + apply Forall_update_nth; auto.
    + unfold events. rewrite map_app. now apply forallb_app_one.
Qed.

(** Without [ThreadStart] the pool keeps its size. *)
Lemma sched_confined_length okc oku (i : nat) (c : config World R) :
  (forall client a, okc (ThreadStart client a) = false) ->
  Forall (confined okc oku) (pool c) ->
  List.length (pool (sched respond target i c)) = List.length (pool c).
Proof.
  intros Hno Hpool. unfold sched.
  destruct (nth_error (pool c) i) as [p |] eqn:Hi; [| reflexivity].
  pose proof (confined_inv _ _ _ (Forall_nth_error _ _ _ _ Hpool Hi)) as Hp.
  destruct p as [r | e | | e k | k | u k]; try reflexivity; cbn [pool].
  - destruct Hp as [He _]. rewrite length_app, length_update_nth.
    destruct e; cbn; try lia. now rewrite Hno in He.
  - now rewrite length_update_nth.
  - now rewrite length_update_nth.
Qed.

End Scheduling.

(** ** Concurrent callers of [ensure_server_ready] *)

Lemma count_excluded okc oku (f : event -> bool) (tr : list event) :
  (forall e, f e = true -> event_ok okc oku e = false) ->
  forallb (event_ok okc oku) tr = true ->
  count f tr = 0%nat.
Proof.
  intros Hf. unfold count. induction tr as [| e tr IH]; [reflexivity |].
  simpl. intros Hall. apply andb_true_iff in Hall. destruct Hall as [He Htr].
  destruct (f e) eqn:Hfe.
  - apply Hf in Hfe. congruence.
  - now apply IH.
Qed.

Lemma justified_bind {A : Type} (p : prog A) (f : A -> prog bool) :
  (forall a, justified (f a)) -> justified (bind p f).
Proof.
  intros Hf. induction p; simpl; try constructor; auto.
Qed.

Lemma ensure_server_ready_justified (fuel : nat) :
  justified (MCServerManager.ensure_server_ready fuel).
Proof.
  unfold MCServerManager.ensure_server_ready, get. cbn [bind].
  apply justified_read. intros s Hs. rewrite Hs.
  repeat (apply justified_bind; intros).
  match goal with
  | |- justified (if ?b then _ else _) => destruct b
  end; [constructor |].
  apply justified_bind. intros [|]; [| constructor].
  unfold set. cbn [bind]. apply justified_set.
Qed.

(** ** Paths *)

Lemma paths_root {A : Type} (p : prog A) P :
  paths p P -> P [] (status_of p).
Proof. destruct p; cbn; tauto. Qed.

Lemma paths_impl {A : Type} (p : prog A) :
  forall (P Q : list event -> outcome A -> Prop),
    (forall evs o, P evs o -> Q evs o) -> paths p P -> paths p Q.
Proof.
  induction p as [r | e | | c k IH | k IH | u k IH]; intros P Q HPQ;
    cbn [paths]; auto.
  - intros [H0 H]. split; [auto |]. intros a.
    apply (IH a (fun evs o => P (ECall c a :: evs) o)); auto.
  - intros [H0 H]. split; [auto |]. intros s. apply (IH s P); auto.
  - intros [H0 H]. split; [auto |].
    apply (IH (fun evs o => P (EWrite u :: evs) o)); auto.
Qed.

Lemma paths_bind {A B : Type} (p : prog A) (f : A -> prog B) :
  forall P : list event -> outcome B -> Prop,
    paths p (fun e1 o =>
               match o with
               | Returned a => paths (f a) (fun e2 o2 => P (e1 ++ e2) o2)
               | Raised e => P e1 (Raised e)
               | OutOfFuel => P e1 OutOfFuel
               end) ->
    paths (bind p f) P.
Proof.
  induction p as [r | e | | c k IH | k IH | u k IH]; intros P;
    cbn [paths bind]; auto.
  - intros [H0 H]. split; [exact H0 |]. intros a.
    apply (IH a (fun evs o => P (ECall c a :: evs) o)). exact (H a).
  - intros [H0 H]. split; [exact H0 |]. intros s. apply (IH s P), H.
  - intros [H0 H]. split; [exact H0 |].
    apply (IH (fun evs o => P (EWrite u :: evs) o)). exact H.
Qed.

Lemma paths_try_except {A : Type} (p : prog A) (h : exn -> prog A) :
  forall P : list event -> outcome A -> Prop,
    paths p (fun e1 o =>
               match o with
               | Raised e => paths (h e) (fun e2 o2 => P (e1 ++ e2) o2)
               | o => P e1 o
               end) ->
    paths (try_except p h) P.
Proof.
  induction p as [r | e | | c k IH | k IH | u k IH]; intros P;
    cbn [paths try_except]; auto.
  - intros [H0 H]. split; [exact H0 |]. intros a.
    apply (IH a (fun evs o => P (ECall c a :: evs) o)). exact (H a).
  - intros [H0 H]. split; [exact H0 |]. intros s. apply (IH s P), H.
  - intros [H0 H]. split; [exact H0 |].
    apply (IH (fun evs o => P (EWrite u :: evs) o)). exact H.
Qed.

Lemma reached_refl {A : Type} (p : prog A) : reached p [] p.
Proof. intros P H. exact H. Qed.

Lemma reached_call {A : Type} (p0 : prog A) evs c k (a : Ans c) :
  reached p0 evs (Call c k) -> reached p0 (evs ++ [ECall c a]) (k a).
Proof.
  intros H P HP. destruct (H P HP) as [_ Hk].
  eapply paths_impl; [| exact (Hk a)].
  cbn beta. intros e o Hx. now rewrite <- app_assoc.
Qed.

Lemma reached_read {A : Type} (p0 : prog A) evs k (s : State) :
  reached p0 evs (Read k) -> reached p0 evs (k s).
Proof. intros H P HP. destruct (H P HP) as [_ Hk]. apply Hk. Qed.

Lemma reached_write {A : Type} (p0 : prog A) evs u k :
  reached p0 evs (Write u k) -> reached p0 (evs ++ [EWrite u]) k.
Proof.
  intros H P HP. destruct (H P HP) as [_ Hk].
  eapply paths_impl; [| exact Hk].
  cbn beta. intros e o Hx. now rewrite <- app_assoc.
Qed.

Lemma events_by_app (i : nat) (h l : list (nat * event)) :
  events_by i (h ++ l) = events_by i h ++ events_by i l.
Proof. unfold events_by. now rewrite filter_app, map_app. Qed.

Lemma in_events_by (j : nat) (e : event) (h : list (nat * event)) :
  In (j, e) h -> In e (events_by j h).
Proof.
  intros H. unfold events_by.
  apply (in_map snd _ (j, e)). apply filter_In. split; [exact H |].
  cbn. apply Nat.eqb_refl.
Qed.

Section Threads.

Variable World : Type.
Variable respond : World -> forall c : ext, Ans c * World.
Variable R : Type.
Variable target : sock -> address -> prog R.

(** Every thread of the first pool stands where its own events lead. *)
Lemma sched_reached (threads : list (prog R)) (i : nat) (c : config World R) :
  (forall j p0, nth_error threads j = Some p0 ->
     exists q, nth_error (pool c) j = Some q
               /\ reached p0 (events_by j (history c)) q) ->
  forall j p0, nth_error threads j = Some p0 ->
    exists q, nth_error (pool (sched respond target i c)) j = Some q
              /\ reached p0 (events_by j (history (sched respond target i c)))
                   q.
Proof.
  intros Hinv j p0 Hj. destruct (Hinv j p0 Hj) as (q & Hq & Hreach).
  unfold sched.
  destruct (nth_error (pool c) i) as [p |] eqn:Hi; [| eauto].
  assert (Hlt : (j < List.length (pool c))%nat)
    by (apply nth_error_Some; congruence).
  destruct p as [r | e | | e k | k | u k]; eauto; cbn [pool history].
  - destruct (Nat.eq_dec i j) as [-> | Hne].
    + rewrite Hq in Hi. injection Hi as ->.
      exists (k (fst (respond (world c) e))). split.
      * rewrite nth_error_app1 by now rewrite length_update_nth.
        eapply nth_error_update_nth_eq; eauto.
      * rewrite events_by_app. unfold events_by at 2. cbn [filter fst].
        rewrite Nat.eqb_refl. cbn [map snd]. now apply reached_call.
    + exists q. split.
      * rewrite nth_error_app1 by now rewrite length_update_nth.
        now rewrite nth_error_update_nth_neq.
      * rewrite events_by_app. unfold events_by at 2. cbn [filter fst].
        replace (Nat.eqb i j) with false
          by (symmetry; now apply Nat.eqb_neq).
        cbn [map]. now rewrite app_nil_r.
  - destruct (Nat.eq_dec i j) as [-> | Hne].
    + rewrite Hq in Hi. injection Hi as ->.
      exists (k (shared c)). split.
      * eapply nth_error_update_nth_eq; eauto.
      * now apply reached_read.
    + exists q. split; [now rewrite nth_error_update_nth_neq | exact Hreach].
  - destruct (Nat.eq_dec i j) as [-> | Hne].
    + rewrite Hq in Hi. injection Hi as ->.
      exists k. split.
      * eapply nth_error_update_nth_eq; eauto.
      * rewrite events_by_app. unfold events_by at 2. cbn [filter fst].
        rewrite Nat.eqb_refl. cbn [map snd]. now apply reached_write.
    + exists q. split; [now rewrite nth_error_update_nth_neq |].
      rewrite events_by_app. unfold events_by at 2. cbn [filter fst].
      replace (Nat.eqb i j) with false
        by (symmetry; now apply Nat.eqb_neq).
      cbn [map]. now rewrite app_nil_r.
Qed.

(** A history names threads of the pool only. *)
Lemma sched_history_threads (i : nat) (c : config World R) :
  (forall je, In je (history c) -> (fst je < List.length (pool c))%nat) ->
  forall je, In je (history (sched respond target i c)) ->
    (fst je < List.length (pool (sched respond target i c)))%nat.
Proof.
  intros Hinv je. unfold sched.
  destruct (nth_error (pool c) i) as [p |] eqn:Hi; [| apply Hinv].
  assert (Hlt : (i < List.length (pool c))%nat)
    by (apply nth_error_Some; congruence).
  destruct p as [r | e | | e k | k | u k]; try apply Hinv;
    cbn [pool history].
  - rewrite length_app, length_update_nth. intros Hin.
    apply in_app_or in Hin. destruct Hin as [Hin | [<- | []]].
    + apply Hinv in Hin. lia.
    + cbn [fst]. lia.
  - rewrite length_update_nth. apply Hinv.
  - rewrite length_update_nth. intros Hin.
    apply in_app_or in Hin. destruct Hin as [Hin | [<- | []]].
    + now apply Hinv.
    + exact Hlt.
Qed.

End Threads.

(** ** What a caller of [ensure_server_ready] has done *)

Lemma polling_app (a b : list event) :
  polling a -> polling b -> polling (a ++ b).
Proof.
  unfold polling. intros Ha Hb. rewrite forallb_app, Ha, Hb. reflexivity.
Qed.

Lemma polling_cons (e : event) (a : list event) :
  event_ok waits monitor_writes e = true -> polling a -> polling (e :: a).
Proof. unfold polling. intros He Ha. cbn [forallb]. now rewrite He, Ha. Qed.

Lemma polling_calm (evs : list event) : polling evs -> calm evs.
Proof.
  unfold polling, calm. apply forallb_impl.
  intros [c a | [t | b | [|] | b | x | | |]]; cbn; auto.
Qed.

Lemma calm_app (a b : list event) : calm a -> calm b -> calm (a ++ b).
Proof.
  unfold calm. intros Ha Hb. rewrite forallb_app, Ha, Hb. reflexivity.
Qed.

Lemma calm_split (a b pre post : list event) :
  calm a -> calm b ->
  a ++ EWrite (SetReady true) :: b = pre ++ EWrite (SetReady true) :: post ->
  pre = a.
Proof.
  unfold calm. revert pre.
  induction a as [| y a IH]; intros [| z pre] Ha Hb Heq; cbn [app] in Heq.
  - reflexivity.
  - injection Heq as <- Heq. subst b.
    rewrite forallb_app in Hb. cbn in Hb.
    rewrite andb_false_r in Hb. discriminate.
  - injection Heq as -> Heq. cbn in Ha. discriminate.
  - injection Heq as <- Heq. cbn [forallb] in Ha.
    apply andb_true_iff in Ha. destruct Ha as [_ Ha].
    f_equal. now apply IH.
Qed.

Lemma calm_no_set (evs : list event) : calm evs -> sets_after_query evs.
Proof.
  unfold calm. intros H pre post ->.
  rewrite forallb_app in H. cbn in H. rewrite andb_false_r in H.
  discriminate.
Qed.

Lemma sets_after_query_once (a b : list event) :
  calm a -> calm b -> past_query a ->
  sets_after_query (a ++ EWrite (SetReady true) :: b).
Proof.
  intros Ha Hb Hq pre post Heq.
  now rewrite (calm_split a b pre post Ha Hb Heq).
Qed.

Lemma is_server_online_paths (P : list event -> outcome bool -> Prop) :
  (forall evs, polling evs -> P evs OutOfFuel) ->
  (forall evs, polling evs -> P evs (Returned false)) ->
  (forall pre n, polling pre ->
     P (pre ++ [ECall ServerStatus (inr n)]) (Returned true)) ->
  paths MinecraftMonitor.is_server_online P.
Proof.
  intros Hgo Hfalse Htrue.
  unfold MinecraftMonitor.is_server_online, MinecraftMonitor._get_server,
    MinecraftMonitor.status, get, set.
  cbn [bind try_except paths].
  split; [now apply Hgo |]. intros s.
  destruct (monitor_server s); cbn [bind try_except paths].
  - split; [now apply Hgo |]. intros [e | n]; cbn [of_sum bind try_except paths].
    + now apply Hfalse.
    + now apply (Htrue []).
  - split; [now apply Hgo |].
    intros [e |]; cbn [of_opt bind try_except paths].
    + now apply Hfalse.
    + split; [now apply Hgo |]. split; [now apply Hgo |].
      intros [e | n]; cbn [of_sum bind try_except paths].
      * now apply Hfalse.
      * now apply (Htrue [_; _]).
Qed.

Lemma wait_for_server_ready_loop_paths (fuel : nat) (timeout start : Z) :
  forall P : list event -> outcome bool -> Prop,
    (forall evs, polling evs -> P evs OutOfFuel) ->
    (forall mid n, polling mid ->
       P (mid ++ [ECall ServerStatus (inr n)]) (Returned true)) ->
    (forall mid t, polling mid -> timeout <= t - start ->
       P (mid ++ [ECall Time t]) (Returned false)) ->
    paths (MinecraftMonitor.wait_for_server_ready_loop fuel timeout start) P.
Proof.
  induction fuel as [| fuel IH]; intros P Hgo Htrue Hfalse;
    cbn [MinecraftMonitor.wait_for_server_ready_loop].
  - cbn. now apply Hgo.
  - unfold time, sleep. cbn [bind paths].
    split; [now apply Hgo |]. intros t.
    destruct (t - start <? timeout) eqn:Hlt.
    + apply paths_bind. apply is_server_online_paths; cbv beta iota.
      * intros evs Hevs. apply Hgo. now apply polling_cons.
      * intros evs Hevs. cbn [bind paths]. split.
        -- rewrite app_nil_r. apply Hgo. now apply polling_cons.
        -- intros a. apply IH.
           ++ intros evs' Hevs'. apply (Hgo (ECall Time t :: evs ++ _ :: evs')).
              apply polling_cons; [reflexivity |].
              apply polling_app; [assumption |].
              now apply polling_cons.
           ++ intros mid n Hmid.
              replace (ECall Time t
                       :: evs ++ ECall (Sleep 5) a
                          :: mid ++ [ECall ServerStatus (inr n)])
                with ((ECall Time t :: evs ++ ECall (Sleep 5) a :: mid)
                      ++ [ECall ServerStatus (inr n)])
                by (cbn [app]; now rewrite <- app_assoc).
              apply Htrue.
              apply polling_cons; [reflexivity |].
              apply polling_app; [assumption |].
              now apply polling_cons.
           ++ intros mid t' Hmid Ht'.
              replace (ECall Time t
                       :: evs ++ ECall (Sleep 5) a :: mid ++ [ECall Time t'])
                with ((ECall Time t :: evs ++ ECall (Sleep 5) a :: mid)
                      ++ [ECall Time t'])
                by (cbn [app]; now rewrite <- app_assoc).
              apply Hfalse; [| assumption].
              apply polling_cons; [reflexivity |].
              apply polling_app; [assumption |].
              now apply polling_cons.
      * intros pre n Hpre. cbn [paths]. rewrite app_nil_r.
        apply (Htrue (ECall Time t :: pre)). now apply polling_cons.
    + cbn [paths]. apply (Hfalse []); [reflexivity |].
      now apply Z.ltb_ge.
Qed.

Lemma wait_for_server_ready_paths (fuel : nat) (timeout : Z)
  (P : list event -> outcome bool -> Prop) :
  (forall evs, polling evs -> P evs OutOfFuel) ->
  (forall t1 mid n, polling mid ->
     P (ECall Time t1 :: mid ++ [ECall ServerStatus (inr n)]) (Returned true)) ->
  (forall t1 mid t, polling mid -> timeout <= t - t1 ->
     P (ECall Time t1 :: mid ++ [ECall Time t]) (Returned false)) ->
  paths (MinecraftMonitor.wait_for_server_ready fuel timeout) P.
Proof.
  intros Hgo Htrue Hfalse.
  unfold MinecraftMonitor.wait_for_server_ready, time. cbn [bind paths].
  split; [now apply Hgo |]. intros t1.
  apply wait_for_server_ready_loop_paths.
  - intros evs Hevs. apply Hgo. now apply polling_cons.
  - intros mid n Hmid. now apply Htrue.
  - intros mid t Hmid Ht. now apply Hfalse.
Qed.

Lemma wait_for_droplet_paths (fuel : nat) (start : Z) :
  forall P : list event -> outcome unit -> Prop,
    (forall evs, polling evs -> P evs OutOfFuel) ->
    (forall evs, polling evs -> P evs (Returned tt)) ->
    (forall evs e, polling evs ->
       P (evs ++ [ECall DropletLoad (inl e)]) (Raised e)) ->
    paths (MCServerManager.wait_for_droplet fuel start) P.
Proof.
  induction fuel as [| fuel IH]; intros P Hgo Hret Hraise;
    unfold MCServerManager.wait_for_droplet;
    fold MCServerManager.wait_for_droplet.
  - cbn. now apply Hgo.
  - unfold time, sleep, DigitalOceanManager.is_running,
      DigitalOceanManager.load.
    cbn [bind paths].
    split; [now apply Hgo |]. intros t.
    destruct (t - start <? 300); [| cbn [paths]; now apply Hret].
    cbn [bind paths]. split; [now apply Hgo |].
    intros [e | status]; cbn [of_sum bind paths].
    + now apply (Hraise [_]).
    + destruct (status =? "active")%string; cbn [bind paths].
      * now apply Hret.
      * split; [now apply Hgo |]. intros a. apply IH.
        -- intros evs Hevs. apply (Hgo (_ :: _ :: _ :: evs)).
           repeat (apply polling_cons; [reflexivity |]). assumption.
        -- intros evs Hevs. apply (Hret (_ :: _ :: _ :: evs)).
           repeat (apply polling_cons; [reflexivity |]). assumption.
        -- intros evs e Hevs. apply (Hraise (_ :: _ :: _ :: evs)).
           repeat (apply polling_cons; [reflexivity |]). assumption.
Qed.

Lemma ensure_server_ready_paths (fuel : nat) :
  paths (MCServerManager.ensure_server_ready fuel) caller_trace.
Proof.
  assert (Hgo : forall evs, polling evs -> caller_trace evs OutOfFuel).
  { intros evs Hevs. split; [| exact I].
    now apply calm_no_set, polling_calm. }
  unfold MCServerManager.ensure_server_ready, get, time.
  cbn [bind paths].
  split; [now apply Hgo |]. intros s.
  destruct (server_ready s).
  { cbn [paths]. split; [now apply calm_no_set | now left]. }
  cbn [bind paths]. split; [now apply Hgo |]. intros t0.
  apply paths_bind. apply wait_for_droplet_paths; cbv beta iota.
  - intros evs Hevs. apply Hgo. now apply polling_cons.
  - intros evs Hevs.
    unfold DigitalOceanManager.is_running, DigitalOceanManager.load.
    cbn [bind paths]. split.
    { rewrite app_nil_r. apply Hgo. now apply polling_cons. }
    intros [e | status]; cbn [of_sum bind paths].
    { split.
      - apply calm_no_set, polling_calm.
        apply polling_cons; [reflexivity |].
        apply polling_app; [assumption | reflexivity].
      - now exists (ECall Time t0 :: evs). }
    destruct (status =? "active")%string eqn:Hst; cbn [negb bind paths].
    2:{ split.
        - apply calm_no_set, polling_calm.
          apply polling_cons; [reflexivity |].
          apply polling_app; [assumption | reflexivity].
        - left. now exists t0, evs, status. }
    apply String.eqb_eq in Hst. subst status.
    assert (Hhead : past_droplet
                      (ECall Time t0
                       :: evs ++ [ECall DropletLoad (inr "active"%string)]))
      by now exists t0, evs.
    assert (Hpoll : polling
                      (ECall Time t0
                       :: evs ++ [ECall DropletLoad (inr "active"%string)])).
    { apply polling_cons; [reflexivity |].
      apply polling_app; [assumption | reflexivity]. }
    assert (Hh : forall x,
               ECall Time t0
               :: evs ++ ECall DropletLoad (inr "active"%string) :: x
               = (ECall Time t0
                  :: evs ++ [ECall DropletLoad (inr "active"%string)]) ++ x)
      by (intros x; cbn [app]; now rewrite <- app_assoc).
    set (head := ECall Time t0
                 :: evs ++ [ECall DropletLoad (inr "active"%string)]) in *.
    apply paths_bind. apply wait_for_server_ready_paths; cbv beta iota.
    + intros evs' Hevs'. rewrite Hh. apply Hgo. now apply polling_app.
    + intros t1 mid n Hmid.
      assert (Hq : past_query
                     (head ++ ECall Time t1
                           :: mid ++ [ECall ServerStatus (inr n)]))
        by now exists head, t1, mid, n.
      assert (Hc : calm (head ++ ECall Time t1
                              :: mid ++ [ECall ServerStatus (inr n)])).
      { apply polling_calm, polling_app; [assumption |].
        apply polling_cons; [reflexivity |].
        apply polling_app; [assumption | reflexivity]. }
      assert (Hpre : forall x,
                 ECall Time t0
                 :: evs ++ ECall DropletLoad (inr "active"%string)
                    :: (ECall Time t1
                        :: mid ++ [ECall ServerStatus (inr n)]) ++ x
                 = (head ++ ECall Time t1
                         :: mid ++ [ECall ServerStatus (inr n)]) ++ x)
        by (intros x; rewrite Hh; now rewrite <- app_assoc).
      set (pre := head ++ ECall Time t1
                       :: mid ++ [ECall ServerStatus (inr n)]) in *.
      unfold set, now. cbn [bind paths].
      rewrite !Hpre.
      split; [| split; [| intros t; rewrite ?Hpre; split]].
      * rewrite app_nil_r. split; [now apply calm_no_set | exact I].
      * split; [| exact I]. now apply sets_after_query_once.
      * split; [| exact I]. now apply sets_after_query_once.
      * split; [now apply sets_after_query_once |].
        right. now exists pre, t.
    + intros t1 mid t Hmid Ht. cbn [paths]. rewrite app_nil_r, Hh. split.
      * apply calm_no_set, polling_calm.
        apply polling_app; [assumption |].
        apply polling_cons; [reflexivity |].
        apply polling_app; [assumption | reflexivity].
      * right. now exists head, t1, mid, t.
  - intros evs e Hevs. split.
    + apply calm_no_set, polling_calm.
      apply polling_cons; [reflexivity |].
      apply polling_app; [assumption | reflexivity].
    + now exists (ECall Time t0 :: evs).
Qed.

Section Callers.

Variable World : Type.
Variable respond : World -> forall c : ext, Ans c * World.
Variable target : sock -> address -> prog bool.

Lemma sched_history_grows (i : nat) (c : config World bool) :
  exists l, history (sched respond target i c) = history c ++ l.
Proof.
  unfold sched.
  destruct (nth_error (pool c) i) as [[r | e | | e k | k | u k] |];
    cbn [history]; try (exists []; now rewrite app_nil_r);
    eexists; reflexivity.
Qed.

Lemma sched_justified (s : State) (i : nat) (c : config World bool) :
  Forall (confined waits ready_writes) (pool c) ->
  ever_ready s c
  \/ (server_ready (shared c) = false /\ Forall justified (pool c)) ->
  ever_ready s (sched respond target i c)
  \/ (server_ready (shared (sched respond target i c)) = false
      /\ Forall justified (pool (sched respond target i c))).
Proof.
  intros Hconf [Hever | [Hoff Hpool]]; unfold sched.
  - left. destruct Hever as [H | [j H]]; [now left |].
    right. exists j.
    destruct (sched_history_grows i c) as [l Hl]. unfold sched in Hl.
    rewrite Hl. apply in_or_app. now left.
  - destruct (nth_error (pool c) i) as [p |] eqn:Hi; [| now right].
    pose proof (justified_inv _ (Forall_nth_error _ _ _ _ Hpool Hi)) as Hp.
    pose proof (confined_inv _ _ _ (Forall_nth_error _ _ _ _ Hconf Hi)) as Hq.
    destruct p as [r | e | | e k | k | u k]; try now right.
    + right. cbn [shared pool]. split; [assumption |].
      apply Forall_app. split; [apply Forall_update_nth; auto |].
      destruct Hq as [He _]. destruct e; try discriminate; constructor.
    + right. cbn [shared pool]. split; [assumption |].
      apply Forall_update_nth; auto.
    + destruct Hp as [-> | Hk].
      * left. right. exists i. cbn [history]. apply in_or_app. right.
        now left.
      * destruct u as [t | b | [|] | b | x | | |];
          try (right; cbn [shared pool]; split;
               [now destruct (shared c) | apply Forall_update_nth; auto]).
        left. right. exists i. cbn [history]. apply in_or_app. right.
        now left.
Qed.

(** C1 (as amended).  Any number of concurrent [ensure_server_ready]
    calls, under every interleaving, issue no start sequence: no
    [power_on] (and no [shutdown]) reaches the instance controller from
    them, and they start no thread.  Each caller polls on its own.  What a
    caller has done is a path of the method: when it has answered [True]
    it has either made no call, having found [server_ready] set at its
    first step, or it has read the clock, polled the droplet until its
    last poll found it active, read the clock again, queried the Minecraft
    server until its last query was answered, and then set [server_ready]
    and recorded the time itself; when it has answered [False], its last
    poll found the droplet not active, or it was past the droplet and its
    last read of the clock was 180 seconds or more after its own second
    read; an exception that left it is that of its last status poll.
    [server_ready] is only ever set by a caller right after its own
    answered query: a caller answers [True] only if the flag was set when
    the callers started or a caller has set it so.  The start is issued by
    [start_server]: a call that finds [startup_in_progress] set returns
    without any call or write, and a call that finds it unset and the
    droplet not active asks for the power-on. *)
Theorem ensure_server_ready_callers :
  forall (fuels : list nat) (schedule : list nat) (w : World) (s : State),
    let c := run_sched respond target schedule
               (mkConfig (map MCServerManager.ensure_server_ready fuels)
                  s w []) in
    count is_power_on (events (history c)) = 0%nat
    /\ count is_shutdown (events (history c)) = 0%nat
    /\ List.length (pool c) = List.length fuels
    /\ (forall (i : nat) (q : prog bool),
           nth_error (pool c) i = Some q ->
           caller_trace (events_by i (history c)) (status_of q))
    /\ (forall i : nat,
           nth_error (pool c) i = Some (Ret true) ->
           server_ready s = true
           \/ exists j pre post,
               events_by j (history c) = pre ++ EWrite (SetReady true) :: post
               /\ past_query pre)
    /\ (forall (fuel : nat) (w' : World) (s' : State),
           startup_in_progress s' = true ->
           run respond (MCServerManager.start_server fuel) w' s'
           = mkResult (Returned tt) w' s' [])
    /\ (forall (fuel : nat) (w' : World) (s' : State) (status : string),
           startup_in_progress s' = false ->
           fst (respond w' DropletLoad) = inr status ->
           (status =? "active")%string = false ->
           exists rest,
             trace_of (run respond (MCServerManager.start_server fuel) w' s')
             = EWrite (SetStartup true) :: EWrite (SetReady false)
               :: ECall DropletLoad (inr status)
               :: ECall DropletPowerOn
                    (fst (respond (snd (respond w' DropletLoad))
                            DropletPowerOn))
               :: rest).
Proof.
  intros fuels schedule w s c.
  set (c0 := mkConfig (map MCServerManager.ensure_server_ready fuels) s w [])
    in c.
  assert (Hinit : Forall (confined waits ready_writes) (pool c0)).
  { cbn. apply Forall_forall. intros p Hp. apply in_map_iff in Hp.
    destruct Hp as (fuel & <- & _). apply ensure_server_ready_confined. }
  assert (Hinv :
    (Forall (confined waits ready_writes) (pool c)
     /\ forallb (event_ok waits ready_writes) (events (history c)) = true)
    /\ List.length (pool c) = List.length fuels
    /\ (ever_ready s c
        \/ (server_ready (shared c) = false /\ Forall justified (pool c)))).
  { subst c.
    apply (run_sched_invariant World respond bool target
             (fun c =>
                (Forall (confined waits ready_writes) (pool c)
                 /\ forallb (event_ok waits ready_writes) (events (history c))
                    = true)
                /\ List.length (pool c) = List.length fuels
                /\ (ever_ready s c
                    \/ (server_ready (shared c) = false
                        /\ Forall justified (pool c))))).
    - intros i c1 ([Hconf Hhist] & Hlen & Hjust).
      split; [| split].
      + apply sched_confined; [discriminate | now split].
      + rewrite (sched_confined_length _ respond _ target waits ready_writes);
          auto.
      + now apply sched_justified.
    - split; [now split |]. split; [cbn; apply length_map |].
      destruct (server_ready s) eqn:Hs; [left; now left |].
      right. split; [assumption |].
      cbn. apply Forall_forall. intros p Hp. apply in_map_iff in Hp.
      destruct Hp as (fuel & <- & _). apply ensure_server_ready_justified. }
  destruct Hinv as ([Hconf Hhist] & Hlen & Hjust).
  assert (Hown :
    (forall j p0, nth_error (pool c0) j = Some p0 ->
       exists q, nth_error (pool c) j = Some q
                 /\ reached p0 (events_by j (history c)) q)
    /\ (forall je, In je (history c) ->
          (fst je < List.length (pool c))%nat)).
  { subst c.
    apply (run_sched_invariant World respond bool target
             (fun c =>
                (forall j p0, nth_error (pool c0) j = Some p0 ->
                   exists q, nth_error (pool c) j = Some q
                             /\ reached p0 (events_by j (history c)) q)
                /\ (forall je, In je (history c) ->
                      (fst je < List.length (pool c))%nat))).
    - intros i c1 [H1 H2]. split.
      + now apply sched_reached.
      + now apply sched_history_threads.
    - split.
      + intros j p0 Hj. exists p0. split; [exact Hj | apply reached_refl].
      + intros je []. }
  destruct Hown as [Hreach Hthreads].
  assert (Htrace : forall (i : nat) (q : prog bool),
             nth_error (pool c) i = Some q ->
             caller_trace (events_by i (history c)) (status_of q)).
  { intros i q Hq.
    assert (Hi : (i < List.length (pool c0))%nat).
    { cbn [pool c0]. rewrite length_map, <- Hlen.
      apply nth_error_Some. congruence. }
    destruct (nth_error (pool c0) i) as [p0 |] eqn:Hp0;
      [| now apply nth_error_Some in Hi].
    destruct (Hreach i p0 Hp0) as (q' & Hq' & Hr).
    rewrite Hq in Hq'. injection Hq' as <-.
    cbn [pool c0] in Hp0.
    apply nth_error_In, in_map_iff in Hp0. destruct Hp0 as (fuel & <- & _).
    pose proof (paths_root _ _ (Hr _ (ensure_server_ready_paths fuel))) as H.
    cbv beta in H. now rewrite app_nil_r in H. }
  split; [| split; [| split; [| split; [| split; [| split]]]]].
  - apply (count_excluded waits ready_writes); auto.
    now intros [[] ? | ?].
  - apply (count_excluded waits ready_writes); auto.
    now intros [[] ? | ?].
  - exact Hlen.
  - exact Htrace.
  - intros i Hi. destruct Hjust as [[Hs | [j Hj]] | [_ Hpool]].
    + now left.
    + right.
      pose proof (Hthreads _ Hj) as Hlt. cbn [fst] in Hlt.
      destruct (nth_error (pool c) j) as [q |] eqn:Hq;
        [| now apply nth_error_Some in Hlt].
      destruct (Htrace j q Hq) as [Hsets _].
      apply in_events_by, in_split in Hj. destruct Hj as (pre & post & Heq).
      exists j, pre, post. split; [exact Heq |]. now apply (Hsets pre post).
    + pose proof (justified_inv _ (Forall_nth_error _ _ _ _ Hpool Hi)).
      discriminate.
  - intros fuel w' s' Hguard.
    unfold MCServerManager.start_server, get. cbn [bind run].
    now rewrite Hguard.
  - intros fuel w' s' status Hguard Hload Hst.
    rewrite (run_start_server World respond fuel w' s' Hguard). cbn zeta.
    match goal with
    | |- context [run respond (DigitalOceanManager.start_droplet fuel) w' ?st] =>
      destruct (run_start_droplet_off _ respond fuel w' st status Hload Hst)
        as [[rest Hrest] _];
      destruct (run respond (DigitalOceanManager.start_droplet fuel) w' st)
        as [[ok | e |] w2 s2 tr2]
    end; cbn [emit outcome_of trace_of world_of state_of] in *;
      rewrite Hrest; cbn [app]; eexists; reflexivity.
Qed.

End Callers.

(** ** A tick beside the sessions *)

Section StaleReadyThreads.

Variable World : Type.
Variable respond : World -> forall c : ext, Ans c * World.
Variable target : sock -> address -> prog bool.

(** From a point where [server_ready] is unset, thread [k] answers
    [True] only once some thread has set the flag since. *)
Lemma sched_later_call (h : list (nat * event)) (k i : nat)
  (c : config World bool) :
  (exists l,
      history c = h ++ l
      /\ ((exists j, In (j, EWrite (SetReady true)) l)
          \/ (server_ready (shared c) = false
              /\ exists q, nth_error (pool c) k = Some q /\ justified q))) ->
  exists l,
    history (sched respond target i c) = h ++ l
    /\ ((exists j, In (j, EWrite (SetReady true)) l)
        \/ (server_ready (shared (sched respond target i c)) = false
            /\ exists q,
                nth_error (pool (sched respond target i c)) k = Some q
                /\ justified q)).
Proof.
  intros (l & Hl & Hinv). unfold sched.
  destruct (nth_error (pool c) i) as [p |] eqn:Hi; [| now exists l].
  destruct p as [r | e | | e a | a | u a]; try (now exists l);
    cbn [pool shared history].
  - exists (l ++ [(i, ECall e (fst (respond (world c) e)))]).
    split; [now rewrite Hl, app_assoc |].
    destruct Hinv as [[j Hj] | (Hoff & q & Hq & Hjust)].
    + left. exists j. apply in_or_app. now left.
    + right. split; [exact Hoff |].
      assert (Hlt : (k < List.length (pool c))%nat)
        by (apply nth_error_Some; congruence).
      rewrite nth_error_app1 by now rewrite length_update_nth.
      destruct (Nat.eq_dec i k) as [-> | Hne].
      * rewrite Hq in Hi. injection Hi as ->.
        eexists. split; [eapply nth_error_update_nth_eq; eauto |].
        apply (justified_inv _ Hjust).
      * exists q. split; [now rewrite nth_error_update_nth_neq | exact Hjust].
  - exists l. split; [exact Hl |].
    destruct Hinv as [Hset | (Hoff & q & Hq & Hjust)]; [now left |].
    right. split; [exact Hoff |].
    destruct (Nat.eq_dec i k) as [-> | Hne].
    + rewrite Hq in Hi. injection Hi as ->.
      eexists. split; [eapply nth_error_update_nth_eq; eauto |].
      now apply (justified_inv _ Hjust).
    + exists q. split; [now rewrite nth_error_update_nth_neq | exact Hjust].
  - exists (l ++ [(i, EWrite u)]).
    split; [now rewrite Hl, app_assoc |].
    destruct Hinv as [[j Hj] | (Hoff & q & Hq & Hjust)].
    + left. exists j. apply in_or_app. now left.
    + assert (Hset : u = SetReady true \/ u <> SetReady true).
      { destruct u as [t | b | [|] | b | x | | |];
          (now left) || (right; discriminate). }
      destruct Hset as [-> | Hu].
      * left. exists i. apply in_or_app. right. now left.
      * right. split.
        { destruct u as [t | b | [|] | b | x | | |];
            solve [now destruct (shared c) | now destruct Hu]. }
        destruct (Nat.eq_dec i k) as [-> | Hne].
        -- rewrite Hq in Hi. injection Hi as ->.
           eexists. split; [eapply nth_error_update_nth_eq; eauto |].
           destruct (justified_inv _ Hjust) as [-> | Ha];
             [now destruct Hu | exact Ha].
        -- exists q.
           split; [now rewrite nth_error_update_nth_neq | exact Hjust].
Qed.

(** C9 (as amended).  A tick whose status poll reports the droplet not
    running clears [server_ready] and does nothing else.  From the fields
    it leaves, a later [ensure_server_ready] call that runs alone cannot
    answer [True] without a status poll that finds the droplet active; and
    beside any other threads, under every interleaving, a call that has
    not started when the tick is over answers [True] only if some thread
    sets [server_ready] after the tick.  Nothing keeps a session from
    doing so: the flag does not stay unset while the droplet is off. *)
Theorem check_inactivity_clears_ready :
  forall (w : World) (s : State) (status : string),
    fst (respond w DropletLoad) = inr status ->
    (status =? "active")%string = false ->
    let r := run respond MCServerManager.check_inactivity w s in
    r = mkResult (Returned NoAction) (snd (respond w DropletLoad))
          (apply_upd (SetReady false) s)
          [ECall DropletLoad (inr status); EWrite (SetReady false)]
    /\ server_ready (state_of r) = false
    /\ (forall (fuel : nat) (w' : World),
           let r' :=
             run respond (MCServerManager.ensure_server_ready fuel) w'
               (state_of r) in
           outcome_of r' = Returned true ->
           In (ECall DropletLoad (inr "active"%string)) (trace_of r'))
    /\ (forall (threads : list (prog bool)) (k fuel : nat)
               (schedule : list nat) (w' : World) (h : list (nat * event)),
           nth_error threads k
           = Some (MCServerManager.ensure_server_ready fuel) ->
           let c := run_sched respond target schedule
                      (mkConfig threads (state_of r) w' h) in
           nth_error (pool c) k = Some (Ret true) ->
           exists l j,
             history c = h ++ l /\ In (j, EWrite (SetReady true)) l).
Proof.
  intros w s status Hload Hst r.
  assert (Hr : r = mkResult (Returned NoAction) (snd (respond w DropletLoad))
                     (apply_upd (SetReady false) s)
                     [ECall DropletLoad (inr status); EWrite (SetReady false)]).
  { subst r. unfold MCServerManager.check_inactivity.
    rewrite run_bind, run_is_running. unfold and_then.
    cbn [outcome_of trace_of world_of state_of]. rewrite Hload, Hst.
    reflexivity. }
  assert (Hoff : server_ready (apply_upd (SetReady false) s) = false)
    by now destruct s.
  split; [exact Hr |]. rewrite Hr. cbn [state_of].
  split; [exact Hoff |]. split.
  - intros fuel w'. cbv zeta. now apply ensure_server_ready_true_polled.
  - intros threads k fuel schedule w' h Hk. cbv zeta.
    set (c := run_sched respond target schedule
                (mkConfig threads (apply_upd (SetReady false) s) w' h)).
    intros Hret.
    assert (Hinv : exists l,
               history c = h ++ l
               /\ ((exists j, In (j, EWrite (SetReady true)) l)
                   \/ (server_ready (shared c) = false
                       /\ exists q, nth_error (pool c) k = Some q
                                    /\ justified q))).
    { subst c.
      apply (run_sched_invariant World respond bool target
               (fun c =>
                  exists l,
                    history c = h ++ l
                    /\ ((exists j, In (j, EWrite (SetReady true)) l)
                        \/ (server_ready (shared c) = false
                            /\ exists q, nth_error (pool c) k = Some q
                                         /\ justified q)))).
      - intros i c1. apply sched_later_call.
      - exists []. split; [cbn; now rewrite app_nil_r |].
        right. split; [exact Hoff |].
        eexists. split; [exact Hk | apply ensure_server_ready_justified]. }
    destruct Hinv as (l & Hl & [[j Hj] | (_ & q & Hq & Hjust)]).
    + now exists l, j.
    + rewrite Hret in Hq. injection Hq as <-.
      pose proof (justified_inv _ Hjust). discriminate.
Qed.

End StaleReadyThreads.

(** ** The connection counter *)

Lemma never_raises_bind {A B : Type} (p : prog A) (f : A -> prog B) :
  never_raises p -> (forall a, never_raises (f a)) -> never_raises (bind p f).
Proof.
  intros Hp Hf. induction Hp; simpl; try constructor; auto.
Qed.

Lemma never_raises_try_except {A : Type} (p : prog A) (h : exn -> prog A) :
  (forall e, never_raises (h e)) -> never_raises (try_except p h).
Proof.
  intros Hh. induction p; simpl; try constructor; auto.
Qed.

Lemma never_raises_inv {R : Type} (p : prog R) :
  never_raises p ->
  match p with
  | Raise _ => False
  | Call c k => forall a, never_raises (k a)
  | Read k => forall s, never_raises (k s)
  | Write u k => never_raises k
  | _ => True
  end.
Proof. intros H. destruct H; auto. Qed.

Lemma counted_inv {R : Type} (p : prog R) :
  counted p ->
  match p with
  | Ret _ | Raise _ => False
  | Spin => True
  | Call c k => forall a, counted (k a)
  | Read k => forall s, counted (k s)
  | Write u k =>
    (not_counter u = true /\ counted k) \/ (u = DecrActive /\ quiet k)
  end.
Proof. intros H. destruct H; auto. Qed.

Lemma counted_bind {A B : Type} (p : prog A) (f : A -> prog B) :
  quiet p -> never_raises p -> (forall a, counted (f a)) ->
  counted (bind p f).
Proof.
  unfold quiet. intros Hq Hn Hf.
  induction p as [a | e | | c k IH | k IH | u k IH]; simpl.
  - apply Hf.
  - destruct (never_raises_inv _ Hn).
  - constructor.
  - constructor. intros a. apply IH.
    + apply (confined_inv _ _ _ Hq).
    + apply (never_raises_inv _ Hn).
  - constructor. intros s. apply IH.
    + apply (confined_inv _ _ _ Hq).
    + apply (never_raises_inv _ Hn).
  - destruct (confined_inv _ _ _ Hq) as [Hu Hk].
    apply counted_write; [exact Hu |].
    apply IH; [exact Hk | apply (never_raises_inv _ Hn)].
Qed.

Lemma close_quietly_never_raises (s : sock) : never_raises (close_quietly s).
Proof.
  unfold close_quietly. apply never_raises_try_except. constructor.
Qed.

Lemma quiet_weaken okc oku {R : Type} (p : prog R) :
  (forall u, oku u = true -> not_counter u = true) ->
  confined okc oku p -> quiet p.
Proof.
  intros Hu. apply confined_weaken; auto.
Qed.

Lemma forward_relays (client server : sock) (readable : list sock) :
  confined no_new not_counter (TCPProxy.forward client server readable).
Proof.
  induction readable as [| s rest IH]; cbn [TCPProxy.forward];
    [constructor |].
  confine. exact IH.
Qed.

Lemma proxy_data_relays (fuel : nat) (client server : sock) :
  confined no_new not_counter (TCPProxy._proxy_data fuel client server).
Proof.
  unfold TCPProxy._proxy_data.
  apply confined_try_except; [| constructor].
  induction fuel as [| fuel IH]; cbn [TCPProxy._proxy_data_loop];
    [constructor |].
  unfold get.
  apply confined_bind; [apply confined_read; constructor |].
  intros st. destruct (proxy_running st); [| constructor].
  apply confined_bind; [apply confined_call; auto with confined |].
  intros r. destruct (snd r); [| constructor].
  apply confined_bind; [apply forward_relays |].
  intros [|]; [constructor | exact IH].
Qed.

Lemma proxy_data_quiet (fuel : nat) (client server : sock) :
  quiet (TCPProxy._proxy_data fuel client server).
Proof.
  unfold quiet. eapply confined_weaken; [| | apply proxy_data_relays]; auto.
Qed.

Lemma handle_try_quiet (callback : option (prog bool)) (fuel : nat)
  (client : sock) :
  (forall p, callback = Some p -> quiet p) ->
  quiet (TCPProxy.handle_try callback fuel client).
Proof.
  intros Hcb. unfold quiet, TCPProxy.handle_try.
  apply confined_try_except; [| constructor].
  apply confined_bind.
  - destruct callback as [p |]; [now apply Hcb | constructor].
  - intros ready. destruct (negb ready); [confine |].
    apply confined_bind; [apply confined_call; auto with confined |].
    intros server. unfold TCPProxy.relay_try.
    apply confined_try_except; [| constructor].
    confine. apply proxy_data_quiet.
Qed.

Lemma session_fresh (fuel : nat) (client : sock) (a : address) :
  fresh (session fuel client a).
Proof.
  unfold fresh, session, TCPProxy._handle_connection, set. cbn [bind].
  eexists. split; [reflexivity |].
  apply counted_bind.
  - apply handle_try_quiet. intros p [= <-].
    apply (quiet_weaken waits ready_writes);
      [now intros [] | apply ensure_server_ready_confined].
  - apply never_raises_try_except. constructor.
  - intros server_socket. apply counted_bind.
    + unfold quiet, close_quietly. confine.
    + apply close_quietly_never_raises.
    + intros _. apply counted_bind.
      * destruct server_socket; unfold quiet, close_quietly; confine.
      * destruct server_socket;
          [apply close_quietly_never_raises | constructor].
      * intros _. apply counted_decr. constructor.
Qed.

Lemma accept_loop_quiet (callback : option (address -> prog unit))
  (fuel : nat) :
  (forall f a, callback = Some f -> quiet (f a)) ->
  quiet (TCPProxy.accept_loop callback fuel).
Proof.
  intros Hcb. unfold quiet.
  induction fuel as [| fuel IH]; cbn [TCPProxy.accept_loop];
    [constructor |].
  unfold get.
  apply confined_bind; [apply confined_read; constructor |].
  intros st. destruct (proxy_running st); [| constructor].
  apply confined_bind; [| intros; exact IH].
  apply confined_try_except; [| confine].
  apply confined_bind; [apply confined_read; constructor |].
  intros st1. apply confined_bind.
  { destruct (server_socket st1); confine. }
  intros conn. apply confined_bind.
  { destruct callback as [f |]; [now apply (Hcb f) | constructor]. }
  confine.
Qed.

Lemma listener_quiet (fuel : nat) : quiet (listener fuel).
Proof.
  unfold quiet, listener, TCPProxy._listen, get, set.
  apply confined_try_finally; [confine |].
  apply confined_try_except; [| constructor].
  confine. apply accept_loop_quiet. intros f addr [= <-].
  apply (quiet_weaken hook_calls hook_writes);
    [now intros [] | apply on_connection_attempt_confined].
Qed.

Lemma incr_by_app (i : nat) (h l : list (nat * event)) :
  incr_by i (h ++ l) = (incr_by i h + incr_by i l)%nat.
Proof. unfold incr_by. now rewrite filter_app, length_app. Qed.

Lemma decr_by_app (i : nat) (h l : list (nat * event)) :
  decr_by i (h ++ l) = (decr_by i h + decr_by i l)%nat.
Proof. unfold decr_by. now rewrite filter_app, length_app. Qed.

Lemma counts_absent (n i : nat) (h : list (nat * event)) :
  (forall je, In je h -> (fst je < n)%nat) -> (n <= i)%nat ->
  incr_by i h = 0%nat /\ decr_by i h = 0%nat.
Proof.
  intros Hids Hi. unfold incr_by, decr_by.
  induction h as [| je h IH]; [now split |].
  assert (Hje : Nat.eqb (fst je) i = false).
  { apply Nat.eqb_neq. specialize (Hids je (or_introl eq_refl)). lia. }
  simpl. rewrite Hje. simpl. apply IH. intros x Hx. apply Hids. now right.
Qed.

Lemma filter_length_flip (f g : nat -> bool) (l : list nat) (j : nat) :
  NoDup l -> In j l ->
  (forall i, i <> j -> g i = f i) ->
  f j = false -> g j = true ->
  List.length (filter g l) = S (List.length (filter f l)).
Proof.
  intros Hnd Hin Hagree Hf Hg.
  induction l as [| a l IH]; [destruct Hin |].
  inversion Hnd as [| a' l' Ha Hl]; subst.
  destruct (Nat.eq_dec a j) as [-> | Hne].
  - simpl. rewrite Hf, Hg. simpl. f_equal.
    f_equal. apply filter_ext_in. intros i Hi. apply Hagree.
    intros ->. contradiction.
  - destruct Hin as [-> | Hin]; [contradiction |].
    simpl. rewrite (Hagree a Hne).
    destruct (f a); simpl; now rewrite IH.
Qed.

Lemma filter_length_same (f g : nat -> bool) (l : list nat) :
  (forall i, g i = f i) ->
  List.length (filter g l) = List.length (filter f l).
Proof.
  intros H. f_equal. apply filter_ext. exact H.
Qed.

Section Counter.

Variable World : Type.
Variable respond : World -> forall c : ext, Ans c * World.
Variable fuel : nat.

Lemma in_flight_app_neutral (h evs : list (nat * event)) :
  (forall i, incr_by i evs = 0%nat /\ decr_by i evs = 0%nat) ->
  forall i, in_flight (h ++ evs) i = in_flight h i.
Proof.
  intros Hz i. unfold in_flight. rewrite incr_by_app, decr_by_app.
  destruct (Hz i) as [-> ->]. now rewrite !Nat.add_0_r.
Qed.

(** A step that is neither the increment nor the decrement. *)
Lemma counter_inv_neutral (c : config World unit) (j : nat)
  (t t' : prog unit) (evs : list (nat * event)) (new : list (prog unit))
  (sh : State) (w' : World) :
  counter_inv c ->
  nth_error (pool c) j = Some t ->
  ~ fresh t ->
  (quiet t -> quiet t') ->
  (counted t -> counted t') ->
  (forall i, incr_by i evs = 0%nat /\ decr_by i evs = 0%nat) ->
  (forall je, In je evs -> fst je = j) ->
  (new = [] \/ exists client a, new = [session fuel client a]) ->
  active_connections sh = active_connections (shared c) ->
  counter_inv (mkConfig (update_nth j t' (pool c) ++ new) sh w'
                 (history c ++ evs)).
Proof.
  intros (Hpos & Hph & Hids & Hcnt) Hj Hnf Hq Hc Hz Hby Hnew Hsh.
  assert (Hlt : (j < List.length (pool c))%nat)
    by (apply nth_error_Some; congruence).
  assert (Hphase : forall i (x : prog unit),
             thread_phase (history c) i x ->
             thread_phase (history c ++ evs) i x).
  { intros i x. unfold thread_phase.
    rewrite incr_by_app, decr_by_app. destruct (Hz i) as [-> ->].
    now rewrite !Nat.add_0_r. }
  unfold counter_inv. cbn [pool shared history].
  rewrite length_app, length_update_nth.
  split; [lia |]. split; [| split].
  - intros i x Hi.
    destruct (Nat.lt_ge_cases i (List.length (pool c))) as [Hil | Hil].
    + rewrite nth_error_app1 in Hi by now rewrite length_update_nth.
      destruct (Nat.eq_dec i j) as [-> | Hne].
      * rewrite (nth_error_update_nth_eq _ _ _ _ Hj) in Hi.
        injection Hi as <-. apply Hphase.
        specialize (Hph j t Hj). unfold thread_phase in *.
        destruct j; [tauto |].
        destruct Hph as [(_ & _ & Hf) | [(? & ? & ?) | (? & ? & ?)]];
          [contradiction | right; left; auto | right; right; auto].
      * rewrite nth_error_update_nth_neq in Hi by congruence.
        apply Hphase. now apply Hph.
    + rewrite nth_error_app2 in Hi by now rewrite length_update_nth.
      rewrite length_update_nth in Hi.
      destruct Hnew as [-> | (client & a & ->)];
        [now destruct (i - List.length (pool c))%nat |].
      destruct (i - List.length (pool c))%nat as [| n] eqn:Hd;
        [| now destruct n].
      injection Hi as <-. apply Hphase.
      destruct (counts_absent _ i _ Hids Hil) as [Hi0 Hd0].
      unfold thread_phase. destruct i; [lia |].
      left. repeat split; auto. apply session_fresh.
  - intros je Hje. apply in_app_or in Hje. destruct Hje as [Hje | Hje].
    + specialize (Hids je Hje). lia.
    + rewrite (Hby je Hje). lia.
  - rewrite Hsh, Hcnt. f_equal. unfold sessions_in_flight.
    cbn [pool history]. rewrite length_app, length_update_nth.
    rewrite (filter_length_same _ _ _ (in_flight_app_neutral (history c) evs Hz)).
    destruct Hnew as [-> | (client & a & ->)]; cbn [List.length].
    + now rewrite Nat.add_0_r.
    + rewrite Nat.add_1_r, seq_S, filter_app, length_app.
      cbn [filter Nat.add].
      destruct (counts_absent _ (List.length (pool c)) _ Hids (le_n _))
        as [Hi0 Hd0].
      destruct (in_flight (history c) (List.length (pool c))) eqn:E;
        [| cbn; lia].
      unfold in_flight in E. rewrite Hi0, Hd0 in E. discriminate.
Qed.

Lemma counts_other_thread (h : list (nat * event)) (j i : nat) (e : event) :
  i <> j ->
  incr_by i (h ++ [(j, e)]) = incr_by i h
  /\ decr_by i (h ++ [(j, e)]) = decr_by i h.
Proof.
  intros Hne. rewrite incr_by_app, decr_by_app.
  unfold incr_by at 2, decr_by at 2. cbn.
  replace (Nat.eqb j i) with false by (symmetry; apply Nat.eqb_neq; congruence).
  cbn. lia.
Qed.

Lemma counts_incr (h : list (nat * event)) (j : nat) :
  incr_by j (h ++ [(j, EWrite IncrActive)]) = S (incr_by j h)
  /\ decr_by j (h ++ [(j, EWrite IncrActive)]) = decr_by j h.
Proof.
  rewrite incr_by_app, decr_by_app.
  unfold incr_by at 2, decr_by at 2. cbn. rewrite Nat.eqb_refl. cbn. lia.
Qed.

Lemma counts_decr (h : list (nat * event)) (j : nat) :
  incr_by j (h ++ [(j, EWrite DecrActive)]) = incr_by j h
  /\ decr_by j (h ++ [(j, EWrite DecrActive)]) = S (decr_by j h).
Proof.
  rewrite incr_by_app, decr_by_app.
  unfold incr_by at 2, decr_by at 2. cbn. rewrite Nat.eqb_refl. cbn. lia.
Qed.

(** The increment: a session thread enters the count. *)
Lemma counter_inv_incr (c : config World unit) (j : nat) (k : prog unit) :
  counter_inv c ->
  nth_error (pool c) j = Some (Write IncrActive k) ->
  counter_inv (mkConfig (update_nth j k (pool c))
                 (apply_upd IncrActive (shared c)) (world c)
                 (history c ++ [(j, EWrite IncrActive)])).
Proof.
  intros (Hpos & Hph & Hids & Hcnt) Hj.
  assert (Hlt : (j < List.length (pool c))%nat)
    by (apply nth_error_Some; congruence).
  pose proof (Hph j _ Hj) as Hphj.
  assert (Hfresh : (exists n, j = S n) /\ incr_by j (history c) = 0%nat
                   /\ decr_by j (history c) = 0%nat /\ counted k).
  { unfold thread_phase in Hphj. destruct j as [| n].
    - destruct Hphj as (_ & _ & Hq).
      destruct (confined_inv _ _ _ Hq) as [Hu _]. discriminate.
    - destruct Hphj as [(Hi & Hd & k' & Hk & Hc) | [(_ & _ & Hc) | (_ & _ & Hq)]].
      + injection Hk as <-. eauto.
      + destruct (counted_inv _ Hc) as [[Hu _] | [Hu _]]; discriminate.
      + destruct (confined_inv _ _ _ Hq) as [Hu _]. discriminate. }
  destruct Hfresh as ([n ->] & Hi0 & Hd0 & Hck).
  destruct (counts_incr (history c) (S n)) as [Hi1 Hd1].
  unfold counter_inv. cbn [pool shared history].
  rewrite length_update_nth.
  split; [lia |]. split; [| split].
  - intros i x Hi.
    destruct (Nat.eq_dec i (S n)) as [-> | Hne].
    + rewrite (nth_error_update_nth_eq _ _ _ _ Hj) in Hi. injection Hi as <-.
      unfold thread_phase. right. left. rewrite Hi1, Hd1, Hi0, Hd0. auto.
    + rewrite nth_error_update_nth_neq in Hi by congruence.
      specialize (Hph i x Hi). unfold thread_phase in *.
      destruct (counts_other_thread (history c) (S n) i (EWrite IncrActive) Hne)
        as [-> ->].
      exact Hph.
  - intros je Hje. apply in_app_or in Hje. destruct Hje as [Hje | [<- | []]].
    + now apply Hids.
    + exact Hlt.
  - replace (active_connections (apply_upd IncrActive (shared c)))
      with (active_connections (shared c) + 1) by now destruct (shared c).
    rewrite Hcnt. unfold sessions_in_flight. cbn [pool history].
    rewrite length_update_nth.
    rewrite (filter_length_flip (in_flight (history c))
               (in_flight (history c ++ [(S n, EWrite IncrActive)]))
               _ (S n)).
    + lia.
    + apply seq_NoDup.
    + apply in_seq. lia.
    + intros i Hne. unfold in_flight.
      now destruct (counts_other_thread (history c) (S n) i
                      (EWrite IncrActive) Hne) as [-> ->].
    + unfold in_flight. now rewrite Hi0, Hd0.
    + unfold in_flight. now rewrite Hi1, Hd1, Hi0, Hd0.
Qed.

(** The decrement: the thread leaves the count for good. *)
Lemma counter_inv_decr (c : config World unit) (j : nat) (k : prog unit) :
  counter_inv c ->
  nth_error (pool c) j = Some (Write DecrActive k) ->
  counter_inv (mkConfig (update_nth j k (pool c))
                 (apply_upd DecrActive (shared c)) (world c)
                 (history c ++ [(j, EWrite DecrActive)])).
Proof.
  intros (Hpos & Hph & Hids & Hcnt) Hj.
  assert (Hlt : (j < List.length (pool c))%nat)
    by (apply nth_error_Some; congruence).
  pose proof (Hph j _ Hj) as Hphj.
  assert (Hcounted : (exists n, j = S n) /\ incr_by j (history c) = 1%nat
                     /\ decr_by j (history c) = 0%nat /\ quiet k).
  { unfold thread_phase in Hphj. destruct j as [| n].
    - destruct Hphj as (_ & _ & Hq).
      destruct (confined_inv _ _ _ Hq) as [Hu _]. discriminate.
    - destruct Hphj as [(_ & _ & k' & Hk & _) | [(Hi & Hd & Hc) | (_ & _ & Hq)]].
      + discriminate.
      + destruct (counted_inv _ Hc) as [[Hu _] | [_ Hq]];
          [discriminate | eauto].
      + destruct (confined_inv _ _ _ Hq) as [Hu _]. discriminate. }
  destruct Hcounted as ([n ->] & Hi0 & Hd0 & Hqk).
  destruct (counts_decr (history c) (S n)) as [Hi1 Hd1].
  unfold counter_inv. cbn [pool shared history].
  rewrite length_update_nth.
  split; [lia |]. split; [| split].
  - intros i x Hi.
    destruct (Nat.eq_dec i (S n)) as [-> | Hne].
    + rewrite (nth_error_update_nth_eq _ _ _ _ Hj) in Hi. injection Hi as <-.
      unfold thread_phase. right. right. rewrite Hi1, Hd1, Hi0, Hd0. auto.
    + rewrite nth_error_update_nth_neq in Hi by congruence.
      specialize (Hph i x Hi). unfold thread_phase in *.
      destruct (counts_other_thread (history c) (S n) i (EWrite DecrActive) Hne)
        as [-> ->].
      exact Hph.
  - intros je Hje. apply in_app_or in Hje. destruct Hje as [Hje | [<- | []]].
    + now apply Hids.
    + exact Hlt.
  - replace (active_connections (apply_upd DecrActive (shared c)))
      with (active_connections (shared c) - 1) by now destruct (shared c).
    rewrite Hcnt. unfold sessions_in_flight. cbn [pool history].
    rewrite length_update_nth.
    rewrite (filter_length_flip
               (in_flight (history c ++ [(S n, EWrite DecrActive)]))
               (in_flight (history c)) _ (S n)).
    + lia.
    + apply seq_NoDup.
    + apply in_seq. lia.
    + intros i Hne. unfold in_flight.
      now destruct (counts_other_thread (history c) (S n) i
                      (EWrite DecrActive) Hne) as [-> ->].
    + unfold in_flight. now rewrite Hi1, Hd1, Hi0, Hd0.
    + unfold in_flight. now rewrite Hi0, Hd0.
Qed.

Lemma sched_counter_inv (i : nat) (c : config World unit) :
  counter_inv c -> counter_inv (sched respond (session fuel) i c).
Proof.
  intros Hinv. unfold sched.
  destruct (nth_error (pool c) i) as [t |] eqn:Hi; [| exact Hinv].
  destruct t as [r | e | | e k | k | u k]; try exact Hinv.
  - apply (counter_inv_neutral c i (Call e k)); auto.
    + intros (k' & Hk & _). discriminate.
    + intros Hq. apply (confined_inv _ _ _ Hq).
    + intros Hc. apply (counted_inv _ Hc).
    + intros j. unfold incr_by, decr_by. cbn.
      now rewrite !andb_false_r.
    + now intros je [<- | []].
    + destruct e; cbn; auto.
      match goal with
      | |- context [match ?x with _ => _ end] => destruct x
      end; eauto.
  - replace (history c) with (history c ++ []) by apply app_nil_r.
    replace (update_nth i (k (shared c)) (pool c))
      with (update_nth i (k (shared c)) (pool c) ++ []) by apply app_nil_r.
    apply (counter_inv_neutral c i (Read k)); auto.
    + intros (k' & Hk & _). discriminate.
    + intros Hq. apply (confined_inv _ _ _ Hq).
    + intros Hc. apply (counted_inv _ Hc).
    + now intros j.
  - destruct (not_counter u) eqn:Hu.
    + replace (update_nth i k (pool c))
        with (update_nth i k (pool c) ++ []) by apply app_nil_r.
      apply (counter_inv_neutral c i (Write u k)); auto.
      * intros (k' & Hk & _). injection Hk as -> _. discriminate.
      * intros Hq. apply (confined_inv _ _ _ Hq).
      * intros Hc. destruct (counted_inv _ Hc) as [[_ Hk] | [-> _]];
          [exact Hk | discriminate].
      * intros j. unfold incr_by, decr_by. cbn.
        destruct u; try discriminate; now rewrite !andb_false_r.
      * now intros je [<- | []].
      * destruct u; try discriminate; now destruct (shared c).
    + destruct u; try discriminate.
      * now apply counter_inv_incr.
      * now apply counter_inv_decr.
Qed.

Lemma gateway_counter_inv (w : World) (s : State) :
  active_connections s = 0 ->
  counter_inv (gateway fuel w s).
Proof.
  intros Hs. unfold counter_inv, gateway. cbn [pool shared history].
  split; [cbn; lia |]. split; [| split].
  - intros [| [| i]] t Hi; try discriminate.
    injection Hi as <-. cbn. repeat split. apply listener_quiet.
  - intros je [].
  - now rewrite Hs.
Qed.

End Counter.

(** ** One session, from the increment to the decrement *)

Lemma created_confined okc oku (tr : list event) :
  okc SocketNew = false ->
  forallb (event_ok okc oku) tr = true ->
  created tr = [].
Proof.
  intros Hno. induction tr as [| e tr IH]; [reflexivity |].
  simpl. intros H. apply andb_true_iff in H. destruct H as [He Htr].
  rewrite (IH Htr), app_nil_r.
  destruct e as [c a | u]; [| reflexivity].
  destruct c; try reflexivity. simpl in He. congruence.
Qed.

Lemma created_app (tr tr' : list event) :
  created (tr ++ tr') = created tr ++ created tr'.
Proof. apply flat_map_app. Qed.

Arguments created : simpl never.

Lemma returns_bind {A B : Type} (P : B -> Prop) (p : prog A)
  (f : A -> prog B) :
  (forall a, returns P (f a)) -> returns P (bind p f).
Proof.
  intros Hf. induction p; simpl; try constructor; auto.
Qed.

Lemma returns_try_except {A : Type} (P : A -> Prop) (p : prog A)
  (h : exn -> prog A) :
  returns P p -> (forall e, returns P (h e)) -> returns P (try_except p h).
Proof.
  intros Hp Hh. induction Hp; simpl; try constructor; auto.
Qed.

Section Session.

Variable World : Type.
Variable respond : World -> forall c : ext, Ans c * World.
Variable fuel : nat.

Lemma never_raises_run {A : Type} (p : prog A) :
  never_raises p ->
  forall w s e, outcome_of (run respond p w s) <> Raised e.
Proof.
  induction 1; intros w s e; simpl; try discriminate; auto.
Qed.

Lemma run_close_quietly (x : sock) (w : World) (s : State) :
  run respond (close_quietly x) w s
  = mkResult (Returned tt) (snd (respond w (SocketClose x))) s
      [ECall (SocketClose x) (fst (respond w (SocketClose x)))].
Proof.
  unfold close_quietly. cbn [try_except run].
  destruct (fst (respond w (SocketClose x))); reflexivity.
Qed.

Lemma returns_run {A : Type} (P : A -> Prop) (p : prog A) :
  returns P p ->
  forall w s x, outcome_of (run respond p w s) = Returned x -> P x.
Proof.
  induction 1; intros w s x; simpl; try discriminate; eauto.
  now intros [= <-].
Qed.

Lemma relay_try_result (client server : sock) (w : World) (s : State) :
  let r := run respond (TCPProxy.relay_try fuel client server) w s in
  (outcome_of r = Returned (Some server) \/ outcome_of r = OutOfFuel)
  /\ created (trace_of r) = [].
Proof.
  intros r. subst r. split.
  - assert (Hret : returns (fun x => x = Some server)
                     (TCPProxy.relay_try fuel client server)).
    { unfold TCPProxy.relay_try.
      apply returns_try_except; [| now constructor].
      apply returns_bind. intros _. apply returns_bind. intros connected.
      destruct (negb connected); repeat (apply returns_bind; intros);
        now constructor. }
    assert (Hnr : never_raises (TCPProxy.relay_try fuel client server)).
    { unfold TCPProxy.relay_try. apply never_raises_try_except. constructor. }
    pose proof (returns_run _ _ Hret w s) as Hx.
    pose proof (never_raises_run _ Hnr w s) as He.
    destruct (outcome_of (run respond (TCPProxy.relay_try fuel client server) w s))
      as [x | e |]; auto.
    + left. f_equal. now apply Hx.
    + now destruct (He e).
  - apply (created_confined no_new not_counter); [reflexivity |].
    apply confined_trace. unfold TCPProxy.relay_try.
    confine. apply proxy_data_relays.
Qed.

Arguments TCPProxy.relay_try : simpl never.

(** The socket that the [finally] suite closes is the socket that the
    [try] suite has created, if any. *)
Lemma handle_try_sockets (client : sock) (w : World) (s : State)
  (srv : option sock) :
  let h := run respond
             (TCPProxy.handle_try
                (Some (MCServerManager.ensure_server_ready fuel)) fuel client)
             w s in
  outcome_of h = Returned srv ->
  created (trace_of h) = match srv with Some x => [x] | None => [] end.
Proof.
  intros h. subst h. unfold TCPProxy.handle_try.
  rewrite run_try_except, run_bind. unfold and_then.
  pose proof (created_confined waits ready_writes _ eq_refl
                (confined_trace waits ready_writes respond _
                   (ensure_server_ready_confined fuel) w s)) as Hc.
  destruct (run respond (MCServerManager.ensure_server_ready fuel) w s)
    as [[ready | e |] w1 s1 tr1]; cbn [outcome_of trace_of world_of state_of] in *.
  - destruct ready; cbn [negb].
    + cbn [bind run]. unfold of_sum at 1.
      destruct (fst (respond w1 SocketNew)) as [e | server] eqn:Hnew.
      * cbn. intros [= <-]. now rewrite app_nil_r, created_app, Hc.
      * cbn.
        match goal with
        | |- context [run respond (TCPProxy.relay_try fuel client server)
                        ?w2 s1] =>
          destruct (relay_try_result client server w2 s1) as [Hout Hcr];
          destruct (run respond (TCPProxy.relay_try fuel client server) w2 s1)
            as [o3 w3 s3 tr3]
        end.
        cbn in Hout, Hcr |- *.
        destruct Hout as [-> | ->]; cbn; [| discriminate].
        intros [= <-].
        change (ECall SocketNew (inr server) :: tr3)
          with ([ECall SocketNew (inr server)] ++ tr3).
        now rewrite !created_app, Hc, Hcr.
    + cbn [bind run]. unfold of_opt at 1.
      destruct (fst (respond w1 (SocketClose client))); cbn;
        intros [= <-]; now rewrite ?app_nil_r, created_app, Hc.
  - cbn. intros [= <-]. now rewrite app_nil_r.
  - discriminate.
Qed.

(** One session alone, on every path that ends: the increment first,
    the decrement last, and in between the close of the client socket
    followed by the close of the backend socket if one was created. *)
Lemma session_exit (client : sock) (a : address) (w : World) (s : State) :
  let r := run respond (session fuel client a) w s in
  outcome_of r <> OutOfFuel ->
  outcome_of r = Returned tt
  /\ exists mid a1 closes,
      trace_of r
      = EWrite IncrActive
        :: mid ++ ECall (SocketClose client) a1 :: closes ++ [EWrite DecrActive]
      /\ count is_incr mid = 0%nat
      /\ count is_decr mid = 0%nat
      /\ forallb is_close closes = true
      /\ closing closes = created mid.
Proof.
  intros r. subst r.
  unfold session, TCPProxy._handle_connection, set. cbn [bind run].
  rewrite run_bind. unfold and_then.
  set (cb := Some (MCServerManager.ensure_server_ready fuel)).
  assert (Hq : quiet (TCPProxy.handle_try cb fuel client)).
  { apply handle_try_quiet. intros p [= <-].
    apply (quiet_weaken waits ready_writes);
      [now intros [] | apply ensure_server_ready_confined]. }
  assert (Hnr : never_raises (TCPProxy.handle_try cb fuel client))
    by (apply never_raises_try_except; constructor).
  pose proof (never_raises_run _ Hnr w (apply_upd IncrActive s)) as He.
  pose proof (handle_try_sockets client w (apply_upd IncrActive s)) as Hs.
  cbn zeta in Hs. fold cb in Hs.
  assert (Hi : count is_incr
                 (trace_of (run respond (TCPProxy.handle_try cb fuel client) w
                              (apply_upd IncrActive s))) = 0%nat).
  { apply (confined_count respond (fun _ => true) not_counter); [| exact Hq].
    intros [c x | []]; simpl; intros; try discriminate; reflexivity. }
  assert (Hd : count is_decr
                 (trace_of (run respond (TCPProxy.handle_try cb fuel client) w
                              (apply_upd IncrActive s))) = 0%nat).
  { apply (confined_count respond (fun _ => true) not_counter); [| exact Hq].
    intros [c x | []]; simpl; intros; try discriminate; reflexivity. }
  destruct (run respond (TCPProxy.handle_try cb fuel client) w
              (apply_upd IncrActive s)) as [[srv | e |] w1 s1 mid];
    cbn [outcome_of trace_of world_of state_of emit] in *.
  - rewrite run_bind, run_close_quietly. unfold and_then.
    cbn [outcome_of trace_of world_of state_of].
    rewrite run_bind. unfold and_then.
    specialize (Hs srv eq_refl).
    destruct srv as [x |].
    + rewrite run_close_quietly. cbn. intros _. split; [reflexivity |].
      eexists mid, _, [ECall (SocketClose x) _].
      repeat split; auto.
    + cbn. intros _. split; [reflexivity |].
      eexists mid, _, [].
      repeat split; auto.
  - now destruct (He e).
  - intros H. now destruct H.
Qed.

End Session.

(** ** The gateway *)

Section Gateway.

Variable World : Type.
Variable respond : World -> forall c : ext, Ans c * World.

(** C2 (as amended).  In the gateway (the listener thread and the session
    threads it starts), under every interleaving, the connection counter
    is never negative and equals the number of session threads that have
    incremented it and not yet decremented it.  No thread increments
    twice or decrements more often than it has incremented, and a session
    thread that is over has done both exactly once.  A session alone, on
    every path that ends, increments first and decrements last, after it
    has closed the client socket and then the backend socket if it had
    created one. *)
Theorem active_connections_counts_sessions :
  forall (fuel : nat) (schedule : list nat) (w : World) (s : State),
    active_connections s = 0 ->
    let c := run_sched respond (session fuel) schedule (gateway fuel w s) in
    0 <= active_connections (shared c)
    /\ active_connections (shared c) = Z.of_nat (sessions_in_flight c)
    /\ (forall i : nat,
           (incr_by i (history c) <= 1)%nat
           /\ (decr_by i (history c) <= incr_by i (history c))%nat)
    /\ (forall (i : nat) (t : prog unit),
           nth_error (pool c) (S i) = Some t ->
           match t with
           | Ret _ | Raise _ =>
             incr_by (S i) (history c) = 1%nat
             /\ decr_by (S i) (history c) = 1%nat
           | _ => True
           end)
    /\ (forall (client : sock) (a : address) (w' : World) (s' : State),
           let r := run respond (session fuel client a) w' s' in
           outcome_of r <> OutOfFuel ->
           outcome_of r = Returned tt
           /\ exists mid a1 closes,
               trace_of r
               = EWrite IncrActive
                 :: mid ++ ECall (SocketClose client) a1
                    :: closes ++ [EWrite DecrActive]
               /\ count is_incr mid = 0%nat
               /\ count is_decr mid = 0%nat
               /\ forallb is_close closes = true
               /\ closing closes = created mid).
Proof.
  intros fuel schedule w s Hs c.
  assert (Hinv : counter_inv c).
  { subst c. apply run_sched_invariant.
    - intros i c0. apply sched_counter_inv.
    - now apply gateway_counter_inv. }
  destruct Hinv as (Hpos & Hph & Hids & Hcnt).
  split; [rewrite Hcnt; lia |]. split; [exact Hcnt |].
  split; [| split].
  - intros i.
    destruct (nth_error (pool c) i) as [t |] eqn:Hi.
    + specialize (Hph i t Hi). unfold thread_phase in Hph.
      destruct i; [destruct Hph as (-> & -> & _); lia |].
      destruct Hph as [(-> & -> & _) | [(-> & -> & _) | (-> & -> & _)]]; lia.
    + apply nth_error_None in Hi.
      destruct (counts_absent _ i _ Hids Hi) as [-> ->]. lia.
  - intros i t Hi. specialize (Hph (S i) t Hi). unfold thread_phase in Hph.
    destruct Hph as [(_ & _ & k & -> & _) | [(_ & _ & Hc) | (Hi1 & Hd1 & _)]].
    + exact I.
    + pose proof (counted_inv _ Hc). now destruct t.
    + now destruct t.
  - intros client a w' s'. apply session_exit.
Qed.

End Gateway.

(** A connection has been accepted and nothing of it is torn down: its
    socket is open, the hook has not run yet; the counter is still zero.
    And while the status poll of the hook raises, the accept loop goes on
    without starting a session: the accepted sockets stay open, no thread
    will ever count them. *)
Lemma accepted_session_not_counted :
  let c := run_sched sim_respond (session 70) (repeat 0%nat 6)
             (gateway 70 sim_off initial_state) in
  let d := run_sched flaky_respond (session 70) (repeat 0%nat 30)
             (gateway 70 (sim_off, 0%nat) initial_state) in
  accepted_open (history c) = [11%nat]
  /\ active_connections (shared c) = 0
  /\ active_connections (shared c)
     <> Z.of_nat (List.length (accepted_open (history c)))
  /\ accepted_open (history d) = [11%nat; 12%nat; 13%nat; 14%nat]
  /\ List.length (pool d) = 1%nat
  /\ active_connections (shared d) = 0.
Proof. vm_compute. repeat split. discriminate. Qed.

Lemma active_connections_counts_sessions_witness :
  let c := run_sched sim_respond (session 70) (repeat 0%nat 40 ++ [1%nat])
             (gateway 70 sim_off initial_state) in
  active_connections (shared c) = Z.of_nat (sessions_in_flight c)
  /\ active_connections (shared c) = 1.
Proof.
  intros c. split.
  - exact (proj1 (proj2
      (active_connections_counts_sessions Sim sim_respond 70
         (repeat 0%nat 40 ++ [1%nat]) sim_off initial_state eq_refl))).
  - vm_compute. reflexivity.
Defined.

(** Two callers wait for a droplet that is off and that comes up late: the
    first gives up at its own deadline, the second, which started later,
    sees the droplet active and answers [True]; neither has asked for a
    power-on.  Two clients of a gateway whose [power_on] fails cause two
    start sequences, one from the hook of each connection.  And two
    [start_server] calls that both read the guard before either sets it
    both issue their [power_on]. *)
Lemma ensure_server_ready_starts_nothing :
  let callers := [MCServerManager.ensure_server_ready 70;
                  MCServerManager.ensure_server_ready 70] in
  let schedule := repeat 0%nat 122 ++ [1%nat; 1%nat]
                  ++ repeat 0%nat 62 ++ repeat 1%nat 200 in
  let c := run_sched booting_respond (fun _ _ => Ret false) schedule
             (mkConfig callers initial_state (sim_off, 1400) []) in
  let g := run_sched sim_respond (session 70) (repeat 0%nat 40)
             (gateway 70 sim_broken initial_state) in
  let starters := [MCServerManager.start_server 70;
                   MCServerManager.start_server 70] in
  let race := run_sched sim_respond (fun _ _ => Ret tt)
                [0; 1; 0; 0; 0; 1; 1; 1; 0; 1]%nat
                (mkConfig starters initial_state sim_off []) in
  sim_status sim_off = "off"%string
  /\ pool c = [Ret false; Ret true]
  /\ count is_power_on (events (history c)) = 0%nat
  /\ List.length (accepted (history g)) = 3%nat
  /\ count is_power_on (events (history g)) = 2%nat
  /\ count is_power_on (events (history race)) = 2%nat.
Proof. vm_compute. repeat split. Qed.

Lemma ensure_server_ready_callers_witness :
  let c := run_sched sim_respond (fun _ _ => Ret false)
             (repeat 0%nat 14 ++ [1%nat])
             (mkConfig [MCServerManager.ensure_server_ready 70;
                        MCServerManager.ensure_server_ready 70]
                initial_state sim_up []) in
  pool c = [Ret true; Ret true]
  /\ answered_true (events_by 0 (history c))
  /\ events_by 1 (history c) = [].
Proof.
  intros c. split; [reflexivity |]. split; [| reflexivity].
  exact (proj2 (proj1 (proj2 (proj2 (proj2
    (ensure_server_ready_callers Sim sim_respond (fun _ _ => Ret false)
       [70%nat; 70%nat] (repeat 0%nat 14 ++ [1%nat]) sim_up initial_state))))
    0%nat (Ret true) eq_refl)).
Defined.

(** A session sets [server_ready] after the tick has cleared it.  The
    first session polls while the droplet is active and is about to set
    the flag; the droplet goes off; the tick finds it off and clears the
    flag; the session then sets it.  The next [ensure_server_ready] call
    finds the flag set and answers [True] without a call, while the droplet
    is off. *)
Lemma ready_set_after_tick :
  let threads := [MCServerManager.ensure_server_ready 70; tick_thread;
                  MCServerManager.ensure_server_ready 70] in
  let schedule := (repeat 0 11 ++ [1; 1] ++ [0; 0; 0] ++ [2])%nat in
  let c := run_sched fading_respond (fun _ _ => Ret false) schedule
             (mkConfig threads initial_state (sim_up, 2%nat) []) in
  history c
  = [(0%nat, ECall Time 1000); (0%nat, ECall Time 1000);
     (0%nat, ECall DropletLoad (inr "active"%string));
     (0%nat, ECall DropletLoad (inr "active"%string));
     (0%nat, ECall Time 1000); (0%nat, ECall Time 1000);
     (0%nat, ECall ServerLookup None); (0%nat, EWrite SetMonitorServer);
     (0%nat, ECall ServerStatus (inr 0));
     (1%nat, ECall DropletLoad (inr "off"%string));
     (1%nat, EWrite (SetReady false)); (0%nat, EWrite (SetReady true));
     (0%nat, ECall Now 1000000000);
     (0%nat, EWrite (SetLastActivity (Some 1000000000)))]
  /\ pool c = [Ret true; Ret false; Ret true]
  /\ events_by 2 (history c) = []
  /\ server_ready (shared c) = true
  /\ fst (fading_respond (world c) DropletLoad) = inr "off"%string.
Proof. vm_compute. repeat split. Qed.

Lemma check_inactivity_clears_ready_witness :
  let s := mkState (Some 5) false true 15 true None 0 false in
  let r := run sim_respond MCServerManager.check_inactivity sim_off s in
  let c := run_sched sim_respond (fun _ _ => Ret false) (repeat 0%nat 14)
             (mkConfig [MCServerManager.ensure_server_ready 70] (state_of r)
                sim_up []) in
  server_ready (state_of r) = false
  /\ exists l j,
      history c = [] ++ l /\ In (j, EWrite (SetReady true)) l.
Proof.
  intros s r c.
  pose proof (check_inactivity_clears_ready Sim sim_respond
                (fun _ _ => Ret false) sim_off s "off" eq_refl eq_refl)
    as (_ & Hoff & _ & Hlater).
  split; [exact Hoff |].
  exact (Hlater [MCServerManager.ensure_server_ready 70] 0%nat 70%nat
           (repeat 0%nat 14) sim_up [] eq_refl eq_refl).
Defined.

(** * More of the code *)

(** ** The log buffer of the dashboard *)

Lemma lastn_short {A : Type} (n : nat) (l : list A) :
  (List.length l <= n)%nat -> lastn n l = l.
Proof.
  intros H. unfold lastn.
  replace (List.length l - n)%nat with 0%nat by lia. reflexivity.
Qed.

Lemma lastn_length {A : Type} (n : nat) (l : list A) :
  (List.length (lastn n l) <= n)%nat.
Proof. unfold lastn. rewrite length_skipn. lia. Qed.

Lemma lastn_app_lastn {A : Type} (n : nat) (l l' : list A) :
  lastn n (lastn n l ++ l') = lastn n (l ++ l').
Proof.
  destruct (Nat.le_gt_cases (List.length l) n) as [Hle | Hgt].
  - now rewrite (lastn_short n l Hle).
  - unfold lastn at 1 3. rewrite !length_app.
    unfold lastn. rewrite length_skipn.
    replace (List.length l - (List.length l - n) + List.length l' - n)%nat
      with (List.length l')%nat by lia.
    replace (List.length l + List.length l' - n)%nat
      with (List.length l' + (List.length l - n))%nat by lia.
    rewrite <- skipn_skipn. f_equal.
    rewrite skipn_app.
    replace (List.length l - n - List.length l)%nat with 0%nat by lia.
    reflexivity.
Qed.

Lemma emit_step (buf : list LogHandler.LogEntry) (r : LogHandler.LogRecord) :
  (List.length buf <= LogHandler.MAX_LOGS)%nat ->
  LogHandler.emit buf r
  = lastn LogHandler.MAX_LOGS (buf ++ LogHandler.entry_of r).
Proof.
  intros H. unfold LogHandler.emit, LogHandler.entry_of.
  destruct (LogHandler.format r) as [e | text].
  - now rewrite app_nil_r, lastn_short.
  - cbn zeta.
    match goal with
    | |- context [Nat.ltb _ (List.length (buf ++ [?x]))] => set (entry := x)
    end.
    destruct (Nat.ltb_spec LogHandler.MAX_LOGS
                (List.length (buf ++ [entry]))) as [Hlt | Hge].
    + rewrite length_app in Hlt. cbn [List.length] in Hlt.
      unfold lastn. rewrite length_app. cbn [List.length].
      replace (List.length buf + 1 - LogHandler.MAX_LOGS)%nat with 1%nat
        by lia.
      reflexivity.
    + now rewrite lastn_short.
Qed.

(** X1.  The log buffer is a window on what was logged: after any number
    of [emit] calls on a buffer within its bound, the buffer holds the
    last [MAX_LOGS] entries of the old buffer followed by the entries of
    the new records, oldest first, and never more than [MAX_LOGS] of them.
    A record whose formatting raises leaves no entry and changes
    nothing. *)
Theorem emit_keeps_last_entries :
  forall (records : list LogHandler.LogRecord)
         (log_buffer : list LogHandler.LogEntry),
    (List.length log_buffer <= LogHandler.MAX_LOGS)%nat ->
    let after := fold_left LogHandler.emit records log_buffer in
    after = lastn LogHandler.MAX_LOGS
              (log_buffer ++ flat_map LogHandler.entry_of records)
    /\ (List.length after <= LogHandler.MAX_LOGS)%nat.
Proof.
  induction records as [| r records IH]; intros buf Hbuf;
    cbn [fold_left flat_map].
  - rewrite app_nil_r, lastn_short by exact Hbuf. now split.
  - assert (Hstep : (List.length (LogHandler.emit buf r)
                     <= LogHandler.MAX_LOGS)%nat)
      by (rewrite emit_step by exact Hbuf; apply lastn_length).
    destruct (IH _ Hstep) as [Heq Hlen]. split; [| exact Hlen].
    rewrite Heq, emit_step by exact Hbuf.
    rewrite lastn_app_lastn, <- app_assoc. reflexivity.
Qed.

Lemma emit_keeps_last_entries_witness :
  let r := LogHandler.mkLogRecord "main" "ERROR"
             (inr "Failed to start droplet"%string) "12:00:00" in
  let full := repeat (LogHandler.mkLogEntry "11:59:59" "main - INFO - up"
                        "info") 100 in
  fold_left LogHandler.emit [r] full
  = lastn LogHandler.MAX_LOGS (full ++ LogHandler.entry_of r).
Proof.
  intros r full.
  rewrite (proj1 (emit_keeps_last_entries [r] full
                    ltac:(apply Nat.leb_le; reflexivity))).
  cbn [flat_map]. now rewrite app_nil_r.
Defined.

(** ** The Minecraft query *)

Section Monitor.

Variable World : Type.
Variable respond : World -> forall c : ext, Ans c * World.

(** X2.  The two queries of the monitor are one query: from the same
    world and fields, [is_server_online] and [get_player_count] make the
    same calls and writes, neither raises, and the first answers [True]
    exactly when the second answers a count.  The server is looked up at
    most once: with [monitor_server] set no lookup is made, and a query
    that succeeds leaves it set. *)
Theorem monitor_queries_agree :
  forall (w : World) (s : State),
    let a := run respond MinecraftMonitor.is_server_online w s in
    let b := run respond MinecraftMonitor.get_player_count w s in
    trace_of a = trace_of b
    /\ world_of a = world_of b
    /\ state_of a = state_of b
    /\ (exists online count,
           outcome_of a = Returned online
           /\ outcome_of b = Returned count
           /\ (online = true <-> count <> None)
           /\ (online = true -> monitor_server (state_of a) = true))
    /\ (monitor_server s = true -> count is_lookup (trace_of a) = 0%nat)
    /\ (count is_lookup (trace_of a) <= 1)%nat.
Proof.
  intros w s a b. subst a b.
  unfold MinecraftMonitor.is_server_online, MinecraftMonitor.get_player_count,
    MinecraftMonitor._get_server, MinecraftMonitor.status, get, set.
  cbn [bind try_except run].
  destruct (monitor_server s) eqn:Hm; cbn [bind try_except run];
    repeat (match goal with
            | |- context [of_sum ?x] => destruct x
            | |- context [of_opt ?x] => destruct x
            end; cbn);
    repeat split; auto; try (eexists _, _; repeat split; eauto);
    try discriminate; try congruence; try (now destruct s).
Qed.

End Monitor.

(** ** The droplet *)

Section Droplet.

Variable World : Type.
Variable respond : World -> forall c : ext, Ans c * World.

Lemma start_droplet_wait_true (fuel : nat) (start : Z) :
  forall (w : World) (s : State),
    outcome_of (run respond (DigitalOceanManager.start_droplet_wait fuel start) w s)
    = Returned true ->
    In (ECall DropletLoad (inr "active"%string))
       (trace_of (run respond (DigitalOceanManager.start_droplet_wait fuel start)
                    w s)).
Proof.
  induction fuel as [| fuel IH]; intros w s;
    cbn [DigitalOceanManager.start_droplet_wait]; [discriminate |].
  unfold time, sleep, DigitalOceanManager.load.
  cbn [bind run emit outcome_of trace_of].
  destruct (fst (respond w Time) - start <? 300); [| discriminate].
  cbn [bind run emit outcome_of trace_of].
  destruct (fst (respond (snd (respond w Time)) DropletLoad)) as [e | status];
    cbn [of_sum bind run emit outcome_of trace_of]; [discriminate |].
  destruct (status =? "active")%string eqn:Hst;
    cbn [bind run emit outcome_of trace_of].
  - apply String.eqb_eq in Hst. subst status. intros _. right. now left.
  - intros H. right. right. right. now apply IH.
Qed.

Lemma start_droplet_wait_polls (fuel : nat) (start : Z) :
  confined polls_droplet (fun _ => false)
    (DigitalOceanManager.start_droplet_wait fuel start).
Proof.
  induction fuel as [| fuel IH];
    cbn [DigitalOceanManager.start_droplet_wait]; [constructor |].
  unfold time, sleep, DigitalOceanManager.load. confine. exact IH.
Qed.

(** The run of [start_droplet], by cases on what the droplet answers. *)
Lemma run_start_droplet (fuel : nat) (w : World) (s : State) :
  run respond (DigitalOceanManager.start_droplet fuel) w s
  = let a := respond w DropletLoad in
    match fst a with
    | inl e => mkResult (Raised e) (snd a) s [ECall DropletLoad (inl e)]
    | inr status =>
      if (status =? "active")%string then
        mkResult (Returned true) (snd a) s [ECall DropletLoad (inr status)]
      else
        let b := respond (snd a) DropletPowerOn in
        match fst b with
        | Some e =>
          mkResult (Returned false) (snd b) s
            [ECall DropletLoad (inr status); ECall DropletPowerOn (Some e)]
        | None =>
          let t := respond (snd b) Time in
          let r := run respond
                     (DigitalOceanManager.start_droplet_wait fuel (fst t))
                     (snd t) s in
          mkResult (match outcome_of r with
                    | Raised _ => Returned false
                    | o => o
                    end)
                   (world_of r) (state_of r)
                   (ECall DropletLoad (inr status)
                    :: ECall DropletPowerOn None
                    :: ECall Time (fst t) :: trace_of r)
        end
    end.
Proof.
  unfold DigitalOceanManager.start_droplet, DigitalOceanManager.load, time.
  cbn [bind run]. cbn zeta.
  destruct (fst (respond w DropletLoad)) as [e | status];
    cbn [of_sum bind run emit]; [reflexivity |].
  destruct (status =? "active")%string; [reflexivity |].
  rewrite run_try_except. cbn [bind run emit]. cbn zeta.
  destruct (fst (respond (snd (respond w DropletLoad)) DropletPowerOn))
    as [e |]; cbn [of_opt bind run emit outcome_of world_of state_of trace_of app];
    [reflexivity |].
  destruct (run respond (DigitalOceanManager.start_droplet_wait fuel _) _ s)
    as [[ok | e |] w' s' tr]; cbn; rewrite ?app_nil_r; reflexivity.
Qed.

(** X3.  [start_droplet] leaves every field alone and never asks for a
    shutdown; it asks for a power-on at most once, and not at all when the
    first status poll finds the droplet active.  It answers [True] only
    after a poll that found the droplet active, and once the first poll
    has answered no exception leaves it. *)
Theorem start_droplet_outcomes :
  forall (fuel : nat) (w : World) (s : State),
    let r := run respond (DigitalOceanManager.start_droplet fuel) w s in
    state_of r = s
    /\ count is_shutdown (trace_of r) = 0%nat
    /\ (count is_power_on (trace_of r) <= 1)%nat
    /\ (outcome_of r = Returned true ->
        In (ECall DropletLoad (inr "active"%string)) (trace_of r))
    /\ (forall status : string,
           fst (respond w DropletLoad) = inr status ->
           (forall e, outcome_of r <> Raised e)
           /\ ((status =? "active")%string = true ->
               outcome_of r = Returned true
               /\ trace_of r = [ECall DropletLoad (inr status)])
           /\ ((status =? "active")%string = false ->
               exists rest,
                 trace_of r
                 = ECall DropletLoad (inr status)
                   :: ECall DropletPowerOn
                        (fst (respond (snd (respond w DropletLoad))
                                DropletPowerOn))
                   :: rest)).
Proof.
  intros fuel w s r.
  assert (Hwait : forall st w',
    count is_power_on
      (trace_of (run respond (DigitalOceanManager.start_droplet_wait fuel st)
                   w' s)) = 0%nat).
  { intros st w'.
    apply (confined_count respond polls_droplet (fun _ => false));
      [| apply start_droplet_wait_polls].
    intros [[] ? | ?]; simpl; intros; try discriminate; reflexivity. }
  split; [| split; [| split; [| split]]].
  - apply (confined_preserves respond (fun x => x) starts_droplet
             (fun _ => false)); [intros; discriminate |].
    apply start_droplet_confined.
  - apply (confined_count respond starts_droplet (fun _ => false));
      [| apply start_droplet_confined].
    intros [[] ? | ?]; simpl; intros; try discriminate; reflexivity.
  - subst r. rewrite run_start_droplet. cbn zeta.
    destruct (fst (respond w DropletLoad)) as [e | status]; [cbn; lia |].
    destruct (status =? "active")%string; [cbn; lia |].
    destruct (fst (respond (snd (respond w DropletLoad)) DropletPowerOn));
      [cbn; lia |].
    cbn [trace_of]. unfold count in *. cbn [filter is_power_on List.length].
    rewrite Hwait. lia.
  - subst r. rewrite run_start_droplet. cbn zeta.
    destruct (fst (respond w DropletLoad)) as [e | status];
      [discriminate |].
    destruct (status =? "active")%string eqn:Hst.
    + apply String.eqb_eq in Hst. subst status. intros _. now left.
    + destruct (fst (respond (snd (respond w DropletLoad)) DropletPowerOn));
        [discriminate |].
      cbn [outcome_of trace_of]. intros H.
      right. right. right. apply start_droplet_wait_true.
      destruct (outcome_of (run respond
                  (DigitalOceanManager.start_droplet_wait fuel _) _ s));
        congruence.
  - intros status Hload. subst r. rewrite run_start_droplet. cbn zeta.
    rewrite Hload.
    split; [| split].
    + intros e. destruct (status =? "active")%string; [discriminate |].
      destruct (fst (respond (snd (respond w DropletLoad)) DropletPowerOn));
        [discriminate |].
      cbn [outcome_of].
      destruct (outcome_of (run respond
                  (DigitalOceanManager.start_droplet_wait fuel _) _ s));
        discriminate.
    + intros ->. now split.
    + intros ->.
      destruct (fst (respond (snd (respond w DropletLoad)) DropletPowerOn));
        eexists; reflexivity.
Qed.

End Droplet.

Section DropletStop.

Variable World : Type.
Variable respond : World -> forall c : ext, Ans c * World.

(** X4.  [stop_droplet] first polls the status, and an exception of that
    poll leaves the method.  With the status [off] it returns [True]
    without asking for anything.  With any other status, [active] or not,
    it asks for a shutdown once and returns [True] when the request was
    accepted, [False] when it raised.  It never asks for a power-on and
    leaves every field alone. *)
Theorem stop_droplet_outcomes :
  forall (w : World) (s : State),
    let r := run respond DigitalOceanManager.stop_droplet w s in
    let a := respond w DropletLoad in
    let b := respond (snd a) DropletShutdown in
    state_of r = s
    /\ count is_power_on (trace_of r) = 0%nat
    /\ (forall e, fst a = inl e ->
          outcome_of r = Raised e /\ trace_of r = [ECall DropletLoad (fst a)]
          /\ world_of r = snd a)
    /\ (forall status, fst a = inr status ->
          ((status =? "off")%string = true ->
             outcome_of r = Returned true
             /\ trace_of r = [ECall DropletLoad (fst a)]
             /\ world_of r = snd a)
          /\ ((status =? "off")%string = false ->
              outcome_of r
              = Returned (match fst b with None => true | Some _ => false end)
              /\ trace_of r
                 = [ECall DropletLoad (fst a); ECall DropletShutdown (fst b)]
              /\ world_of r = snd b)).
Proof.
  intros w s r a b.
  split; [| split; [| split]].
  - apply (confined_preserves respond (fun x => x) stops_droplet
             (fun _ => false)); [intros; discriminate |].
    apply stop_droplet_confined.
  - apply (confined_count respond stops_droplet (fun _ => false));
      [| apply stop_droplet_confined].
    intros [[] ? | ?]; simpl; intros; try discriminate; reflexivity.
  - intros e He. subst r a.
    unfold DigitalOceanManager.stop_droplet, DigitalOceanManager.load.
    cbn [bind run emit outcome_of trace_of world_of].
    rewrite He. cbn. auto.
  - intros status Hst. subst r b a.
    unfold DigitalOceanManager.stop_droplet, DigitalOceanManager.load.
    cbn [bind run emit outcome_of trace_of world_of].
    rewrite Hst. cbn [of_sum bind].
    split; intros Hoff; rewrite Hoff.
    + cbn. auto.
    + rewrite run_try_except. cbn [bind run emit outcome_of trace_of world_of].
      destruct (fst (respond (snd (respond w DropletLoad)) DropletShutdown));
        cbn; auto.
Qed.

End DropletStop.

(** ** Waiting for the Minecraft server *)

Section MonitorWait.

Variable World : Type.
Variable respond : World -> forall c : ext, Ans c * World.

Lemma is_server_online_answer (w : World) (s : State) :
  let r := run respond MinecraftMonitor.is_server_online w s in
  exists online,
    outcome_of r = Returned online
    /\ (online = true ->
        exists pre n, trace_of r = pre ++ [ECall ServerStatus (inr n)]).
Proof.
  unfold MinecraftMonitor.is_server_online, MinecraftMonitor._get_server,
    MinecraftMonitor.status, get, set.
  cbn [bind try_except run].
  destruct (monitor_server s); cbn [bind try_except run];
    repeat (match goal with
            | |- context [of_sum ?x] => destruct x
            | |- context [of_opt ?x] => destruct x
            end; cbn);
    eexists; (split; [reflexivity |]); try discriminate; intros _.
  - now exists [], z.
  - now exists [ECall ServerLookup None; EWrite SetMonitorServer], z.
Qed.

Lemma wait_for_server_ready_loop_outcomes (fuel : nat) (timeout start : Z) :
  forall (w : World) (s : State),
    let r := run respond
               (MinecraftMonitor.wait_for_server_ready_loop fuel timeout start)
               w s in
    (forall e, outcome_of r <> Raised e)
    /\ (outcome_of r = Returned true ->
        exists pre n, trace_of r = pre ++ [ECall ServerStatus (inr n)])
    /\ (outcome_of r = Returned false ->
        exists pre t,
          trace_of r = pre ++ [ECall Time t] /\ timeout <= t - start).
Proof.
  induction fuel as [| fuel IH]; intros w s;
    cbn [MinecraftMonitor.wait_for_server_ready_loop].
  - cbn. repeat split; discriminate.
  - unfold time, sleep. cbn [bind run emit outcome_of trace_of]. cbn zeta.
    destruct (fst (respond w Time) - start <? timeout) eqn:Hlt.
    + rewrite run_bind. unfold and_then.
      destruct (is_server_online_answer (snd (respond w Time)) s)
        as (online & Hout & Hon).
      destruct (run respond MinecraftMonitor.is_server_online _ s)
        as [o w1 s1 tr1].
      cbn [outcome_of trace_of world_of state_of] in *. subst o.
      destruct online.
      * cbn [run outcome_of trace_of]. rewrite app_nil_r.
        repeat split; try discriminate.
        intros _. destruct (Hon eq_refl) as (pre & n & ->).
        now exists (ECall Time (fst (respond w Time)) :: pre), n.
      * cbn [bind run emit outcome_of trace_of].
        specialize (IH (snd (respond w1 (Sleep 5))) s1). cbn zeta in IH.
        destruct IH as (Hraise & Htrue & Hfalse).
        split; [exact Hraise | split].
        -- intros H. destruct (Htrue H) as (pre & n & ->).
           exists (ECall Time (fst (respond w Time))
                     :: tr1 ++ ECall (Sleep 5) (fst (respond w1 (Sleep 5)))
                     :: pre), n.
           cbn [app]. now rewrite <- app_assoc.
        -- intros H. destruct (Hfalse H) as (pre & t & -> & Ht).
           exists (ECall Time (fst (respond w Time))
                     :: tr1 ++ ECall (Sleep 5) (fst (respond w1 (Sleep 5)))
                     :: pre), t.
           cbn [app]. now rewrite <- app_assoc.
    + cbn. repeat split; try discriminate.
      intros _. exists [], (fst (respond w Time)).
      split; [reflexivity |]. apply Z.ltb_ge in Hlt. exact Hlt.
Qed.

Lemma wait_for_server_ready_polls (fuel : nat) (timeout : Z) :
  confined polls_server monitor_writes
    (MinecraftMonitor.wait_for_server_ready fuel timeout).
Proof.
  assert (Hq : confined polls_server monitor_writes
                 MinecraftMonitor.is_server_online).
  { eapply confined_weaken; [| | apply is_server_online_queries];
      now intros []. }
  unfold MinecraftMonitor.wait_for_server_ready, time.
  apply confined_call; [reflexivity |]. intros start.
  cbn [bind].
  induction fuel as [| fuel IH];
    cbn [MinecraftMonitor.wait_for_server_ready_loop]; [constructor |].
  unfold time, sleep. confine; try exact Hq.
  exact IH.
Qed.

Lemma wait_for_server_ready_answer (fuel : nat) (timeout : Z)
  (w : World) (s : State) :
  let r := run respond (MinecraftMonitor.wait_for_server_ready fuel timeout)
             w s in
  (forall e, outcome_of r <> Raised e)
  /\ (outcome_of r = Returned true ->
      exists pre n, trace_of r = pre ++ [ECall ServerStatus (inr n)]).
Proof.
  unfold MinecraftMonitor.wait_for_server_ready, time.
  cbn [bind run emit outcome_of trace_of]. cbn zeta.
  destruct (wait_for_server_ready_loop_outcomes fuel timeout
              (fst (respond w Time)) (snd (respond w Time)) s)
    as (Hraise & Htrue & _).
  split; [exact Hraise |].
  intros H. destruct (Htrue H) as (pre & n & ->).
  now exists (ECall Time (fst (respond w Time)) :: pre), n.
Qed.

(** X5.  [wait_for_server_ready] never raises.  It answers [True] only
    right after a status query that the Minecraft server answered, and
    [False] only right after reading a time at least [timeout] seconds
    past the time it read first.  It calls the instance controller never
    and leaves [server_ready] and [last_activity_time] alone. *)
Theorem wait_for_server_ready_outcomes :
  forall (fuel : nat) (timeout : Z) (w : World) (s : State),
    let r := run respond (MinecraftMonitor.wait_for_server_ready fuel timeout)
               w s in
    let start_time := fst (respond w Time) in
    (forall e, outcome_of r <> Raised e)
    /\ (outcome_of r = Returned true ->
        exists pre n, trace_of r = pre ++ [ECall ServerStatus (inr n)])
    /\ (outcome_of r = Returned false ->
        exists pre t,
          trace_of r = ECall Time start_time :: pre ++ [ECall Time t]
          /\ timeout <= t - start_time)
    /\ count is_controller_call (trace_of r) = 0%nat
    /\ server_ready (state_of r) = server_ready s
    /\ last_activity_time (state_of r) = last_activity_time s.
Proof.
  intros fuel timeout w s r start_time.
  assert (Hc := wait_for_server_ready_polls fuel timeout).
  split; [| split; [| split; [| split; [| split]]]].
  - apply wait_for_server_ready_answer.
  - apply wait_for_server_ready_answer.
  - subst r. unfold MinecraftMonitor.wait_for_server_ready, time.
    cbn [bind run emit outcome_of trace_of].
    intros H.
    destruct (proj2 (proj2 (wait_for_server_ready_loop_outcomes fuel timeout
                              (fst (respond w Time)) (snd (respond w Time)) s))
                H) as (pre & t & -> & Ht).
    now exists pre, t.
  - apply (confined_count respond polls_server monitor_writes); [| exact Hc].
    intros [[] ? | ?]; simpl; intros; try discriminate; reflexivity.
  - apply (confined_preserves respond server_ready polls_server
             monitor_writes); [| exact Hc].
    intros [] []; simpl; intros; try discriminate; reflexivity.
  - apply (confined_preserves respond last_activity_time polls_server
             monitor_writes); [| exact Hc].
    intros [] []; simpl; intros; try discriminate; reflexivity.
Qed.

End MonitorWait.

(** ** The waits end *)

Section WaitCompletion.

Variable World : Type.
Variable respond : World -> forall c : ext, Ans c * World.
Variable clock : World -> Z.
Hypothesis Hclock : advancing respond clock.

(** No program sets the clock back. *)
Lemma run_clock_mono {A : Type} (p : prog A) :
  forall (w : World) (s : State),
    clock w <= clock (world_of (run respond p w s)).
Proof.
  destruct Hclock as (_ & Hmono & _).
  induction p as [r | e | | c k IH | k IH | u k IH]; intros w s;
    cbn [run emit world_of]; try lia; auto.
  specialize (IH (fst (respond w c)) (snd (respond w c)) s).
  specialize (Hmono w c). lia.
Qed.

Lemma wait_for_server_ready_loop_completes (n : nat) (timeout start : Z) :
  forall (w : World) (s : State),
    timeout - (clock w - start) <= 5 * Z.of_nat n ->
    outcome_of
      (run respond
         (MinecraftMonitor.wait_for_server_ready_loop (S n) timeout start) w s)
    <> OutOfFuel.
Proof.
  destruct Hclock as (Htime & Hmono & Hsleep).
  induction n as [| n IH]; intros w s Hbound.
  - cbn [MinecraftMonitor.wait_for_server_ready_loop]. unfold time.
    cbn [bind run emit outcome_of]. rewrite Htime.
    replace (clock w - start <? timeout) with false
      by (symmetry; apply Z.ltb_ge; lia).
    cbn. discriminate.
  - remember (S n) as m.
    cbn [MinecraftMonitor.wait_for_server_ready_loop]. unfold time, sleep.
    cbn [bind run emit outcome_of]. rewrite Htime.
    destruct (clock w - start <? timeout); [| cbn; discriminate].
    rewrite run_bind. unfold and_then.
    pose proof (run_clock_mono MinecraftMonitor.is_server_online
                  (snd (respond w Time)) s) as Hq.
    destruct (is_server_online_answer World respond (snd (respond w Time)) s)
      as (online & Hout & _).
    destruct (run respond MinecraftMonitor.is_server_online _ s)
      as [o w1 s1 tr1].
    cbn [outcome_of trace_of world_of state_of] in *. subst o.
    destruct online; [cbn; discriminate |].
    cbn [bind run emit outcome_of]. subst m. apply IH.
    pose proof (Hmono w Time). pose proof (Hsleep w1 5). lia.
Qed.

Lemma wait_for_server_ready_ends (n : nat) (timeout : Z)
  (w : World) (s : State) :
  timeout <= 5 * Z.of_nat n ->
  outcome_of
    (run respond (MinecraftMonitor.wait_for_server_ready (S n) timeout) w s)
  <> OutOfFuel.
Proof.
  destruct Hclock as (Htime & Hmono & Hsleep).
  intros Hbound. unfold MinecraftMonitor.wait_for_server_ready, time.
  cbn [bind run emit outcome_of].
  apply wait_for_server_ready_loop_completes.
  rewrite Htime. pose proof (Hmono w Time). lia.
Qed.

(** X6.  With a clock that [time.sleep] advances, [wait_for_server_ready]
    ends: a timeout of [5 * n] seconds at most takes no more than [n + 1]
    rounds of its loop.  With a timeout that is not positive it answers
    [False] without asking the Minecraft server anything. *)
Theorem wait_for_server_ready_completes :
  forall (n : nat) (timeout : Z) (w : World) (s : State),
    let r := run respond (MinecraftMonitor.wait_for_server_ready (S n) timeout)
               w s in
    (timeout <= 5 * Z.of_nat n -> outcome_of r <> OutOfFuel)
    /\ (timeout <= 0 ->
        outcome_of r = Returned false
        /\ count is_probe (trace_of r) = 0%nat /\ state_of r = s).
Proof.
  intros n timeout w s r. subst r.
  pose proof Hclock as (Htime & Hmono & Hsleep).
  split.
  - apply wait_for_server_ready_ends.
  - intros Hneg. unfold MinecraftMonitor.wait_for_server_ready.
    cbn [MinecraftMonitor.wait_for_server_ready_loop]. unfold time.
    cbn [bind run emit outcome_of trace_of state_of].
    rewrite !Htime.
    replace (clock (snd (respond w Time)) - clock w <? timeout) with false
      by (symmetry; apply Z.ltb_ge; pose proof (Hmono w Time); lia).
    cbn. repeat split.
Qed.

End WaitCompletion.

Lemma wait_for_server_ready_completes_witness :
  outcome_of
    (run sim_respond (MinecraftMonitor.wait_for_server_ready 37 180)
       (mkSim 1000 "active" false true false 0 10) initial_state)
  <> OutOfFuel.
Proof.
  exact (proj1 (wait_for_server_ready_completes Sim sim_respond sim_clock
                  sim_advancing 36 180
                  (mkSim 1000 "active" false true false 0 10) initial_state)
           ltac:(lia)).
Defined.

(** ** The readiness wait of a session *)

Lemma wait_for_droplet_polls (fuel : nat) (start : Z) :
  confined polls_droplet (fun _ => false)
    (MCServerManager.wait_for_droplet fuel start).
Proof.
  induction fuel as [| fuel IH];
    unfold MCServerManager.wait_for_droplet;
    fold MCServerManager.wait_for_droplet; [constructor |].
  unfold time, sleep. confine;
    try (apply is_running_confined; reflexivity).
  exact IH.
Qed.

Section ReadinessWait.

Variable World : Type.
Variable respond : World -> forall c : ext, Ans c * World.

(** The first loop lets out only the exception of a status poll. *)
Lemma wait_for_droplet_raises (fuel : nat) (start : Z) :
  forall (w : World) (s : State) (e : exn),
    outcome_of (run respond (MCServerManager.wait_for_droplet fuel start) w s)
    = Raised e ->
    exists pre,
      trace_of (run respond (MCServerManager.wait_for_droplet fuel start) w s)
      = pre ++ [ECall DropletLoad (inl e)].
Proof.
  induction fuel as [| fuel IH]; intros w s e;
    unfold MCServerManager.wait_for_droplet;
    fold MCServerManager.wait_for_droplet; [discriminate |].
  unfold time, sleep. cbn [bind run emit outcome_of trace_of].
  destruct (fst (respond w Time) - start <? 300); [| discriminate].
  rewrite run_bind, run_is_running. unfold and_then.
  cbn [outcome_of trace_of world_of state_of].
  destruct (fst (respond (snd (respond w Time)) DropletLoad))
    as [e' | status]; cbn [outcome_of trace_of world_of state_of].
  - intros [= ->]. now exists [ECall Time (fst (respond w Time))].
  - destruct (status =? "active")%string;
      cbn [bind run emit outcome_of trace_of app]; [discriminate |].
    intros H. destruct (IH _ _ _ H) as (pre & ->).
    eexists (_ :: _ :: _ :: pre). reflexivity.
Qed.

(** X7.  A call to [ensure_server_ready] made while [server_ready] is
    unset.  When it returns [True] it has just set [server_ready] and
    stored the current time in [last_activity_time], after a status query
    that the Minecraft server answered.  On every other outcome both
    fields are as they were.  The only exception it lets out is that of a
    status poll of the droplet. *)
Theorem ensure_server_ready_outcomes :
  forall (fuel : nat) (w : World) (s : State),
    server_ready s = false ->
    let r := run respond (MCServerManager.ensure_server_ready fuel) w s in
    (outcome_of r = Returned true ->
       exists pre n t,
         trace_of r
         = pre ++ [ECall ServerStatus (inr n); EWrite (SetReady true);
                   ECall Now t; EWrite (SetLastActivity (Some t))]
         /\ server_ready (state_of r) = true
         /\ last_activity_time (state_of r) = Some t)
    /\ (outcome_of r <> Returned true ->
        server_ready (state_of r) = false
        /\ last_activity_time (state_of r) = last_activity_time s)
    /\ (forall e, outcome_of r = Raised e ->
          exists pre, trace_of r = pre ++ [ECall DropletLoad (inl e)]).
Proof.
  intros fuel w s Hready r. subst r.
  unfold MCServerManager.ensure_server_ready, get, time.
  cbn [bind run]. rewrite Hready. cbn [bind run emit outcome_of trace_of state_of].
  rewrite run_bind. unfold and_then.
  assert (Hs1 : state_of
                  (run respond
                     (MCServerManager.wait_for_droplet fuel
                        (fst (respond w Time))) (snd (respond w Time)) s)
                = s).
  { apply (confined_preserves respond (fun x => x) polls_droplet
             (fun _ => false)); [intros; discriminate |].
    apply wait_for_droplet_polls. }
  pose proof (wait_for_droplet_raises fuel (fst (respond w Time))
                (snd (respond w Time)) s) as Hr1.
  destruct (run respond (MCServerManager.wait_for_droplet fuel _) _ s)
    as [[[] | e1 |] w1 s1 tr1];
    cbn [outcome_of trace_of world_of state_of] in *; subst s1.
  2:{ repeat split; try discriminate; auto.
      intros e [= <-]. destruct (Hr1 e1 eq_refl) as (pre & ->).
      now exists (ECall Time (fst (respond w Time)) :: pre). }
  2:{ repeat split; try discriminate; auto. }
  rewrite run_bind, run_is_running. unfold and_then.
  cbn [outcome_of trace_of world_of state_of].
  destruct (fst (respond w1 DropletLoad)) as [e2 | status];
    cbn [outcome_of trace_of world_of state_of].
  { repeat split; try discriminate; auto.
    intros e [= <-].
    exists (ECall Time (fst (respond w Time)) :: tr1).
    cbn [app]. reflexivity. }
  destruct (status =? "active")%string; cbn [negb];
    [| cbn; repeat split; try discriminate; auto; congruence].
  rewrite run_bind. unfold and_then.
  pose proof (wait_for_server_ready_answer World respond fuel 180
                (snd (respond w1 DropletLoad)) s) as (Hnr & Htrue).
  assert (Hsr : server_ready
                  (state_of
                     (run respond
                        (MinecraftMonitor.wait_for_server_ready fuel 180)
                        (snd (respond w1 DropletLoad)) s))
                = server_ready s).
  { apply (confined_preserves respond server_ready polls_server
             monitor_writes); [| apply wait_for_server_ready_polls].
    intros [] []; simpl; intros; try discriminate; reflexivity. }
  assert (Hla : last_activity_time
                  (state_of
                     (run respond
                        (MinecraftMonitor.wait_for_server_ready fuel 180)
                        (snd (respond w1 DropletLoad)) s))
                = last_activity_time s).
  { apply (confined_preserves respond last_activity_time polls_server
             monitor_writes); [| apply wait_for_server_ready_polls].
    intros [] []; simpl; intros; try discriminate; reflexivity. }
  cbn zeta in *.
  destruct (run respond (MinecraftMonitor.wait_for_server_ready fuel 180) _ s)
    as [[ok | e3 |] w3 s3 tr3];
    cbn [outcome_of trace_of world_of state_of] in *.
  2:{ exfalso. now apply (Hnr e3). }
  2:{ rewrite Hsr, Hla, Hready. repeat split; try discriminate; auto. }
  destruct ok.
  - destruct (Htrue eq_refl) as (pre & n & ->).
    unfold now, set. cbn [bind run emit outcome_of trace_of state_of app].
    split; [| split; [congruence | discriminate]].
    intros _.
    exists (ECall Time (fst (respond w Time))
              :: tr1 ++ ECall DropletLoad (inr status) :: pre),
      n, (fst (respond w3 Now)).
    split; [| split].
    + cbn [app]. f_equal. rewrite <- !app_assoc. cbn [app].
      rewrite <- ?app_assoc. reflexivity.
    + now destruct s3.
    + now destruct s3.
  - cbn [run outcome_of trace_of state_of].
    rewrite Hsr, Hla, Hready. repeat split; try discriminate; auto.
Qed.

End ReadinessWait.

Lemma ensure_server_ready_outcomes_witness :
  exists pre n t,
    trace_of
      (run sim_respond (MCServerManager.ensure_server_ready 70) sim_up
         initial_state)
    = pre ++ [ECall ServerStatus (inr n); EWrite (SetReady true);
              ECall Now t; EWrite (SetLastActivity (Some t))]
    /\ server_ready
         (state_of
            (run sim_respond (MCServerManager.ensure_server_ready 70) sim_up
               initial_state)) = true
    /\ last_activity_time
         (state_of
            (run sim_respond (MCServerManager.ensure_server_ready 70) sim_up
               initial_state)) = Some t.
Proof.
  exact (proj1 (ensure_server_ready_outcomes Sim sim_respond 70 sim_up
                  initial_state eq_refl) eq_refl).
Defined.

Section ReadinessCompletion.

Variable World : Type.
Variable respond : World -> forall c : ext, Ans c * World.
Variable clock : World -> Z.
Hypothesis Hclock : advancing respond clock.

Lemma wait_for_droplet_completes (n : nat) (start : Z) :
  forall (w : World) (s : State),
    300 - (clock w - start) <= 5 * Z.of_nat n ->
    outcome_of (run respond (MCServerManager.wait_for_droplet (S n) start) w s)
    <> OutOfFuel.
Proof.
  destruct Hclock as (Htime & Hmono & Hsleep).
  induction n as [| n IH]; intros w s Hbound;
    unfold MCServerManager.wait_for_droplet;
    fold MCServerManager.wait_for_droplet; unfold time, sleep;
    cbn [bind run emit outcome_of]; rewrite Htime.
  - replace (clock w - start <? 300) with false
      by (symmetry; apply Z.ltb_ge; lia).
    cbn. discriminate.
  - destruct (clock w - start <? 300); [| cbn; discriminate].
    rewrite run_bind, run_is_running. unfold and_then.
    cbn [outcome_of trace_of world_of state_of].
    destruct (fst (respond (snd (respond w Time)) DropletLoad))
      as [e | status]; cbn [outcome_of]; [discriminate |].
    destruct (status =? "active")%string; [cbn; discriminate |].
    cbn [bind run emit outcome_of]. apply IH.
    pose proof (Hmono w Time).
    pose proof (Hmono (snd (respond w Time)) DropletLoad).
    pose proof (Hsleep (snd (respond (snd (respond w Time)) DropletLoad)) 5).
    lia.
Qed.

(** X8.  With a clock that [time.sleep] advances, [ensure_server_ready]
    ends: 61 rounds of each of its two polling loops are enough for the
    five minutes it gives the droplet and the three minutes it gives the
    Minecraft server. *)
Theorem ensure_server_ready_completes :
  forall (fuel : nat) (w : World) (s : State),
    (61 <= fuel)%nat ->
    outcome_of (run respond (MCServerManager.ensure_server_ready fuel) w s)
    <> OutOfFuel.
Proof.
  pose proof Hclock as (Htime & Hmono & Hsleep).
  intros fuel w s Hfuel. destruct fuel as [| n]; [lia |].
  unfold MCServerManager.ensure_server_ready, get, time.
  cbn [bind run].
  destruct (server_ready s); [cbn; discriminate |].
  cbn [bind run emit outcome_of].
  rewrite run_bind. unfold and_then.
  pose proof (wait_for_droplet_completes n (fst (respond w Time))
                (snd (respond w Time)) s) as H1.
  destruct (run respond (MCServerManager.wait_for_droplet (S n) _) _ s)
    as [[[] | e1 |] w1 s1 tr1];
    cbn [outcome_of trace_of world_of state_of] in *; try discriminate.
  2:{ exfalso. apply H1; [| reflexivity].
      rewrite Htime. pose proof (Hmono w Time). lia. }
  rewrite run_bind, run_is_running. unfold and_then.
  cbn [outcome_of trace_of world_of state_of].
  destruct (fst (respond w1 DropletLoad)) as [e2 | status];
    cbn [outcome_of]; [discriminate |].
  destruct (status =? "active")%string; cbn [negb];
    [| cbn; discriminate].
  rewrite run_bind. unfold and_then.
  pose proof (wait_for_server_ready_ends World respond clock Hclock n 180
                (snd (respond w1 DropletLoad)) s1 ltac:(lia)) as H3.
  destruct (run respond (MinecraftMonitor.wait_for_server_ready (S n) 180) _ s1)
    as [[[] | e3 |] w3 s3 tr3];
    cbn [outcome_of trace_of world_of state_of] in *; try discriminate.
  now apply H3.
Qed.

End ReadinessCompletion.

Lemma ensure_server_ready_completes_witness :
  outcome_of
    (run sim_respond (MCServerManager.ensure_server_ready 61)
       (mkSim 1000 "off" false false false 0 10) initial_state)
  <> OutOfFuel.
Proof.
  exact (ensure_server_ready_completes Sim sim_respond sim_clock sim_advancing
           61 (mkSim 1000 "off" false false false 0 10) initial_state
           ltac:(lia)).
Defined.

(** ** The status page *)

Lemma get_status_confined (manager_instance : bool) (mc_server_ip : string)
  (listen_port : Z) (crafty_env : option string) :
  confined status_calls monitor_writes
    (Dashboard.get_status manager_instance mc_server_ip listen_port crafty_env).
Proof.
  assert (Hq : confined status_calls monitor_writes
                 MinecraftMonitor.get_player_count).
  { eapply confined_weaken; [| | apply get_player_count_queries];
      now intros []. }
  unfold Dashboard.get_status, TCPProxy.get_active_connections, get.
  confine; try exact Hq; apply is_running_confined; reflexivity.
Qed.

Section StatusPage.

Variable World : Type.
Variable respond : World -> forall c : ext, Ans c * World.

Lemma get_player_count_answer (w : World) (s : State) :
  exists player_count,
    outcome_of (run respond MinecraftMonitor.get_player_count w s)
    = Returned player_count.
Proof.
  unfold MinecraftMonitor.get_player_count, MinecraftMonitor._get_server,
    MinecraftMonitor.status, get, set.
  cbn [bind try_except run].
  destruct (monitor_server s); cbn [bind try_except run];
    repeat (match goal with
            | |- context [of_sum ?x] => destruct x
            | |- context [of_opt ?x] => destruct x
            end; cbn);
    eexists; reflexivity.
Qed.

(** X9.  The status page only looks.  [get_status] always answers, with
    code 200 or 500, and the code is 500 exactly when the manager is set
    and its status poll of the droplet raised.  It polls the droplet at
    most once, never asks for a power-on or a shutdown, and changes no
    field but the cached lookup of the monitor; while [server_ready] is
    unset it does not query the Minecraft server at all. *)
Theorem get_status_read_only :
  forall (manager_instance : bool) (mc_server_ip : string) (listen_port : Z)
         (crafty_env : option string) (w : World) (s : State),
    let r := run respond
               (Dashboard.get_status manager_instance mc_server_ip listen_port
                  crafty_env) w s in
    (exists resp,
        outcome_of r = Returned resp
        /\ (Dashboard.status_code resp = 200
            \/ Dashboard.status_code resp = 500)
        /\ (Dashboard.status_code resp = 500 <->
            manager_instance = true
            /\ exists e, fst (respond w DropletLoad) = inl e))
    /\ (count is_load (trace_of r) <= 1)%nat
    /\ count is_power_on (trace_of r) = 0%nat
    /\ count is_shutdown (trace_of r) = 0%nat
    /\ apply_upd SetMonitorServer (state_of r) = apply_upd SetMonitorServer s
    /\ (server_ready s = false ->
        count is_probe (trace_of r) = 0%nat /\ state_of r = s).
Proof.
  intros mi ip port env w s r.
  assert (Hc := get_status_confined mi ip port env).
  assert (Hq : count is_load
                 (trace_of (run respond MinecraftMonitor.get_player_count
                              (snd (respond w DropletLoad)) s)) = 0%nat).
  { apply (confined_count respond queries monitor_writes);
      [| apply get_player_count_queries].
    intros [[] ? | ?]; simpl; intros; try discriminate; reflexivity. }
  split; [| split; [| split; [| split; [| split]]]].
  - subst r. unfold Dashboard.get_status, TCPProxy.get_active_connections, get.
    destruct mi; cbn [negb].
    2:{ cbn. eexists. split; [reflexivity |]. cbn.
        split; [now left |]. split; [discriminate | intros [? _]; discriminate]. }
    rewrite run_try_except, run_bind, run_is_running. unfold and_then.
    cbn [outcome_of trace_of world_of state_of].
    destruct (fst (respond w DropletLoad)) as [e | status].
    { cbn. eexists. split; [reflexivity |]. cbn.
      split; [now right |]. split; [intros _ | reflexivity].
      split; [reflexivity | now exists e]. }
    cbn [outcome_of trace_of world_of state_of].
    destruct (status =? "active")%string.
    + cbn [bind run]. destruct (server_ready s).
      * rewrite run_bind. unfold and_then.
        destruct (get_player_count_answer (snd (respond w DropletLoad)) s)
          as (pc & Hpc).
        destruct (run respond MinecraftMonitor.get_player_count _ s)
          as [o w1 s1 tr1].
        cbn [outcome_of trace_of world_of state_of] in *. subst o.
        cbn. eexists. split; [reflexivity |]. cbn.
        split; [now left |].
        split; [discriminate | intros [_ [e He]]; discriminate].
      * cbn. eexists. split; [reflexivity |]. cbn.
        split; [now left |].
        split; [discriminate | intros [_ [e He]]; discriminate].
    + cbn. eexists. split; [reflexivity |]. cbn.
      split; [now left |].
      split; [discriminate | intros [_ [e He]]; discriminate].
  - subst r. unfold Dashboard.get_status, TCPProxy.get_active_connections, get.
    destruct mi; cbn [negb]; [| cbn; lia].
    rewrite run_try_except, run_bind, run_is_running. unfold and_then.
    cbn [outcome_of trace_of world_of state_of].
    destruct (fst (respond w DropletLoad)) as [e | status]; [cbn; lia |].
    cbn [outcome_of trace_of world_of state_of].
    destruct (status =? "active")%string; [| cbn; lia].
    cbn [bind run]. destruct (server_ready s); [| cbn; lia].
    rewrite run_bind. unfold and_then.
    destruct (get_player_count_answer (snd (respond w DropletLoad)) s)
      as (pc & Hpc).
    destruct (run respond MinecraftMonitor.get_player_count _ s)
      as [o w1 s1 tr1].
    cbn [outcome_of trace_of world_of state_of] in *. subst o.
    cbn [run outcome_of trace_of world_of state_of app].
    rewrite app_nil_r. unfold count in *. cbn [filter is_load List.length].
    rewrite Hq. lia.
  - apply (confined_count respond status_calls monitor_writes); [| exact Hc].
    intros [[] ? | ?]; simpl; intros; try discriminate; reflexivity.
  - apply (confined_count respond status_calls monitor_writes); [| exact Hc].
    intros [[] ? | ?]; simpl; intros; try discriminate; reflexivity.
  - apply (confined_preserves respond (apply_upd SetMonitorServer)
             status_calls monitor_writes); [| exact Hc].
    intros [] []; simpl; intros; try discriminate; reflexivity.
  - intros Hready. subst r.
    unfold Dashboard.get_status, TCPProxy.get_active_connections, get.
    destruct mi; cbn [negb]; [| cbn; auto].
    rewrite run_try_except, run_bind, run_is_running. unfold and_then.
    cbn [outcome_of trace_of world_of state_of].
    destruct (fst (respond w DropletLoad)) as [e | status]; [cbn; auto |].
    cbn [outcome_of trace_of world_of state_of].
    destruct (status =? "active")%string; [| cbn; auto].
    cbn [bind run]. rewrite Hready. cbn. auto.
Qed.

(** X10.  A droplet whose status is anything but [active] is shown as
    off: one status poll, no Minecraft query, no change of any field, and
    a body with status [off], no player count and no Crafty URL, also when
    [CRAFTY_URL] is set, beside the address, the port and the connection
    counter of the proxy. *)
Theorem get_status_droplet_off :
  forall (mc_server_ip : string) (listen_port : Z) (crafty_env : option string)
         (w : World) (s : State) (status : string),
    fst (respond w DropletLoad) = inr status ->
    (status =? "active")%string = false ->
    run respond
      (Dashboard.get_status true mc_server_ip listen_port crafty_env) w s
    = mkResult
        (Returned
           (Dashboard.mkStatusResponse
              [("status"%string, Dashboard.JStr "off");
               ("player_count"%string, Dashboard.JNull);
               ("server_ip"%string, Dashboard.JStr mc_server_ip);
               ("tcp_proxy_port"%string, Dashboard.JNum listen_port);
               ("active_connections"%string,
                Dashboard.JNum (active_connections s));
               ("crafty_url"%string, Dashboard.JNull)] 200))
        (snd (respond w DropletLoad)) s [ECall DropletLoad (inr status)].
Proof.
  intros ip port env w s status Hload Hst.
  unfold Dashboard.get_status, TCPProxy.get_active_connections, get.
  cbn [negb].
  rewrite run_try_except, run_bind, run_is_running. unfold and_then.
  cbn [outcome_of trace_of world_of state_of].
  rewrite Hload. cbn [outcome_of trace_of world_of state_of].
  rewrite Hst. reflexivity.
Qed.

(** X11.  A droplet that is [active] is shown as such with code 200,
    whatever the Minecraft server does.  The player count is the answer of
    [get_player_count] when [server_ready] is set and null otherwise; the
    Crafty URL is [CRAFTY_URL] when that is set and not empty, and
    [http://<mc_server_ip>:8443] otherwise. *)
Theorem get_status_droplet_active :
  forall (mc_server_ip : string) (listen_port : Z) (crafty_env : option string)
         (w : World) (s : State),
    fst (respond w DropletLoad) = inr "active"%string ->
    let r := run respond
               (Dashboard.get_status true mc_server_ip listen_port crafty_env)
               w s in
    let q := run respond MinecraftMonitor.get_player_count
               (snd (respond w DropletLoad)) s in
    exists resp player_count,
      outcome_of r = Returned resp
      /\ outcome_of q = Returned player_count
      /\ Dashboard.status_code resp = 200
      /\ field "status" (Dashboard.body resp) = Some (Dashboard.JStr "active")
      /\ field "player_count" (Dashboard.body resp)
         = Some (if server_ready s then Dashboard.json_of_int player_count
                 else Dashboard.JNull)
      /\ field "active_connections" (Dashboard.body resp)
         = Some (Dashboard.JNum (active_connections s))
      /\ (Dashboard.truthy crafty_env = false ->
          field "crafty_url" (Dashboard.body resp)
          = Some (Dashboard.JStr ("http://" ++ mc_server_ip ++ ":8443")))
      /\ (forall url, crafty_env = Some url -> url <> ""%string ->
          field "crafty_url" (Dashboard.body resp)
          = Some (Dashboard.JStr url)).
Proof.
  intros ip port env w s Hload r q. subst r q.
  assert (Hac : active_connections
                  (state_of (run respond MinecraftMonitor.get_player_count
                               (snd (respond w DropletLoad)) s))
                = active_connections s).
  { apply (confined_preserves respond active_connections queries
             monitor_writes); [| apply get_player_count_queries].
    intros [] []; simpl; intros; try discriminate; reflexivity. }
  destruct (get_player_count_answer (snd (respond w DropletLoad)) s)
    as (pc & Hpc).
  unfold Dashboard.get_status, TCPProxy.get_active_connections, get.
  cbn [negb].
  rewrite run_try_except, run_bind, run_is_running. unfold and_then.
  cbn [outcome_of trace_of world_of state_of].
  rewrite Hload. cbn [outcome_of trace_of world_of state_of String.eqb
                        Ascii.eqb Bool.eqb].
  cbn [bind run andb].
  assert (Hurl : forall url, env = Some url -> url <> ""%string ->
                   Dashboard.truthy env = true).
  { intros url -> Hne. cbn. destruct (url =? "")%string eqn:E; [| reflexivity].
    apply String.eqb_eq in E. contradiction. }
  destruct (server_ready s).
  - rewrite run_bind. unfold and_then.
    destruct (run respond MinecraftMonitor.get_player_count _ s)
      as [o w1 s1 tr1].
    cbn [outcome_of trace_of world_of state_of] in *. subst o.
    cbn [run outcome_of]. eexists. exists pc. split; [reflexivity |].
    repeat split; cbn; try reflexivity.
    + now rewrite Hac.
    + now intros ->.
    + intros url Henv Hne. rewrite (Hurl url Henv Hne). cbn. now rewrite Henv.
  - cbn [bind run outcome_of]. eexists. exists pc. split; [reflexivity |].
    repeat split; cbn; try reflexivity; try exact Hpc.
    + now intros ->.
    + intros url Henv Hne. rewrite (Hurl url Henv Hne). cbn. now rewrite Henv.
Qed.

End StatusPage.

Lemma get_status_droplet_off_witness :
  field "crafty_url"
    (match outcome_of
             (run sim_respond
                (Dashboard.get_status true "198.51.100.4" 25565
                   (Some "https://crafty.example"%string)) sim_off
                initial_state) with
     | Returned resp => Dashboard.body resp
     | _ => []
     end)
  = Some Dashboard.JNull.
Proof.
  rewrite (get_status_droplet_off Sim sim_respond "198.51.100.4" 25565
             (Some "https://crafty.example"%string) sim_off initial_state
             "off" eq_refl eq_refl).
  reflexivity.
Defined.

Lemma get_status_droplet_active_witness :
  exists resp,
    outcome_of
      (run sim_respond
         (Dashboard.get_status true "198.51.100.4" 25565 None) sim_up
         initial_state) = Returned resp
    /\ field "crafty_url" (Dashboard.body resp)
       = Some (Dashboard.JStr "http://198.51.100.4:8443").
Proof.
  destruct (get_status_droplet_active Sim sim_respond "198.51.100.4" 25565
              None sim_up initial_state eq_refl)
    as (resp & pc & Hout & _ & _ & _ & _ & _ & Hurl & _).
  exists resp. split; [exact Hout | exact (Hurl eq_refl)].
Defined.

(** ** The relay *)

Lemma relayed_app (client server : sock) (tr tr' : list event) :
  relayed client server tr -> relayed client server tr' ->
  relayed client server (tr ++ tr').
Proof.
  intros [H1 H2] [H3 H4]. split.
  - unfold sent, received in *. rewrite !flat_map_app, H1, H3. reflexivity.
  - unfold sent, received_elsewhere in *.
    rewrite !flat_map_app, H2, H4. reflexivity.
Qed.

Lemma relayed_nil (client server : sock) : relayed client server [].
Proof. split; reflexivity. Qed.

Lemma relayed_chunk (client server s : sock) (data : bytes)
  (a : option exn) (tr : list event) :
  client <> server ->
  data <> [] ->
  relayed client server tr ->
  relayed client server
    (ECall (Recv s) (inr data)
     :: ECall (SendAll (if Nat.eqb s client then server else client) data) a
     :: tr).
Proof.
  intros Hne Hdata [H1 H2]. destruct data as [| b d]; [contradiction |].
  unfold relayed, sent, received, received_elsewhere in *.
  cbn [flat_map app].
  destruct (Nat.eqb s client) eqn:Hs.
  - rewrite Nat.eqb_refl.
    replace (Nat.eqb server client) with false
      by (symmetry; apply Nat.eqb_neq; congruence).
    cbn [app]. split; [f_equal; exact H1 | exact H2].
  - rewrite Nat.eqb_refl.
    replace (Nat.eqb client server) with false
      by (symmetry; apply Nat.eqb_neq; congruence).
    cbn [app]. split; [exact H1 | f_equal; exact H2].
Qed.

Lemma proxy_data_relay_calls (fuel : nat) (client server : sock) :
  confined relay_calls (fun _ => false)
    (TCPProxy._proxy_data fuel client server).
Proof.
  assert (Hf : forall readable,
             confined relay_calls (fun _ => false)
               (TCPProxy.forward client server readable)).
  { induction readable as [| x rest IH]; cbn [TCPProxy.forward];
      [constructor |].
    confine. exact IH. }
  unfold TCPProxy._proxy_data.
  apply confined_try_except; [| constructor].
  induction fuel as [| fuel IH]; cbn [TCPProxy._proxy_data_loop];
    [constructor |].
  unfold get.
  apply confined_bind; [apply confined_read; constructor |].
  intros st. destruct (proxy_running st); [| constructor].
  apply confined_bind; [apply confined_call; auto with confined |].
  intros r. destruct (snd r); [| constructor].
  apply confined_bind; [apply Hf |].
  intros [|]; [constructor | exact IH].
Qed.

Section Relay.

Variable World : Type.
Variable respond : World -> forall c : ext, Ans c * World.

Lemma forward_relayed (client server : sock) (readable : list sock) :
  client <> server ->
  forall (w : World) (s : State),
    relayed client server
      (trace_of (run respond (TCPProxy.forward client server readable) w s)).
Proof.
  intros Hne.
  induction readable as [| x rest IH]; intros w s;
    cbn [TCPProxy.forward]; [apply relayed_nil |].
  cbn [bind try_except_when run emit trace_of].
  destruct (fst (respond w (Recv x))) as [e | data] eqn:Hrecv.
  - cbn [of_sum bind try_except_when].
    destruct (is_socket_error e); cbn; split; reflexivity.
  - cbn [of_sum bind try_except_when].
    destruct data as [| b d]; [cbn; split; reflexivity |].
    assert (Hchunk : forall a tr,
              relayed client server tr ->
              relayed client server
                (ECall (Recv x) (inr (b :: d))
                 :: ECall (SendAll (if Nat.eqb x client then server
                                    else client) (b :: d)) a :: tr))
      by (intros a tr; apply relayed_chunk; [exact Hne | discriminate]).
    destruct (Nat.eqb x client);
      cbn [bind try_except_when run emit trace_of];
      match goal with
      | |- context [of_opt ?a] => destruct a as [e |] eqn:Hsend
      end; cbn [of_opt bind try_except_when];
      try (destruct (is_socket_error e));
      cbn [bind run emit trace_of];
      apply Hchunk; try apply relayed_nil; apply IH.
Qed.

(** The relay loop, before the handler of [_proxy_data]. *)
Lemma proxy_data_loop_relayed (fuel : nat) (client server : sock) :
  client <> server ->
  forall (w : World) (s : State),
    relayed client server
      (trace_of (run respond (TCPProxy._proxy_data_loop fuel client server)
                   w s)).
Proof.
  intros Hne.
  induction fuel as [| fuel IH]; intros w s;
    cbn [TCPProxy._proxy_data_loop]; [apply relayed_nil |].
  unfold get. cbn [bind run].
  destruct (proxy_running s); [| apply relayed_nil].
  cbn [bind run emit trace_of].
  apply (relayed_app client server [_]); [split; reflexivity |].
  destruct (fst (respond w (Select client server))) as [e | r];
    cbn [of_sum bind run trace_of]; [apply relayed_nil |].
  destruct (snd r); [| apply relayed_nil].
  rewrite run_bind. unfold and_then.
  pose proof (forward_relayed client server (fst r) Hne
                (snd (respond w (Select client server))) s) as Hf.
  destruct (run respond (TCPProxy.forward client server (fst r)) _ s)
    as [[[|] | e |] w1 s1 tr1];
    cbn [outcome_of trace_of world_of state_of run] in *;
    rewrite ?app_nil_r; try exact Hf.
  apply relayed_app; [exact Hf | apply IH].
Qed.

(** X12.  [_proxy_data] is a pipe between two distinct sockets: the
    chunks it hands to [server.sendall] are the chunks it received from
    the client, in the order they came, and the chunks it hands to
    [client.sendall] are those it received on the other side.  No
    exception leaves it, it changes no field and closes no socket. *)
Theorem proxy_data_is_a_pipe :
  forall (fuel : nat) (client server : sock) (w : World) (s : State),
    client <> server ->
    let r := run respond (TCPProxy._proxy_data fuel client server) w s in
    sent server (trace_of r) = received client (trace_of r)
    /\ sent client (trace_of r) = received_elsewhere client (trace_of r)
    /\ (forall e, outcome_of r <> Raised e)
    /\ state_of r = s
    /\ count is_close (trace_of r) = 0%nat.
Proof.
  intros fuel client server w s Hne r.
  assert (Hrel : relayed client server (trace_of r)).
  { subst r. unfold TCPProxy._proxy_data. rewrite run_try_except. cbn zeta.
    pose proof (proxy_data_loop_relayed fuel client server Hne w s) as Hl.
    destruct (run respond (TCPProxy._proxy_data_loop fuel client server) w s)
      as [[[] | e |] w1 s1 tr1];
      cbn [outcome_of trace_of world_of state_of run] in *;
      rewrite ?app_nil_r; exact Hl. }
  destruct Hrel as [H1 H2].
  split; [exact H1 | split; [exact H2 | split; [| split]]].
  - subst r. unfold TCPProxy._proxy_data. rewrite run_try_except. cbn zeta.
    destruct (run respond (TCPProxy._proxy_data_loop fuel client server) w s)
      as [[[] | e |] w1 s1 tr1]; cbn; discriminate.
  - apply (confined_preserves respond (fun x => x) relay_calls
             (fun _ => false)); [intros; discriminate |].
    apply proxy_data_relay_calls.
  - apply (confined_count respond relay_calls (fun _ => false));
      [| apply proxy_data_relay_calls].
    intros [[] ? | ?]; simpl; intros; try discriminate; reflexivity.
Qed.

End Relay.

Lemma proxy_data_is_a_pipe_witness :
  sent 4%nat
    (trace_of
       (run chatty_respond (TCPProxy._proxy_data 5 3%nat 4%nat)
          (sim_up, 2%nat) initial_state))
  = [[1; 7]; [0; 7]]%nat.
Proof.
  rewrite (proj1 (proxy_data_is_a_pipe (Sim * nat) chatty_respond 5 3%nat
                    4%nat (sim_up, 2%nat) initial_state
                    ltac:(discriminate))).
  reflexivity.
Defined.

(** ** One session *)

Arguments TCPProxy.relay_try : simpl never.

Section OneSession.

Variable World : Type.
Variable respond : World -> forall c : ext, Ans c * World.

(** X13.  A session that is refused.  When the readiness callback of
    [_handle_connection] answers [False], the client socket is closed
    twice, by the [try] suite and again by the [finally] suite; when the
    callback raises, it is closed once.  Either way the session creates no
    socket and connects to nothing after the callback, takes the counter
    back, and returns. *)
Theorem handle_connection_refused :
  forall (callback : prog bool) (fuel : nat) (client : sock) (a : address)
         (w : World) (s : State),
    let c := run respond callback w (apply_upd IncrActive s) in
    let r := run respond
               (TCPProxy._handle_connection (Some callback) fuel client a)
               w s in
    let k1 := respond (world_of c) (SocketClose client) in
    let k2 := respond (snd k1) (SocketClose client) in
    (outcome_of c = Returned false ->
       outcome_of r = Returned tt
       /\ trace_of r
          = EWrite IncrActive
            :: trace_of c
               ++ [ECall (SocketClose client) (fst k1);
                   ECall (SocketClose client) (fst k2);
                   EWrite DecrActive]
       /\ state_of r = apply_upd DecrActive (state_of c))
    /\ (forall e, outcome_of c = Raised e ->
        outcome_of r = Returned tt
        /\ trace_of r
           = EWrite IncrActive
             :: trace_of c
                ++ [ECall (SocketClose client) (fst k1); EWrite DecrActive]
        /\ state_of r = apply_upd DecrActive (state_of c)).
Proof.
  intros callback fuel client a w s c r k1 k2. subst c r k1 k2.
  unfold TCPProxy._handle_connection, TCPProxy.handle_try, set.
  cbn [bind run]. rewrite run_bind, run_try_except, run_bind.
  unfold and_then.
  destruct (run respond callback w (apply_upd IncrActive s))
    as [o w1 s1 tr1].
  cbn [outcome_of trace_of world_of state_of].
  split.
  - intros ->. cbn [negb bind run emit outcome_of trace_of world_of state_of].
    destruct (fst (respond w1 (SocketClose client))) as [e |] eqn:Hc1;
      cbn [of_opt bind run emit outcome_of trace_of world_of state_of];
      rewrite run_bind, run_close_quietly; unfold and_then;
      cbn [outcome_of trace_of world_of state_of run emit bind];
      rewrite ?app_nil_r, <- ?app_assoc; cbn [app];
      repeat split.
  - intros e ->. cbn [run emit outcome_of trace_of world_of state_of].
    rewrite run_bind, run_close_quietly; unfold and_then;
      cbn [outcome_of trace_of world_of state_of run emit bind];
      rewrite ?app_nil_r, <- ?app_assoc; cbn [app];
      repeat split.
Qed.

Lemma handle_try_created (callback : option (prog bool)) (fuel : nat)
  (client : sock) (w : World) (s : State) (srv : option sock) :
  (forall p, callback = Some p -> confined no_new not_counter p) ->
  let h := run respond (TCPProxy.handle_try callback fuel client) w s in
  outcome_of h = Returned srv ->
  created (trace_of h) = match srv with Some x => [x] | None => [] end.
Proof.
  intros Hcb h. subst h. unfold TCPProxy.handle_try.
  set (p := match callback with Some cb => cb | None => Ret true end).
  assert (Hp : confined no_new not_counter p)
    by (subst p; destruct callback; [now apply Hcb | constructor]).
  rewrite run_try_except, run_bind. unfold and_then.
  pose proof (created_confined no_new not_counter _ eq_refl
                (confined_trace no_new not_counter respond _ Hp w s)) as Hc.
  destruct (run respond p w s) as [[ready | e |] w1 s1 tr1];
    cbn [outcome_of trace_of world_of state_of] in *.
  - destruct ready; cbn [negb].
    + cbn [bind run]. unfold of_sum at 1.
      destruct (fst (respond w1 SocketNew)) as [e | server] eqn:Hnew.
      * cbn. intros [= <-]. now rewrite app_nil_r, created_app, Hc.
      * cbn.
        match goal with
        | |- context [run respond (TCPProxy.relay_try fuel client server)
                        ?w2 s1] =>
          destruct (relay_try_result World respond fuel client server w2 s1)
            as [Hout Hcr];
          destruct (run respond (TCPProxy.relay_try fuel client server) w2 s1)
            as [o3 w3 s3 tr3]
        end.
        cbn in Hout, Hcr |- *.
        destruct Hout as [-> | ->]; cbn; [| discriminate].
        intros [= <-].
        change (ECall SocketNew (inr server) :: tr3)
          with ([ECall SocketNew (inr server)] ++ tr3).
        now rewrite !created_app, Hc, Hcr.
    + cbn [bind run]. unfold of_opt at 1.
      destruct (fst (respond w1 (SocketClose client))); cbn;
        intros [= <-]; now rewrite ?app_nil_r, created_app, Hc.
  - cbn. intros [= <-]. now rewrite app_nil_r.
  - discriminate.
Qed.

Lemma closing_app (tr tr' : list event) :
  closing (tr ++ tr') = closing tr ++ closing tr'.
Proof. apply flat_map_app. Qed.

(** X14.  A session cleans up after itself, whatever its readiness
    callback is, as long as the callback creates no socket and leaves the
    counter alone.  No exception leaves [_handle_connection]; when it
    returns, the counter is what it was before the session, the client
    socket has been closed, and so has every socket the session
    created. *)
Theorem handle_connection_cleans_up :
  forall (callback : option (prog bool)) (fuel : nat) (client : sock)
         (a : address) (w : World) (s : State),
    (forall p, callback = Some p -> confined no_new not_counter p) ->
    let r := run respond
               (TCPProxy._handle_connection callback fuel client a) w s in
    (forall e, outcome_of r <> Raised e)
    /\ (outcome_of r = Returned tt ->
        active_connections (state_of r) = active_connections s
        /\ In client (closing (trace_of r))
        /\ (forall x, In x (created (trace_of r)) ->
                      In x (closing (trace_of r)))
        /\ count is_incr (trace_of r) = 1%nat
        /\ count is_decr (trace_of r) = 1%nat).
Proof.
  intros callback fuel client a w s Hcb r. subst r.
  unfold TCPProxy._handle_connection, set. cbn [bind run].
  rewrite run_bind. unfold and_then.
  assert (Hq : quiet (TCPProxy.handle_try callback fuel client)).
  { apply handle_try_quiet. intros p Hp.
    apply (quiet_weaken no_new not_counter); [auto | now apply Hcb]. }
  assert (Hnr : never_raises (TCPProxy.handle_try callback fuel client))
    by (apply never_raises_try_except; constructor).
  pose proof (never_raises_run World respond _ Hnr w (apply_upd IncrActive s))
    as He.
  pose proof (handle_try_created callback fuel client w
                (apply_upd IncrActive s)) as Hs.
  cbn zeta in Hs.
  assert (Hac : active_connections
                  (state_of (run respond
                               (TCPProxy.handle_try callback fuel client) w
                               (apply_upd IncrActive s)))
                = active_connections (apply_upd IncrActive s)).
  { apply (confined_preserves respond active_connections (fun _ => true)
             not_counter); [| exact Hq].
    intros [] []; simpl; intros; try discriminate; reflexivity. }
  assert (Hi : count is_incr
                 (trace_of (run respond
                              (TCPProxy.handle_try callback fuel client) w
                              (apply_upd IncrActive s))) = 0%nat).
  { apply (confined_count respond (fun _ => true) not_counter); [| exact Hq].
    intros [c x | []]; simpl; intros; try discriminate; reflexivity. }
  assert (Hd : count is_decr
                 (trace_of (run respond
                              (TCPProxy.handle_try callback fuel client) w
                              (apply_upd IncrActive s))) = 0%nat).
  { apply (confined_count respond (fun _ => true) not_counter); [| exact Hq].
    intros [c x | []]; simpl; intros; try discriminate; reflexivity. }
  destruct (run respond (TCPProxy.handle_try callback fuel client) w
              (apply_upd IncrActive s)) as [[srv | e |] w1 s1 mid];
    cbn [outcome_of trace_of world_of state_of emit] in *.
  - rewrite run_bind, run_close_quietly. unfold and_then.
    cbn [outcome_of trace_of world_of state_of].
    rewrite run_bind. unfold and_then.
    specialize (Hs srv Hcb eq_refl).
    assert (Hcount : forall f tl,
               count f (EWrite IncrActive :: mid ++ tl)
               = (count f [EWrite IncrActive] + count f mid + count f tl)%nat).
    { intros f tl. unfold count. cbn [filter].
      destruct (f (EWrite IncrActive)); cbn [List.length];
        rewrite filter_app, length_app; lia. }
    destruct srv as [x |].
    + rewrite run_close_quietly.
      cbn [outcome_of trace_of world_of state_of run emit app].
      split; [discriminate |]. intros _.
      rewrite ?app_nil_r.
      split; [| split; [| split; [| split]]].
      * destruct s1. destruct s. cbn in *. lia.
      * change (EWrite IncrActive :: mid ++ ?tl)
          with ([EWrite IncrActive] ++ mid ++ tl).
        rewrite !closing_app. apply in_or_app. right.
        apply in_or_app. right. now left.
      * change (EWrite IncrActive :: mid ++ ?tl)
          with ([EWrite IncrActive] ++ mid ++ tl).
        rewrite !created_app, !closing_app, Hs.
        intros y Hy. apply in_app_or in Hy. destruct Hy as [[] | Hy].
        apply in_app_or in Hy. destruct Hy as [[<- | []] | []].
        apply in_or_app. right. apply in_or_app. right.
        right. now left.
      * rewrite Hcount, Hi. reflexivity.
      * rewrite Hcount, Hd. reflexivity.
    + cbn [outcome_of trace_of world_of state_of run emit app].
      split; [discriminate |]. intros _.
      rewrite ?app_nil_r.
      split; [| split; [| split; [| split]]].
      * destruct s1. destruct s. cbn in *. lia.
      * change (EWrite IncrActive :: mid ++ ?tl)
          with ([EWrite IncrActive] ++ mid ++ tl).
        rewrite !closing_app. apply in_or_app. right.
        apply in_or_app. right. now left.
      * change (EWrite IncrActive :: mid ++ ?tl)
          with ([EWrite IncrActive] ++ mid ++ tl).
        rewrite !created_app, Hs.
        intros y Hy. apply in_app_or in Hy. destruct Hy as [[] | Hy].
        apply in_app_or in Hy. destruct Hy as [[] | []].
      * rewrite Hcount, Hi. reflexivity.
      * rewrite Hcount, Hd. reflexivity.
  - now destruct (He e).
  - cbn. split; discriminate.
Qed.

End OneSession.

Lemma handle_connection_refused_witness :
  outcome_of
    (run sim_respond (session 61 11%nat ("203.0.113.7"%string, 50000))
       (mkSim 1000 "off" false false false 0 10) initial_state)
  = Returned tt.
Proof.
  exact (proj1 (proj1
    (handle_connection_refused Sim sim_respond
       (MCServerManager.ensure_server_ready 61) 61 11%nat
       ("203.0.113.7"%string, 50000)
       (mkSim 1000 "off" false false false 0 10) initial_state) eq_refl)).
Defined.

Lemma handle_connection_cleans_up_witness :
  active_connections
    (state_of
       (run sim_respond (session 61 11%nat ("203.0.113.7"%string, 50000))
          sim_up initial_state))
  = 0.
Proof.
  refine (proj1 (proj2
    (handle_connection_cleans_up Sim sim_respond
       (Some (MCServerManager.ensure_server_ready 61)) 61 11%nat
       ("203.0.113.7"%string, 50000) sim_up initial_state _) eq_refl)).
  intros p [= <-].
  eapply confined_weaken; [| | apply ensure_server_ready_confined];
    now intros [].
Defined.

(** ** The listener *)

Lemma accept_loop_never_raises
  (callback : option (address -> prog unit)) (fuel : nat) :
  never_raises (TCPProxy.accept_loop callback fuel).
Proof.
  induction fuel as [| fuel IH]; cbn [TCPProxy.accept_loop];
    [constructor |].
  unfold get. cbn [bind]. constructor. intros st.
  destruct (proxy_running st); [| constructor].
  apply never_raises_bind; [| intros; exact IH].
  apply never_raises_try_except. intros e.
  destruct (is_socket_timeout e); [constructor |].
  cbn [bind]. constructor. intros st2.
  destruct (proxy_running st2); constructor.
Qed.

Section ListenerFaults.

Variable World : Type.
Variable respond : World -> forall c : ext, Ans c * World.

(** X15.  The accept loop outlives its hook.  No exception leaves
    [accept_loop], whatever the hook does.  When the hook raises on an
    accepted connection, the round ends there: no thread is started for
    the connection and its socket is not closed, and the loop goes on from
    where the hook stopped. *)
Theorem accept_loop_drops_connection :
  forall (callback : address -> prog unit) (fuel : nat) (w : World)
         (s : State) (ls client : sock) (a : address) (e : exn),
    proxy_running s = true ->
    server_socket s = Some ls ->
    fst (respond w (SocketAccept ls)) = inr (client, a) ->
    let h := run respond (callback a) (snd (respond w (SocketAccept ls))) s in
    outcome_of h = Raised e ->
    let rest := run respond (TCPProxy.accept_loop (Some callback) fuel)
                  (world_of h) (state_of h) in
    run respond (TCPProxy.accept_loop (Some callback) (S fuel)) w s
    = mkResult (outcome_of rest) (world_of rest) (state_of rest)
        (ECall (SocketAccept ls) (inr (client, a))
         :: trace_of h ++ trace_of rest)
    /\ (forall e', outcome_of rest <> Raised e').
Proof.
  intros callback fuel w s ls client a e Hrun Hsock Hacc h Hraise rest.
  subst h rest. split.
  - cbn [TCPProxy.accept_loop].
    unfold get. cbn [bind run]. rewrite Hrun.
    rewrite run_bind, run_try_except. cbn [run]. rewrite Hsock.
    unfold of_sum. cbn [bind run]. rewrite Hacc. cbn [bind fst snd].
    rewrite run_bind.
    unfold and_then; cbn [emit trace_of outcome_of world_of state_of].
    destruct (run respond (callback a) (snd (respond w (SocketAccept ls))) s)
      as [o w' s' tr].
    cbn [outcome_of] in Hraise. subst o.
    cbn [emit trace_of outcome_of world_of state_of app].
    destruct (is_socket_timeout e);
      cbn [bind run emit trace_of outcome_of world_of state_of app];
      try destruct (proxy_running s');
      cbn [run emit trace_of outcome_of world_of state_of app];
      rewrite ?app_nil_r;
      destruct (run respond (TCPProxy.accept_loop (Some callback) fuel) w' s')
        as [o2 w2 s2 tr2]; reflexivity.
  - apply never_raises_run. apply accept_loop_never_raises.
Qed.

End ListenerFaults.

Lemma accept_loop_drops_connection_witness :
  let s := mkState None false false 15 true (Some 3%nat) 0 false in
  trace_of
    (run flaky_respond
       (TCPProxy.accept_loop (Some (MCServerManager.on_connection_attempt 70))
          1) (sim_off, 0%nat) s)
  = [ECall (SocketAccept 3%nat) (inr (10%nat, ("203.0.113.7"%string, 50000)));
     ECall Now 1000000000;
     EWrite (SetLastActivity (Some 1000000000));
     ECall DropletLoad (inl (Error "API error"))].
Proof.
  intros s.
  rewrite (proj1
    (accept_loop_drops_connection (Sim * nat) flaky_respond
       (MCServerManager.on_connection_attempt 70) 0 (sim_off, 0%nat) s
       3%nat 10%nat ("203.0.113.7"%string, 50000) (Error "API error")
       eq_refl eq_refl eq_refl eq_refl)).
  reflexivity.
Defined.

Section ListenerStart.

Variable World : Type.
Variable respond : World -> forall c : ext, Ans c * World.

(** X16.  A listener that cannot bind.  When [bind], [listen] or
    [settimeout] raises on the socket that [_listen] has just created, the
    method accepts nothing and closes that socket; it returns unless the
    close raises too.  [running] stays as it was and [server_socket] keeps
    the closed socket: the proxy goes on looking started. *)
Theorem listen_bind_failure :
  forall (callback : option (address -> prog unit)) (fuel : nat)
         (w : World) (s : State) (x : sock) (e : exn),
    fst (respond w SocketNew) = inr x ->
    let w1 := snd (respond w SocketNew) in
    fst (respond w1 (SocketBind x)) = Some e ->
    let k := respond (snd (respond w1 (SocketBind x))) (SocketClose x) in
    run respond (TCPProxy._listen callback fuel) w s
    = mkResult
        (match fst k with None => Returned tt | Some e' => Raised e' end)
        (snd k)
        (apply_upd (SetServerSocket (Some x)) s)
        [ECall SocketNew (inr x);
         EWrite (SetServerSocket (Some x));
         ECall (SocketBind x) (Some e);
         ECall (SocketClose x) (fst k)].
Proof.
  intros callback fuel w s x e Hnew w1 Hbind k. subst w1 k.
  unfold TCPProxy._listen, set, get.
  rewrite run_try_finally, run_try_except.
  cbn [bind run]. rewrite Hnew. cbn [of_sum bind run emit].
  rewrite Hbind.
  cbn [of_opt bind run emit outcome_of trace_of world_of state_of app].
  destruct s as [la sp sr it pr ss ac ms].
  cbn [apply_upd server_socket run emit outcome_of trace_of world_of
         state_of app].
  destruct (fst (respond (snd (respond (snd (respond w SocketNew))
                                 (SocketBind x))) (SocketClose x)));
    reflexivity.
Qed.

(** X17.  [stop] clears [running], closes the listening socket if there
    is one, swallowing what the close raises, and touches nothing else.
    From the fields it leaves, the accept loop and the relay loop of a
    session return at their next test of [running], without a call. *)
Theorem stop_ends_the_loops :
  forall (w : World) (s : State),
    let r := run respond TCPProxy.stop w s in
    outcome_of r = Returned tt
    /\ state_of r = apply_upd (SetProxyRunning false) s
    /\ trace_of r
       = EWrite (SetProxyRunning false)
         :: match server_socket s with
            | Some x => [ECall (SocketClose x) (fst (respond w (SocketClose x)))]
            | None => []
            end
    /\ (forall callback fuel w',
          run respond (TCPProxy.accept_loop callback (S fuel)) w' (state_of r)
          = mkResult (Returned tt) w' (state_of r) [])
    /\ (forall fuel client server w',
          run respond (TCPProxy._proxy_data (S fuel) client server) w'
            (state_of r)
          = mkResult (Returned tt) w' (state_of r) []).
Proof.
  intros w s r.
  assert (Hs : state_of r = apply_upd (SetProxyRunning false) s
               /\ outcome_of r = Returned tt
               /\ trace_of r
                  = EWrite (SetProxyRunning false)
                    :: match server_socket s with
                       | Some x =>
                         [ECall (SocketClose x)
                            (fst (respond w (SocketClose x)))]
                       | None => []
                       end).
  { subst r. unfold TCPProxy.stop, set, get. cbn [bind run].
    destruct s as [la sp sr it pr [x |] ac ms];
      cbn [apply_upd server_socket bind].
    - rewrite run_bind, run_close_quietly. cbn. auto.
    - cbn. auto. }
  destruct Hs as (Hst & Hout & Htr).
  split; [exact Hout | split; [exact Hst | split; [exact Htr |]]].
  rewrite Hst.
  assert (Hpr : proxy_running (apply_upd (SetProxyRunning false) s) = false)
    by now destruct s.
  split.
  - intros callback fuel w'. cbn [TCPProxy.accept_loop]. unfold get.
    cbn [bind run]. rewrite Hpr. reflexivity.
  - intros fuel client server w'. unfold TCPProxy._proxy_data.
    cbn [TCPProxy._proxy_data_loop]. unfold get.
    cbn [bind try_except run]. rewrite Hpr. reflexivity.
Qed.

End ListenerStart.

Lemma listen_bind_failure_witness :
  proxy_running
    (state_of (run port_taken_respond (listener 70) sim_off initial_state))
  = true
  /\ count is_accept
       (trace_of (run port_taken_respond (listener 70) sim_off initial_state))
     = 0%nat.
Proof.
  unfold listener.
  rewrite (listen_bind_failure Sim port_taken_respond
             (Some (MCServerManager.on_connection_attempt 70)) 70 sim_off
             initial_state 10%nat (SocketError "Address already in use")
             eq_refl eq_refl).
  split; reflexivity.
Defined.

(** ** The manual start and stop, past their first test *)

Section ManualPaths.

Variable World : Type.
Variable respond : World -> forall c : ext, Ans c * World.

(** X18.  The manual stop on a droplet that is [active].  Whenever
    [stop_droplet] returns, also with [False] after a shutdown request
    that raised, the page answers "Server shutdown initiated." with code
    200 and [server_ready] and [last_activity_time] are cleared.  When
    [stop_droplet] raises, the answer is the error with code 500 and no
    field has changed. *)
Theorem manual_stop_running :
  forall (w : World) (s : State),
    fst (respond w DropletLoad) = inr "active"%string ->
    let w1 := snd (respond w DropletLoad) in
    let d := run respond DigitalOceanManager.stop_droplet w1 s in
    let r := run respond (WebServer.stop_server true) w s in
    let done := WebServer.mkResponse true "Server shutdown initiated." 200 in
    (forall stopped : bool,
        outcome_of d = Returned stopped ->
        outcome_of r = Returned done
        /\ state_of r
           = apply_upd (SetLastActivity None) (apply_upd (SetReady false) s)
        /\ trace_of r
           = ECall DropletLoad (inr "active"%string)
             :: trace_of d
                ++ [EWrite (SetReady false); EWrite (SetLastActivity None)])
    /\ (forall (status : string) (e : exn),
           fst (respond w1 DropletLoad) = inr status ->
           (status =? "off")%string = false ->
           fst (respond (snd (respond w1 DropletLoad)) DropletShutdown)
           = Some e ->
           outcome_of r = Returned done)
    /\ (forall e : exn,
           outcome_of d = Raised e ->
           outcome_of r
           = Returned (WebServer.mkResponse false ("Error: " ++ str e) 500)
           /\ state_of r = s).
Proof.
  intros w s Hload w1 d r done.
  assert (Hs : state_of d = s).
  { apply (confined_preserves respond (fun x => x) stops_droplet
             (fun _ => false)); [intros; discriminate |].
    apply stop_droplet_confined. }
  assert (Hr : r = match outcome_of d with
                   | Returned _ =>
                     mkResult (Returned done) (world_of d)
                       (apply_upd (SetLastActivity None)
                          (apply_upd (SetReady false) s))
                       (ECall DropletLoad (inr "active"%string)
                        :: trace_of d
                           ++ [EWrite (SetReady false);
                               EWrite (SetLastActivity None)])
                   | Raised e =>
                     mkResult
                       (Returned
                          (WebServer.mkResponse false ("Error: " ++ str e) 500))
                       (world_of d) s
                       (ECall DropletLoad (inr "active"%string) :: trace_of d)
                   | OutOfFuel =>
                     mkResult OutOfFuel (world_of d) s
                       (ECall DropletLoad (inr "active"%string) :: trace_of d)
                   end).
  { subst r. unfold WebServer.stop_server. cbn [negb].
    rewrite run_try_except, run_bind, run_is_running. unfold and_then.
    cbn [outcome_of trace_of world_of state_of].
    rewrite Hload. cbn [outcome_of trace_of world_of state_of String.eqb
                          Ascii.eqb Bool.eqb negb].
    rewrite run_bind. unfold and_then. fold w1. fold d.
    destruct d as [[ok | e |] w2 s2 tr2];
      cbn [outcome_of trace_of world_of state_of] in *; subst s2;
      unfold set;
      cbn [bind run emit outcome_of trace_of world_of state_of app];
      rewrite ?app_nil_r; reflexivity. }
  split; [| split].
  - intros stopped Hd. rewrite Hr, Hd. now cbn.
  - intros status e Hl2 Hoff Hshut. rewrite Hr.
    assert (Hd : outcome_of d = Returned false).
    { subst d. unfold DigitalOceanManager.stop_droplet,
        DigitalOceanManager.load.
      cbn [bind run emit outcome_of]. rewrite Hl2. cbn [of_sum bind].
      rewrite Hoff, run_try_except. cbn [bind run emit outcome_of].
      rewrite Hshut. reflexivity. }
    now rewrite Hd.
  - intros e Hd. rewrite Hr, Hd. now cbn.
Qed.

(** X19.  The manual start on a droplet that is not [active] calls
    [MCServerManager.start_server] and answers once that call is over.
    It answers "Server start initiated" whenever the call returns: also
    when the call found its guard set and started nothing, and also when
    the power-on request raised.  Only an exception of the call, that of
    a status poll, gives the error answer with code 500. *)
Theorem manual_start_not_running :
  forall (fuel : nat) (w : World) (s : State) (status : string),
    fst (respond w DropletLoad) = inr status ->
    (status =? "active")%string = false ->
    let w1 := snd (respond w DropletLoad) in
    let m := run respond (MCServerManager.start_server fuel) w1 s in
    let r := run respond (WebServer.start_server true fuel) w s in
    let done :=
      WebServer.mkResponse true
        "Server start initiated. Please wait 1-2 minutes for Minecraft to boot."
        200 in
    trace_of r = ECall DropletLoad (inr status) :: trace_of m
    /\ state_of r = state_of m
    /\ (outcome_of m = Returned tt -> outcome_of r = Returned done)
    /\ (forall e : exn,
           outcome_of m = Raised e ->
           outcome_of r
           = Returned (WebServer.mkResponse false ("Error: " ++ str e) 500))
    /\ (startup_in_progress s = true ->
        r = mkResult (Returned done) w1 s [ECall DropletLoad (inr status)])
    /\ (forall (status' : string) (e : exn),
           startup_in_progress s = false ->
           fst (respond w1 DropletLoad) = inr status' ->
           (status' =? "active")%string = false ->
           fst (respond (snd (respond w1 DropletLoad)) DropletPowerOn)
           = Some e ->
           outcome_of r = Returned done).
Proof.
  intros fuel w s status Hload Hst w1 m r done.
  assert (Hr : r = match outcome_of m with
                   | Returned _ =>
                     mkResult (Returned done) (world_of m) (state_of m)
                       (ECall DropletLoad (inr status) :: trace_of m)
                   | Raised e =>
                     mkResult
                       (Returned
                          (WebServer.mkResponse false ("Error: " ++ str e) 500))
                       (world_of m) (state_of m)
                       (ECall DropletLoad (inr status) :: trace_of m)
                   | OutOfFuel =>
                     mkResult OutOfFuel (world_of m) (state_of m)
                       (ECall DropletLoad (inr status) :: trace_of m)
                   end).
  { subst r. unfold WebServer.start_server. cbn [negb].
    rewrite run_try_except, run_bind, run_is_running. unfold and_then.
    cbn [outcome_of trace_of world_of state_of].
    rewrite Hload. cbn [outcome_of trace_of world_of state_of].
    rewrite Hst. rewrite run_bind. unfold and_then. fold w1. fold m.
    destruct m as [[[] | e |] w2 s2 tr2];
      cbn [bind run emit outcome_of trace_of world_of state_of app];
      rewrite ?app_nil_r; reflexivity. }
  split; [| split; [| split; [| split; [| split]]]].
  - rewrite Hr. destruct (outcome_of m); reflexivity.
  - rewrite Hr. destruct (outcome_of m); reflexivity.
  - intros Hm. rewrite Hr, Hm. reflexivity.
  - intros e Hm. rewrite Hr, Hm. reflexivity.
  - intros Hguard. rewrite Hr. subst m.
    unfold MCServerManager.start_server, get. cbn [bind run].
    rewrite Hguard. reflexivity.
  - intros status' e Hguard Hl2 Hst2 Hpow. rewrite Hr. subst m.
    rewrite (run_start_server World respond fuel w1 s Hguard). cbn zeta.
    destruct (run_start_droplet_off World respond fuel w1
                (apply_upd (SetReady false) (apply_upd (SetStartup true) s))
                status' Hl2 Hst2) as [_ Hd].
    cbn zeta in Hd. rewrite (Hd e Hpow). reflexivity.
Qed.

(** X20.  The two manual endpoints always answer: no exception leaves
    them.  Before [init_web_server] they answer "Manager not initialized"
    with code 500 and call nothing; when the first status poll of the
    droplet raises they answer the text of the exception with code 500,
    and nothing has been started, stopped or changed. *)
Theorem manual_endpoints_contained :
  forall (manager_instance : bool) (fuel : nat) (w : World) (s : State),
    let a := run respond (WebServer.start_server manager_instance fuel) w s in
    let b := run respond (WebServer.stop_server manager_instance) w s in
    (forall e, outcome_of a <> Raised e)
    /\ (forall e, outcome_of b <> Raised e)
    /\ (manager_instance = false ->
        a = mkResult
              (Returned (WebServer.mkResponse false "Manager not initialized"
                           500)) w s []
        /\ b = mkResult
                 (Returned (WebServer.mkResponse false
                              "Manager not initialized" 500)) w s [])
    /\ (forall e : exn,
           manager_instance = true ->
           fst (respond w DropletLoad) = inl e ->
           a = mkResult
                 (Returned (WebServer.mkResponse false ("Error: " ++ str e) 500))
                 (snd (respond w DropletLoad)) s [ECall DropletLoad (inl e)]
           /\ b = a).
Proof.
  intros mi fuel w s a b. subst a b.
  split; [| split; [| split]].
  - apply never_raises_run. unfold WebServer.start_server.
    apply never_raises_try_except. constructor.
  - apply never_raises_run. unfold WebServer.stop_server.
    apply never_raises_try_except. constructor.
  - intros ->. split; reflexivity.
  - intros e -> Hload.
    unfold WebServer.start_server, WebServer.stop_server. cbn [negb].
    rewrite !run_try_except, !run_bind, !run_is_running. unfold and_then.
    cbn [outcome_of trace_of world_of state_of].
    rewrite Hload. cbn. split; reflexivity.
Qed.

End ManualPaths.

Lemma manual_stop_running_witness :
  server_ready
    (state_of
       (run sim_respond (WebServer.stop_server true) sim_up
          (mkState (Some 5) false true 15 true None 0 false)))
  = false.
Proof.
  rewrite (proj1 (proj2
    (proj1 (manual_stop_running Sim sim_respond sim_up
              (mkState (Some 5) false true 15 true None 0 false) eq_refl)
       true eq_refl))).
  reflexivity.
Defined.

Lemma manual_start_not_running_witness :
  outcome_of
    (run sim_respond (WebServer.start_server true 70) sim_broken initial_state)
  = Returned
      (WebServer.mkResponse true
         "Server start initiated. Please wait 1-2 minutes for Minecraft to boot."
         200).
Proof.
  exact (proj2 (proj2 (proj2 (proj2 (proj2
    (manual_start_not_running Sim sim_respond 70 sim_broken initial_state
       "off" eq_refl eq_refl))))) "off"%string (Error "power_on failed")
    eq_refl eq_refl eq_refl eq_refl).
Defined.

Lemma manual_endpoints_contained_witness :
  run flaky_respond (WebServer.stop_server true) (sim_up, 0%nat) initial_state
  = run flaky_respond (WebServer.start_server true 70) (sim_up, 0%nat)
      initial_state.
Proof.
  exact (proj2 (proj2 (proj2 (proj2
    (manual_endpoints_contained (Sim * nat) flaky_respond true 70
       (sim_up, 0%nat) initial_state))) (Error "API error") eq_refl eq_refl)).
Defined.

(** ** What a tick leaves alone *)

Lemma announced_bind_quiet {A R : Type} (f : ext -> bool) (P : R -> Prop)
  (p : prog A) (g : A -> prog R) :
  confined (fun c => negb (f c)) (fun _ => true) p ->
  (forall a, announced f P (g a)) ->
  announced f P (bind p g).
Proof.
  intros Hp Hg.
  induction Hp as [r | e | | c k Hc Hk IH | k Hk IH | u k Hu Hk IH];
    cbn [bind].
  - apply Hg.
  - constructor.
  - constructor.
  - apply announced_call_no; [now apply negb_true_iff | exact IH].
  - apply announced_read. exact IH.
  - apply announced_write. exact IH.
Qed.

Lemma returns_announced {R : Type} (f : ext -> bool) (P : R -> Prop)
  (p : prog R) :
  returns P p -> announced f P p.
Proof.
  induction 1 as [r Hr | e | | c k Hk IH | k Hk IH | u k Hk IH].
  - constructor.
  - constructor.
  - constructor.
  - destruct (f c) eqn:Hf;
      [now apply announced_call_yes | now apply announced_call_no].
  - apply announced_read. exact IH.
  - apply announced_write. exact IH.
Qed.

Lemma announced_run {World : Type}
  (respond : World -> forall c : ext, Ans c * World)
  {R : Type} (f : ext -> bool) (g : event -> bool) (P : R -> Prop)
  (p : prog R) :
  (forall c a, g (ECall c a) = true -> f c = true) ->
  (forall u, g (EWrite u) = false) ->
  announced f P p ->
  forall w s x,
    outcome_of (run respond p w s) = Returned x ->
    ~ P x ->
    count g (trace_of (run respond p w s)) = 0%nat.
Proof.
  intros Hg Hu Hp.
  induction Hp as [r | e | | c k Hf Hk | c k Hf Hk IH | k Hk IH | u k Hk IH];
    intros w s x; cbn [run emit outcome_of trace_of];
    try discriminate; try reflexivity.
  - intros Hout Hx. exfalso. apply Hx.
    exact (returns_run World respond P _ (Hk _) _ _ _ Hout).
  - intros Hout Hx. unfold count in *. cbn [filter].
    destruct (g (ECall c (fst (respond w c)))) eqn:Hgc.
    + apply Hg in Hgc. congruence.
    + eapply IH; eauto.
  - apply IH.
  - intros Hout Hx. unfold count in *. cbn [filter]. rewrite Hu.
    eapply IH; eauto.
Qed.

(** A property of the fields that no write of [p] establishes held
    before [p] if it holds after. *)
Lemma confined_reflects {World : Type}
  (respond : World -> forall c : ext, Ans c * World)
  {A : Type} (Q : State -> Prop) okc oku (p : prog A) :
  (forall u s, oku u = true -> Q (apply_upd u s) -> Q s) ->
  confined okc oku p ->
  forall w s, Q (state_of (run respond p w s)) -> Q s.
Proof.
  intros HQ.
  induction 1 as [r | e | | c k Hc Hk IH | k Hk IH | u k Hu Hk IH];
    intros w s; cbn [run emit state_of]; auto.
  - apply IH.
  - apply IH.
  - intros Hafter. apply (HQ u); [exact Hu |]. now apply (IH w).
Qed.

Lemma check_inactivity_confined :
  confined tick_calls tick_writes MCServerManager.check_inactivity.
Proof.
  unfold MCServerManager.check_inactivity, TCPProxy.get_active_connections,
    timedelta, get, now, set.
  confine;
    first [ apply is_running_confined; reflexivity
          | eapply confined_weaken; [| | apply is_server_online_queries];
            now intros []
          | eapply confined_weaken; [| | apply get_player_count_queries];
            now intros []
          | eapply confined_weaken; [| | apply stop_droplet_confined];
            now intros [] ].
Qed.

Lemma check_inactivity_announced :
  announced is_shutdown_call (fun a => a = TimeoutExceeded)
    MCServerManager.check_inactivity.
Proof.
  assert (Hq : forall (A : Type) (p : prog A),
             confined queries monitor_writes p ->
             confined (fun c => negb (is_shutdown_call c)) (fun _ => true) p).
  { intros A p. apply confined_weaken; [now intros [] | auto]. }
  unfold MCServerManager.check_inactivity, TCPProxy.get_active_connections,
    get, now, set.
  apply announced_bind_quiet; [apply is_running_confined; reflexivity |].
  intros running. destruct (negb running); cbn [bind];
    [repeat constructor |].
  constructor. intros st. destruct (0 <? active_connections st).
  { apply announced_call_no; [reflexivity |]. intros t.
    repeat constructor. }
  apply announced_bind_quiet; [apply Hq, is_server_online_queries |].
  intros online. destruct (negb online); [constructor |].
  apply announced_bind_quiet; [apply Hq, get_player_count_queries |].
  intros [n |]; [| constructor].
  destruct (0 <? n).
  { apply announced_call_no; [reflexivity |]. intros t.
    repeat constructor. }
  cbn [bind]. constructor. intros s1.
  destruct (last_activity_time s1).
  2:{ apply announced_call_no; [reflexivity |]. intros t.
      repeat constructor. }
  apply announced_call_no; [reflexivity |]. intros t.
  constructor. intros s2. destruct (last_activity_time s2); [| constructor].
  constructor. intros s3. unfold timedelta.
  destruct (in_timedelta (minutes (inactivity_timeout s3)));
    [| constructor].
  cbn [bind].
  destruct (minutes (inactivity_timeout s3) <=? t - z0).
  - apply returns_announced. apply returns_bind. intros _.
    repeat constructor.
  - destruct (in_timedelta (minutes (inactivity_timeout s3) - (t - z0)));
      constructor.
Qed.

Section TickFrame.

Variable World : Type.
Variable respond : World -> forall c : ext, Ans c * World.

(** X21.  What a tick never does.  [check_inactivity] never asks for a
    power-on, and a tick that returns anything but [TimeoutExceeded] has
    not asked for a shutdown.  It leaves the start-up guard, the connection
    counter, the [running] flag of the proxy and the timeout alone, and it
    never sets [server_ready]: the flag is set after a tick only if it was
    set before. *)
Theorem check_inactivity_frame :
  forall (w : World) (s : State),
    let r := run respond MCServerManager.check_inactivity w s in
    count is_power_on (trace_of r) = 0%nat
    /\ (forall a : Action,
           outcome_of r = Returned a -> a <> TimeoutExceeded ->
           count is_shutdown (trace_of r) = 0%nat)
    /\ startup_in_progress (state_of r) = startup_in_progress s
    /\ active_connections (state_of r) = active_connections s
    /\ proxy_running (state_of r) = proxy_running s
    /\ inactivity_timeout (state_of r) = inactivity_timeout s
    /\ (server_ready (state_of r) = true -> server_ready s = true).
Proof.
  intros w s r. subst r.
  assert (Hc := check_inactivity_confined).
  split; [| split; [| split; [| split; [| split; [| split]]]]].
  - apply (confined_count respond tick_calls tick_writes); [| exact Hc].
    intros [[] ? | ?]; simpl; intros; try discriminate; reflexivity.
  - intros a Hout Ha.
    apply (announced_run respond is_shutdown_call is_shutdown
             (fun a => a = TimeoutExceeded) _) with (x := a);
      [| | apply check_inactivity_announced | exact Hout | exact Ha].
    + intros [] ?; simpl; intros; try discriminate; reflexivity.
    + reflexivity.
  - apply (confined_preserves respond startup_in_progress tick_calls
             tick_writes); [| exact Hc].
    intros [] []; simpl; intros; try discriminate; reflexivity.
  - apply (confined_preserves respond active_connections tick_calls
             tick_writes); [| exact Hc].
    intros [] []; simpl; intros; try discriminate; reflexivity.
  - apply (confined_preserves respond proxy_running tick_calls
             tick_writes); [| exact Hc].
    intros [] []; simpl; intros; try discriminate; reflexivity.
  - apply (confined_preserves respond inactivity_timeout tick_calls
             tick_writes); [| exact Hc].
    intros [] []; simpl; intros; try discriminate; reflexivity.
  - apply (confined_reflects respond (fun x => server_ready x = true)
             tick_calls tick_writes); [| exact Hc].
    intros u st Hu Hq. destruct u as [t | b | b | b | x | | |];
      destruct st; simpl in *; try discriminate; auto.
    destruct b; discriminate.
Qed.

End TickFrame.

Lemma check_inactivity_frame_witness :
  count is_shutdown
    (trace_of (run sim_respond MCServerManager.check_inactivity sim_up
                 initial_state))
  = 0%nat.
Proof.
  exact (proj1 (proj2
    (check_inactivity_frame Sim sim_respond sim_up initial_state))
    StartIdleTimer eq_refl ltac:(discriminate)).
Defined.

(** ** What a start attempt leaves alone *)

Section StartFrame.

Variable World : Type.
Variable respond : World -> forall c : ext, Ans c * World.

Lemma start_droplet_power_on_once (fuel : nat) (w : World) (s : State) :
  (count is_power_on
     (trace_of (run respond (DigitalOceanManager.start_droplet fuel) w s))
   <= 1)%nat.
Proof.
  assert (Hwait : forall st w',
    count is_power_on
      (trace_of (run respond (DigitalOceanManager.start_droplet_wait fuel st)
                   w' s)) = 0%nat).
  { intros st w'.
    apply (confined_count respond polls_droplet (fun _ => false));
      [| apply start_droplet_wait_polls].
    intros [[] ? | ?]; simpl; intros; try discriminate; reflexivity. }
  rewrite run_start_droplet. cbn zeta.
  destruct (fst (respond w DropletLoad)) as [e | status]; [cbn; lia |].
  destruct (status =? "active")%string; [cbn; lia |].
  destruct (fst (respond (snd (respond w DropletLoad)) DropletPowerOn));
    [cbn; lia |].
  cbn [trace_of]. unfold count in *. cbn [filter is_power_on List.length].
  rewrite Hwait. lia.
Qed.

(** X22.  A call of [start_server] that finds the guard set returns at
    once and does nothing.  A start attempt that is over has cleared
    [server_ready], also when the droplet was active already, and has
    left every other field as it was.  An attempt asks for a power-on at
    most once and never for a shutdown, and the only exception it lets out
    is that of its first status poll. *)
Theorem start_server_frame :
  forall (fuel : nat) (w : World) (s : State),
    let r := run respond (MCServerManager.start_server fuel) w s in
    (startup_in_progress s = true -> r = mkResult (Returned tt) w s [])
    /\ (startup_in_progress s = false -> outcome_of r <> OutOfFuel ->
        state_of r = apply_upd (SetReady false) s)
    /\ (count is_power_on (trace_of r) <= 1)%nat
    /\ count is_shutdown (trace_of r) = 0%nat
    /\ (forall e, outcome_of r = Raised e ->
          fst (respond w DropletLoad) = inl e).
Proof.
  intros fuel w s r. subst r.
  destruct (startup_in_progress s) eqn:Hguard.
  { unfold MCServerManager.start_server, get. cbn [bind run].
    rewrite Hguard. cbn.
    repeat split; try discriminate; auto. }
  rewrite (run_start_server World respond fuel w s Hguard). cbn zeta.
  set (s1 := apply_upd (SetReady false) (apply_upd (SetStartup true) s)).
  pose proof (start_droplet_power_on_once fuel w s1) as Hp.
  assert (Hsd : count is_shutdown
                  (trace_of (run respond
                               (DigitalOceanManager.start_droplet fuel) w s1))
                = 0%nat).
  { apply (confined_count respond starts_droplet (fun _ => false));
      [| apply start_droplet_confined].
    intros [[] ? | ?]; simpl; intros; try discriminate; reflexivity. }
  assert (Hs : state_of (run respond (DigitalOceanManager.start_droplet fuel)
                           w s1) = s1).
  { apply (confined_preserves respond (fun x => x) starts_droplet
             (fun _ => false)); [intros; discriminate |].
    apply start_droplet_confined. }
  assert (Hraise : forall e,
             outcome_of (run respond (DigitalOceanManager.start_droplet fuel)
                           w s1) = Raised e ->
             fst (respond w DropletLoad) = inl e).
  { intros e. rewrite run_start_droplet. cbn zeta.
    destruct (fst (respond w DropletLoad)) as [e' | status];
      [now intros [= ->] |].
    destruct (status =? "active")%string; [discriminate |].
    destruct (fst (respond (snd (respond w DropletLoad)) DropletPowerOn));
      [discriminate |].
    cbn [outcome_of].
    destruct (outcome_of (run respond
                (DigitalOceanManager.start_droplet_wait fuel _) _ s1));
      discriminate. }
  assert (Hcount : forall f tr,
             f (EWrite (SetStartup true)) = false ->
             f (EWrite (SetReady false)) = false ->
             f (EWrite (SetStartup false)) = false ->
             count f (EWrite (SetStartup true) :: EWrite (SetReady false)
                      :: tr ++ [EWrite (SetStartup false)]) = count f tr
             /\ count f (EWrite (SetStartup true) :: EWrite (SetReady false)
                         :: tr) = count f tr).
  { intros f tr H1 H2 H3. unfold count. cbn [filter]. rewrite H1, H2.
    rewrite filter_app. cbn [filter]. rewrite H3, app_nil_r. now split. }
  destruct (run respond (DigitalOceanManager.start_droplet fuel) w s1)
    as [[ok | e |] w' s' tr];
    cbn [emit outcome_of trace_of world_of state_of] in *; subst s';
    (split; [discriminate |]);
    (split; [intros _ Hne; try (now destruct Hne) |]);
    try (split; [| split]);
    try (now subst s1; destruct s; cbn in *; subst);
    try (rewrite (proj1 (Hcount _ tr eq_refl eq_refl eq_refl)); assumption);
    try (rewrite (proj2 (Hcount _ tr eq_refl eq_refl eq_refl)); assumption);
    try discriminate.
  intros e' [= <-]. now apply Hraise.
Qed.

End StartFrame.

Lemma start_server_frame_witness :
  let s := mkState (Some 5) false true 15 true None 0 false in
  state_of (run sim_respond (MCServerManager.start_server 70) sim_up s)
  = apply_upd (SetReady false) s.
Proof.
  intros s.
  exact (proj1 (proj2 (start_server_frame Sim sim_respond 70 sim_up s))
           eq_refl ltac:(vm_compute; discriminate)).
Defined.

(** ** How the listener ends *)

Section ListenerEnd.

Variable World : Type.
Variable respond : World -> forall c : ext, Ans c * World.

(** X23.  When [_listen] is over, the listening socket has been closed
    last: if [server_socket] is set, the last call of the method is the
    close of that socket, and the method returns when the close succeeds
    and raises what the close raised otherwise.  No other exception leaves
    [_listen]: with [server_socket] unset it returns. *)
Theorem listen_closes_last :
  forall (callback : option (address -> prog unit)) (fuel : nat)
         (w : World) (s : State),
    let r := run respond (TCPProxy._listen callback fuel) w s in
    outcome_of r <> OutOfFuel ->
    match server_socket (state_of r) with
    | Some x =>
      exists pre a,
        trace_of r = pre ++ [ECall (SocketClose x) a]
        /\ outcome_of r
           = match a with None => Returned tt | Some e => Raised e end
    | None => outcome_of r = Returned tt
    end.
Proof.
  intros callback fuel w s r. subst r.
  unfold TCPProxy._listen.
  rewrite run_try_finally. cbn zeta.
  match goal with
  | |- context [run respond (try_except ?p ?h) w s] =>
    assert (Hnr : never_raises (try_except p h))
      by (apply never_raises_try_except; constructor);
    pose proof (never_raises_run World respond _ Hnr w s) as He;
    destruct (run respond (try_except p h) w s) as [[[] | e |] w1 s1 tr1]
  end; cbn [outcome_of trace_of world_of state_of] in *.
  - unfold get. cbn [bind run].
    destruct (server_socket s1) as [x |] eqn:Hsock.
    + cbn [run emit].
      destruct (fst (respond w1 (SocketClose x))) as [e |] eqn:Hclose;
        cbn [of_opt run emit outcome_of trace_of world_of state_of];
        intros _; rewrite Hsock.
      * now exists tr1, (Some e).
      * now exists tr1, None.
    + cbn [run emit outcome_of trace_of world_of state_of]. intros _.
      now rewrite Hsock.
  - now destruct (He e).
  - intros H. now destruct H.
Qed.

End ListenerEnd.

Lemma listen_closes_last_witness :
  exists pre a,
    trace_of (run port_taken_respond (listener 70) sim_off initial_state)
    = pre ++ [ECall (SocketClose 10%nat) a].
Proof.
  destruct (listen_closes_last Sim port_taken_respond
              (Some (MCServerManager.on_connection_attempt 70)) 70 sim_off
              initial_state ltac:(vm_compute; discriminate))
    as (pre & a & Htr & _).
  exists pre, a. exact Htr.
Defined.

(** ** The properties at work on the simulated droplet *)

Lemma monitor_queries_agree_witness :
  count is_lookup
    (trace_of
       (run sim_respond MinecraftMonitor.is_server_online sim_up
          (mkState None false false 15 true None 0 true)))
  = 0%nat.
Proof.
  exact (proj1 (proj2 (proj2 (proj2 (proj2
    (monitor_queries_agree Sim sim_respond sim_up
       (mkState None false false 15 true None 0 true)))))) eq_refl).
Defined.

Lemma start_droplet_outcomes_witness :
  In (ECall DropletLoad (inr "active"%string))
     (trace_of
        (run sim_respond (DigitalOceanManager.start_droplet 70) sim_off
           initial_state)).
Proof.
  exact (proj1 (proj2 (proj2 (proj2
    (start_droplet_outcomes Sim sim_respond 70 sim_off initial_state))))
    eq_refl).
Defined.

Lemma stop_droplet_outcomes_witness :
  trace_of (run sim_respond DigitalOceanManager.stop_droplet sim_up
              initial_state)
  = [ECall DropletLoad (inr "active"%string); ECall DropletShutdown None].
Proof.
  exact (proj1 (proj2 (proj2 (proj2 (proj2 (proj2
    (stop_droplet_outcomes Sim sim_respond sim_up initial_state)))
    "active"%string eq_refl) eq_refl))).
Defined.

Lemma wait_for_server_ready_outcomes_witness :
  exists pre n,
    trace_of
      (run sim_respond (MinecraftMonitor.wait_for_server_ready 37 180) sim_up
         initial_state)
    = pre ++ [ECall ServerStatus (inr n)].
Proof.
  exact (proj1 (proj2
    (wait_for_server_ready_outcomes Sim sim_respond 37 180 sim_up
       initial_state)) eq_refl).
Defined.

Lemma get_status_read_only_witness :
  count is_probe
    (trace_of
       (run sim_respond
          (Dashboard.get_status true "198.51.100.4" 25565 None) sim_up
          initial_state))
  = 0%nat.
Proof.
  exact (proj1 (proj2 (proj2 (proj2 (proj2 (proj2
    (get_status_read_only Sim sim_respond true "198.51.100.4" 25565 None
       sim_up initial_state))))) eq_refl)).
Defined.
